(** * Legal tabular review: extraction pipeline and review reconciliation

    A shallow embedding of the extraction engine
    ([backend/app/services/extractor.py]), the review endpoints
    ([backend/app/api/v1/endpoints/review.py]), the extraction endpoints
    ([backend/app/api/v1/endpoints/extraction.py]) and the extraction jobs
    of a document and of a project ([backend/app/workers/tasks.py]), with
    what they use of the models ([backend/app/models]) and of the response
    models ([backend/app/schemas]), followed by the properties of the
    specification that concern them and by further properties of the same
    code.

    Modelling conventions.
    - A Python [str] is a list of characters ([pystr]).  A character is a
      code point below 256 (Rocq's [ascii]); the character classes of [re],
      [str.strip] and [str.lower] are the ones Python uses on that range.
    - Python integers are [Z].  A Python float is kept as the decimal numeral
      that denotes it ([pyfloat]).  Of the rounding of a numeral to a binary64
      value only the overflow to an infinity and the underflow to zero are
      modelled; a confidence score is the rational the numeral denotes.
    - A decoded JSON document is a [pyval]; a JSON object is an association
      list in insertion order, as a Python [dict] is.
    - An exception is a value of an error type; the texts of error messages
      are not modelled, only their kind.
    - The relational store is a record of row lists; a query returns rows in
      storage order.  A relationship attribute that is read on a row of an
      [AsyncSession] is a lazy load ([Db.lazy_related]).
    - A response that the response model of its endpoint refuses is an
      error of the server, as an exception no handler catches is. *)

From Stdlib Require Import ZArith QArith Ascii String Lia DecimalString Sorted.
From stdpp Require Import base option list strings gmap.

#[local] Set Warnings "-register-all,-clear-no-such-hyp".

Local Close Scope Q_scope.
Local Open Scope Z_scope.

Abbreviation pystr := (list ascii).

(** [str "abc"] is the Python string literal ["abc"]. *)
Definition str (s : string) : pystr := list_ascii_of_string s.
Arguments str : simpl never.

(** [dq "['a']"] is the text [s] with a double quote for every apostrophe,
    for writing JSON texts. *)
Definition dq (s : string) : pystr :=
  (λ c, if Ascii.eqb c "'" then ascii_of_N 34 else c) <$> str s.

(** ** Python string and sequence primitives *)

Module Py.

Definition ord (c : ascii) : Z := Z.of_N (N_of_ascii c).
Definition chr (n : Z) : ascii := ascii_of_N (Z.to_N n).

(** The double quote character. *)
Definition dquote : ascii := chr 34.

Definition in_range (lo hi : Z) (c : ascii) : bool :=
  (lo <=? ord c) && (ord c <=? hi).

Definition ch_eqb (a b : ascii) : bool := Ascii.eqb a b.

(** [str.isspace] on one character, which is also the class [\s] of [re]
    for [str] patterns. *)
Definition isspace (c : ascii) : bool :=
  in_range 9 13 c || in_range 28 32 c || (ord c =? 133) || (ord c =? 160).

(** The class [\d] of [re]: the decimal digits. *)
Definition isdigit (c : ascii) : bool := in_range 48 57 c.

Definition is_ascii_lower (c : ascii) : bool := in_range 97 122 c.
Definition is_ascii_upper (c : ascii) : bool := in_range 65 90 c.

(** [str.lower] on one character. *)
Definition lower_char (c : ascii) : ascii :=
  if is_ascii_upper c || (in_range 192 222 c && negb (ord c =? 215))
  then chr (ord c + 32) else c.

Definition lower (s : pystr) : pystr := map lower_char s.

(** The upper-case partner of a character, where it has one below 256. *)
Definition upper_char (c : ascii) : ascii :=
  if is_ascii_lower c || (in_range 224 254 c && negb (ord c =? 247))
  then chr (ord c - 32) else c.

Fixpoint lstrip (s : pystr) : pystr :=
  match s with
  | c :: s' => if isspace c then lstrip s' else s
  | [] => []
  end.

Definition rstrip (s : pystr) : pystr := reverse (lstrip (reverse s)).

(** [s.strip()] *)
Definition strip (s : pystr) : pystr := rstrip (lstrip s).

Definition str_eqb (a b : pystr) : bool := bool_decide (a = b).

Fixpoint is_prefix (p s : pystr) : bool :=
  match p, s with
  | [], _ => true
  | a :: p', b :: s' => ch_eqb a b && is_prefix p' s'
  | _ :: _, [] => false
  end.

(** [sub in s] on strings. *)
Fixpoint contains (sub s : pystr) : bool :=
  is_prefix sub s ||
  match s with
  | [] => false
  | _ :: s' => contains sub s'
  end.

(** [sep.join(items)] *)
Fixpoint join (sep : pystr) (items : list pystr) : pystr :=
  match items with
  | [] => []
  | [x] => x
  | x :: rest => x ++ sep ++ join sep rest
  end.

(** [s.replace(c, e)] for a one-character [c] and the empty string [e]. *)
Definition remove_char (c : ascii) (s : pystr) : pystr :=
  filter (λ x, x ≠ c) s.

(** The index a slice bound denotes in a sequence of length [n]. *)
Definition slice_index (n i : Z) : Z :=
  if i <? 0 then Z.max 0 (i + n) else Z.min i n.

(** [l[start:stop]] *)
Definition slice {A} (l : list A) (start stop : Z) : list A :=
  let n := Z.of_nat (length l) in
  let a := slice_index n start in
  let b := slice_index n stop in
  take (Z.to_nat (b - a)) (drop (Z.to_nat a) l).

(** [l[:stop]] *)
Definition slice_to {A} (l : list A) (stop : Z) : list A := slice l 0 stop.

(** [a < b] on finite float values. *)
Definition Qlt_bool (a b : Q) : bool :=
  Qnum a * Z.pos (Qden b) <? Qnum b * Z.pos (Qden a).

(** [max(items, key=key)] on a non-empty list: the first item whose key no
    later item exceeds, as the built-in replaces its candidate only on a
    strictly greater key. *)
Fixpoint max_by_from {A} (key : A → Q) (best : A) (items : list A) : A :=
  match items with
  | [] => best
  | x :: rest =>
      if Qlt_bool (key best) (key x)
      then max_by_from key x rest
      else max_by_from key best rest
  end.

Definition max_by {A} (key : A → Q) (items : list A) : option A :=
  match items with
  | [] => None
  | x :: rest => Some (max_by_from key x rest)
  end.

End Py.

(** ** The chunker: [GeminiExtractor._create_chunks] *)

Module Chunker.

(** The [while] loop from a given [start].  Each iteration of the source
    is one unfolding; [None] is a loop that has not ended within [fuel]
    iterations. *)
Fixpoint chunks_loop {A} (fuel : nat) (text : list A)
    (chunk_size overlap start : Z) : option (list (list A)) :=
  if start <? Z.of_nat (length text) then
    match fuel with
    | O => None
    | S fuel' =>
        let end_ := start + chunk_size in
        let chunk := Py.slice text start end_ in
        if Z.of_nat (length text) <=? end_ then Some [chunk]
        else cons chunk <$>
               chunks_loop fuel' text chunk_size overlap (end_ - overlap)
    end
  else Some [].

(** A loop that ends does so within [len(text)] iterations, so the call
    runs with one more than that. *)
Definition _create_chunks {A} (text : list A) (chunk_size overlap : Z)
    : option (list (list A)) :=
  chunks_loop (S (length text)) text chunk_size overlap 0.

(** The text a chunk list stands for: the first chunk followed by every
    later chunk without its first [overlap] characters. *)
Definition reassemble {A} (overlap : nat) (chunks : list (list A)) : list A :=
  match chunks with
  | [] => []
  | c :: rest => c ++ concat (map (drop overlap) rest)
  end.

(** The windows the loop cuts out of what is left of the text, for a
    window of [n] characters that advances by [n - ov]. *)
Inductive chunking {A} (n ov : nat) : list A → list (list A) → Prop :=
| chunking_nil : chunking n ov [] []
| chunking_last rest :
    rest ≠ [] → (length rest ≤ n)%nat → chunking n ov rest [rest]
| chunking_step rest cs :
    (n < length rest)%nat →
    chunking n ov (drop (n - ov) rest) cs →
    chunking n ov rest (take n rest :: cs).

End Chunker.

(** ** Regular expressions: the fragment of [re] the sources use

    Every repetition in the patterns of the sources is over a character
    class, so a repetition node carries a class.  Matching is the
    backtracking search of [re]: alternatives in order, a greedy repetition
    tries the longest run first, a lazy one the shortest, and [search]
    returns the match at the leftmost position that has one. *)

Module Re.

Inductive regex :=
| Eps
| Cls (p : ascii → bool)
| Rep (p : ascii → bool) (lo : nat) (hi : option nat) (greedy : bool)
| Cat (r1 r2 : regex)
| Alt (r1 r2 : regex)
| Grp (i : nat) (r : regex).

Definition captures := list (nat * pystr).

Record re_match := ReMatch {
  m_start : nat;
  m_group0 : pystr;
  m_groups : captures
}.

(** [group(i)] for [i >= 1]; the last binding made for the group. *)
Definition group (m : re_match) (i : nat) : option pystr :=
  snd <$> find (λ g, Nat.eqb (fst g) i) (m_groups m).

Definition hi_allows (hi : option nat) : bool :=
  match hi with Some O => false | _ => true end.

Fixpoint rep_match {R} (p : ascii → bool) (greedy : bool) (s : pystr)
    (lo : nat) (hi : option nat) (k : pystr → option R) : option R :=
  let more :=
    match s with
    | c :: s' =>
        if p c && hi_allows hi
        then λ _ : unit, rep_match p greedy s' (Nat.pred lo) (Nat.pred <$> hi) k
        else λ _, None
    | [] => λ _, None
    end in
  match lo with
  | S _ => more ()
  | O =>
      if greedy
      then match more () with Some r => Some r | None => k s end
      else match k s with Some r => Some r | None => more () end
  end.

Fixpoint run {R} (r : regex) (s : pystr) (caps : captures)
    (k : pystr → captures → option R) : option R :=
  match r with
  | Eps => k s caps
  | Cls p =>
      match s with
      | c :: s' => if p c then k s' caps else None
      | [] => None
      end
  | Rep p lo hi greedy => rep_match p greedy s lo hi (λ s', k s' caps)
  | Cat r1 r2 => run r1 s caps (λ s1 c1, run r2 s1 c1 k)
  | Alt r1 r2 =>
      match run r1 s caps k with
      | Some x => Some x
      | None => run r2 s caps k
      end
  | Grp i r1 =>
      run r1 s caps
        (λ s1 c1, k s1 ((i, take (length s - length s1) s) :: c1))
  end.

(** [re.match] at the head of [s]: the matched text and the groups. *)
Definition match_here (r : regex) (s : pystr) : option (pystr * captures) :=
  run r s [] (λ s' caps, Some (take (length s - length s') s, caps)).

Fixpoint search_from (r : regex) (pos : nat) (s : pystr) : option re_match :=
  match match_here r s with
  | Some (g0, caps) => Some (ReMatch pos g0 caps)
  | None =>
      match s with
      | [] => None
      | _ :: s' => search_from r (S pos) s'
      end
  end.

(** [re.search(r, s)] *)
Definition search (r : regex) (s : pystr) : option re_match :=
  search_from r 0 s.

(** The flag [re.IGNORECASE]: a character is in a class when it or its
    partner of the other case is. *)
Definition icase (p : ascii → bool) : ascii → bool :=
  λ c, p c || p (Py.lower_char c) || p (Py.upper_char c).

Fixpoint ignorecase (r : regex) : regex :=
  match r with
  | Eps => Eps
  | Cls p => Cls (icase p)
  | Rep p lo hi g => Rep (icase p) lo hi g
  | Cat r1 r2 => Cat (ignorecase r1) (ignorecase r2)
  | Alt r1 r2 => Alt (ignorecase r1) (ignorecase r2)
  | Grp i r1 => Grp i (ignorecase r1)
  end.

(** [re.split] for a pattern that is one character class. *)
Fixpoint split_class (p : ascii → bool) (s : pystr) : list pystr :=
  match s with
  | [] => [[]]
  | c :: s' =>
      if p c then [] :: split_class p s'
      else match split_class p s' with
           | item :: items => (c :: item) :: items
           | [] => [[c]]
           end
  end.

(** *** Pattern syntax *)

Definition just (c : ascii) : ascii → bool := Py.ch_eqb c.
Definition any : ascii → bool := λ _, true.
Definition one_of (cs : pystr) : ascii → bool := λ c, existsb (Py.ch_eqb c) cs.
Definition either (p q : ascii → bool) : ascii → bool := λ c, p c || q c.

Definition chr (c : ascii) : regex := Cls (just c).
Definition star (p : ascii → bool) : regex := Rep p 0 None true.
Definition star_lazy (p : ascii → bool) : regex := Rep p 0 None false.
Definition plus (p : ascii → bool) : regex := Rep p 1 None true.
Definition opt (p : ascii → bool) : regex := Rep p 0 (Some 1%nat) true.
Definition times (lo hi : nat) (p : ascii → bool) : regex := Rep p lo (Some hi) true.

Fixpoint seq (rs : list regex) : regex :=
  match rs with
  | [] => Eps
  | [r] => r
  | r :: rs' => Cat r (seq rs')
  end.

Fixpoint alt (rs : list regex) : regex :=
  match rs with
  | [] => Cls (λ _, false)
  | [r] => r
  | r :: rs' => Alt r (alt rs')
  end.

Definition lit (s : pystr) : regex := seq (chr <$> s).

End Re.

(** ** Python values and the built-ins applied to them *)

(** A float: a signed decimal numeral [(-1)^neg * m * 10^e], an infinity, or
    not-a-number. *)
Inductive pyfloat :=
| FFin (neg : bool) (m : N) (e : Z)
| FInf (neg : bool)
| FNaN.

(** What [json.loads] returns. *)
Inductive pyval :=
| PNone
| PBool (b : bool)
| PInt (z : Z)
| PFloat (f : pyfloat)
| PStr (s : pystr)
| PList (items : list pyval)
| PDict (members : list (pystr * pyval)).

Module PyVal.

(** The rational a finite float denotes. *)
Definition to_Q (neg : bool) (m : N) (e : Z) : Q :=
  let n := if neg then - Z.of_N m else Z.of_N m in
  Qred (if 0 <=? e then inject_Z (n * 10 ^ e)
        else Qmake n (Z.to_pos (10 ^ (- e)))).

Definition float_is_zero (f : pyfloat) : bool :=
  match f with
  | FFin _ m _ => (m =? 0)%N
  | _ => false
  end.

(** [bool(v)] *)
Definition truthy (v : pyval) : bool :=
  match v with
  | PNone => false
  | PBool b => b
  | PInt z => negb (z =? 0)
  | PFloat f => negb (float_is_zero f)
  | PStr s => negb (bool_decide (s = []))
  | PList items => match items with [] => false | _ => true end
  | PDict members => match members with [] => false | _ => true end
  end.

(** [v == s] for a string [s]. *)
Definition eq_str (v : pyval) (s : pystr) : bool :=
  match v with
  | PStr s' => Py.str_eqb s' s
  | _ => false
  end.

(** *** Dictionaries *)

(** [d.get(key)] *)
Fixpoint dict_get (members : list (pystr * pyval)) (key : pystr) : option pyval :=
  match members with
  | [] => None
  | (k, v) :: rest => if Py.str_eqb k key then Some v else dict_get rest key
  end.

(** [d[key] = v]: a present key keeps its place. *)
Fixpoint dict_set (members : list (pystr * pyval)) (key : pystr) (v : pyval)
    : list (pystr * pyval) :=
  match members with
  | [] => [(key, v)]
  | (k, v0) :: rest =>
      if Py.str_eqb k key then (k, v) :: rest
      else (k, v0) :: dict_set rest key v
  end.

(** *** Numerals *)

Fixpoint span {A} (p : A → bool) (l : list A) : list A * list A :=
  match l with
  | x :: l' => if p x then let '(a, b) := span p l' in (x :: a, b) else ([], l)
  | [] => ([], [])
  end.

Definition digit_value (c : ascii) : N := Z.to_N (Py.ord c - 48).

Definition digits_to_N (ds : pystr) : N :=
  fold_left (λ acc c, acc * 10 + digit_value c)%N ds 0%N.

Definition N_to_pystr (n : N) : pystr := str (NilZero.string_of_uint (N.to_uint n)).
Definition Z_to_pystr (z : Z) : pystr := str (NilZero.string_of_int (Z.to_int z)).

(** The integers from this magnitude on, and the numerals that denote at
    least as much, are beyond the largest float. *)
Definition float_overflow_bound : Z := 2 ^ 1024 - 2 ^ 970.

(** The float a decimal numeral denotes: an infinity from the overflow
    bound on, zero below half of the least positive float, and the numeral
    itself in between.  A numeral with a non-zero [m] denotes at least
    [10^e] and, [m] being less than [10^(log2 m / 3 + 1)], less than
    [10^(e + log2 m / 3 + 1)]; this settles the numerals with an extreme
    exponent without computing a power. *)
Definition make_float (neg : bool) (m : N) (e : Z) : pyfloat :=
  let n := Z.of_N m in
  let k := Z.log2 n / 3 in
  if n =? 0 then FFin neg 0 0
  else if 400 <? e then FInf neg
  else if e + k <? -400 then FFin neg 0 0
  else if (if 0 <=? e then float_overflow_bound <=? n * 10 ^ e
           else float_overflow_bound * 10 ^ (- e) <=? n)
  then FInf neg
  else if (e <? 0) && (n * 2 ^ 1075 <? 10 ^ (- e)) then FFin neg 0 0
  else FFin neg m e.

(** An optional exponent part [[eE][-+]?\d+] at the head of [s]: its
    value and what follows it; [None] when the part is malformed. *)
Definition exponent_part (digits : pystr → pystr * pystr) (s : pystr)
    : option (Z * pystr) :=
  match s with
  | c :: t =>
      if Re.one_of (str "eE") c then
        let '(neg, t') :=
          match t with
          | sg :: u =>
              if Py.ch_eqb sg "-" then (true, u)
              else if Py.ch_eqb sg "+" then (false, u) else (false, t)
          | [] => (false, t)
          end in
        let '(ds, rest) := digits t' in
        match ds with
        | [] => None
        | _ => let v := Z.of_N (digits_to_N ds) in
               Some (if neg then - v else v, rest)
        end
      else Some (0, s)
  | [] => Some (0, s)
  end.

(** A JSON number: the whole of [w] is an optional minus sign, an integer
    part without a superfluous leading zero, an optional fraction part
    (a point and digits) and an optional exponent part.  An [int] without
    fraction and exponent, a [float] otherwise. *)
Definition json_number (w : pystr) : option pyval :=
  let '(neg, w1) :=
    match w with
    | c :: t => if Py.ch_eqb c "-" then (true, t) else (false, w)
    | [] => (false, w)
    end in
  let '(ip, w2) := span Py.isdigit w1 in
  let int_ok :=
    match ip with
    | [] => false
    | c :: rest => negb (Py.ch_eqb c "0") || bool_decide (rest = [])
    end in
  if negb int_ok then None else
  match w2 with
  | [] => let v := Z.of_N (digits_to_N ip) in Some (PInt (if neg then - v else v))
  | c :: t =>
      let '(frac, w3, frac_ok) :=
        if Py.ch_eqb c "."
        then let '(f, r) := span Py.isdigit t in
             (f, r, negb (bool_decide (f = [])))
        else ([], w2, true) in
      if negb frac_ok then None else
      match exponent_part (span Py.isdigit) w3 with
      | Some (ex, []) =>
          Some (PFloat (make_float neg (digits_to_N (ip ++ frac))
                                   (ex - Z.of_nat (length frac))))
      | _ => None
      end
  end.

(** What may follow a digit in a digit part [\d(_?\d)*]. *)
Fixpoint digits_us (s : pystr) : pystr * pystr :=
  match s with
  | c :: s' =>
      if Py.isdigit c then let '(d, r) := digits_us s' in (c :: d, r)
      else if Py.ch_eqb c "_" then
        match s' with
        | c2 :: s'' =>
            if Py.isdigit c2
            then let '(d, r) := digits_us s'' in (c2 :: d, r)
            else ([], s)
        | [] => ([], s)
        end
      else ([], s)
  | [] => ([], [])
  end.

Definition digitpart (s : pystr) : pystr * pystr :=
  match s with
  | c :: _ => if Py.isdigit c then digits_us s else ([], s)
  | [] => ([], s)
  end.

(** [float(s)] for a string; [None] is [ValueError]. *)
Definition float_of_str (s : pystr) : option pyfloat :=
  let t := Py.strip s in
  let '(neg, t1) :=
    match t with
    | c :: u =>
        if Py.ch_eqb c "-" then (true, u)
        else if Py.ch_eqb c "+" then (false, u) else (false, t)
    | [] => (false, t)
    end in
  let low := Py.lower t1 in
  if Py.str_eqb low (str "inf") || Py.str_eqb low (str "infinity")
  then Some (FInf neg)
  else if Py.str_eqb low (str "nan") then Some FNaN
  else
    let '(ip, t2) := digitpart t1 in
    let '(frac, t3) :=
      match t2 with
      | c :: u => if Py.ch_eqb c "." then digitpart u else ([], t2)
      | [] => ([], t2)
      end in
    if bool_decide (ip = []) && bool_decide (frac = []) then None else
    match exponent_part digitpart t3 with
    | Some (ex, []) =>
        Some (make_float neg (digits_to_N (ip ++ frac)) (ex - Z.of_nat (length frac)))
    | _ => None
    end.

(** [float(v)]; [None] is the [TypeError], [ValueError] or
    [OverflowError] of the built-in. *)
Definition py_float (v : pyval) : option pyfloat :=
  match v with
  | PNone => None
  | PBool b => Some (FFin false (if b then 1 else 0) 0)
  | PInt z =>
      if float_overflow_bound <=? Z.abs z then None
      else Some (FFin (z <? 0) (Z.abs_N z) 0)
  | PFloat f => Some f
  | PStr s => float_of_str s
  | PList _ | PDict _ => None
  end.

(** [min(1.0, max(0.0, x))].  [max(0.0, x)] is [x] when [x > 0.0] and
    [0.0] otherwise; [min(1.0, y)] is [y] when [y < 1.0] and [1.0]
    otherwise; a comparison with not-a-number is false. *)
Definition clamp_confidence (x : pyfloat) : Q :=
  match x with
  | FNaN => 0%Q
  | FInf neg => if neg then 0%Q else 1%Q
  | FFin neg m e =>
      let q := to_Q neg m e in
      if Py.Qlt_bool 0 q then (if Py.Qlt_bool q 1 then q else 1%Q) else 0%Q
  end.

(** *** Printing *)

Definition hex_digit (n : Z) : ascii :=
  if n <? 10 then Py.chr (48 + n) else Py.chr (87 + n).

Definition hex2 (c : ascii) : pystr :=
  [hex_digit (Py.ord c / 16); hex_digit (Py.ord c mod 16)].

Definition drop_trailing_zeros (ds : pystr) : pystr :=
  reverse (snd (span (Py.ch_eqb "0") (reverse ds))).

(** [repr(x)] of a float: the digits of the numeral, in positional
    notation when the decimal exponent is in [-4, 16) and in scientific
    notation otherwise. *)
Definition float_repr (f : pyfloat) : pystr :=
  match f with
  | FNaN => str "nan"
  | FInf neg => if neg then str "-inf" else str "inf"
  | FFin neg m e =>
      (if neg then str "-" else []) ++
      if (m =? 0)%N then str "0.0" else
      let ds0 := N_to_pystr m in
      let ds := drop_trailing_zeros ds0 in
      let e' := e + Z.of_nat (length ds0 - length ds) in
      let n := Z.of_nat (length ds) in
      let x := e' + n - 1 in
      if (-4 <=? x) && (x <? 16) then
        if 0 <=? e' then ds ++ replicate (Z.to_nat e') "0"%char ++ str ".0"
        else if 0 <=? x
             then take (Z.to_nat (n + e')) ds ++ str "." ++ drop (Z.to_nat (n + e')) ds
             else str "0." ++ replicate (Z.to_nat (- x - 1)) "0"%char ++ ds
      else
        take 1 ds ++ (if 1 <? n then str "." ++ drop 1 ds else []) ++
        str "e" ++ (if x <? 0 then str "-" else str "+") ++
        (if Z.abs x <? 10 then str "0" else []) ++ Z_to_pystr (Z.abs x)
  end.

Definition printable (c : ascii) : bool :=
  negb (Py.in_range 0 31 c || Py.in_range 127 160 c || (Py.ord c =? 173)).

(** [repr(s)] of a string. *)
Definition repr_str (s : pystr) : pystr :=
  let q : ascii :=
    if Py.contains (str "'") s && negb (Py.contains [Py.dquote] s)
    then Py.dquote else "'"%char in
  let esc (c : ascii) : pystr :=
    if Py.ch_eqb c "\" then str "\\"
    else if Py.ch_eqb c q then ["\"%char; q]
    else if Py.ord c =? 9 then str "\t"
    else if Py.ord c =? 10 then str "\n"
    else if Py.ord c =? 13 then str "\r"
    else if printable c then [c]
    else str "\x" ++ hex2 c in
  [q] ++ concat (esc <$> s) ++ [q].

(** [repr(v)] *)
Fixpoint repr (v : pyval) : pystr :=
  match v with
  | PNone => str "None"
  | PBool b => if b then str "True" else str "False"
  | PInt z => Z_to_pystr z
  | PFloat f => float_repr f
  | PStr s => repr_str s
  | PList items => str "[" ++ Py.join (str ", ") (repr <$> items) ++ str "]"
  | PDict members =>
      str "{" ++
      Py.join (str ", ")
        ((λ kv : pystr * pyval, repr_str (fst kv) ++ str ": " ++ repr (snd kv))
           <$> members) ++
      str "}"
  end.

(** [str(v)] *)
Definition py_str (v : pyval) : pystr :=
  match v with
  | PStr s => s
  | _ => repr v
  end.

End PyVal.

(** ** The JSON decoder and encoder: [json.loads], [json.dumps]

    The decoder is a scanner that turns the text into tokens, one character
    at a time, and a stack machine that assembles the tokens into a value.
    Both consume their input by structural recursion, so decoding is total:
    [None] is a [JSONDecodeError].

    The decoder stands for [json.loads] on the texts [in_range] below
    describes.  Outside of them the two differ: a [\u] escape from U+0100
    on names a character a [pystr] cannot hold, and the scanner refuses
    it where [json.loads] decodes it; and [json.loads] gives up on a text
    that is nested deeper than the interpreter's stack allows, or that
    holds an integer of more digits than the interpreter converts, where
    the decoder goes on. *)

Module Json.

Inductive token :=
| TLBracket | TRBracket | TLBrace | TRBrace | TComma | TColon
| TString (s : pystr)
| TScalar (v : pyval).

(** The scanner is in plain text, inside a number or literal (characters
    so far, last first), inside a string, after a backslash in a string,
    or inside the four hexadecimal digits of a [\u] escape. *)
Inductive lex_state :=
| LDefault
| LWord (acc : pystr)
| LString (acc : pystr)
| LEscape (acc : pystr)
| LUnicode (acc : pystr) (hex : list Z).

Definition is_json_space (c : ascii) : bool := Re.one_of [" "%char; Py.chr 9; Py.chr 10; Py.chr 13] c.

Definition is_word_char (c : ascii) : bool :=
  Py.isdigit c || Py.is_ascii_lower c || Py.is_ascii_upper c
  || Re.one_of (str "+-.") c.

Definition hex_value (c : ascii) : option Z :=
  if Py.isdigit c then Some (Py.ord c - 48)
  else if Py.in_range 97 102 c then Some (Py.ord c - 87)
  else if Py.in_range 65 70 c then Some (Py.ord c - 55)
  else None.

(** The value of a maximal run of number and literal characters. *)
Definition word_value (w : pystr) : option pyval :=
  if Py.str_eqb w (str "null") then Some PNone
  else if Py.str_eqb w (str "true") then Some (PBool true)
  else if Py.str_eqb w (str "false") then Some (PBool false)
  else if Py.str_eqb w (str "NaN") then Some (PFloat FNaN)
  else if Py.str_eqb w (str "Infinity") then Some (PFloat (FInf false))
  else if Py.str_eqb w (str "-Infinity") then Some (PFloat (FInf true))
  else PyVal.json_number w.

Definition default_step (c : ascii) : option (lex_state * list token) :=
  if is_json_space c then Some (LDefault, [])
  else if Py.ch_eqb c "[" then Some (LDefault, [TLBracket])
  else if Py.ch_eqb c "]" then Some (LDefault, [TRBracket])
  else if Py.ch_eqb c "{" then Some (LDefault, [TLBrace])
  else if Py.ch_eqb c "}" then Some (LDefault, [TRBrace])
  else if Py.ch_eqb c "," then Some (LDefault, [TComma])
  else if Py.ch_eqb c ":" then Some (LDefault, [TColon])
  else if Py.ch_eqb c Py.dquote then Some (LString [], [])
  else if is_word_char c then Some (LWord [c], [])
  else None.

Definition escape_char (c : ascii) : option ascii :=
  if Py.ch_eqb c Py.dquote then Some Py.dquote
  else if Py.ch_eqb c "\" then Some "\"%char
  else if Py.ch_eqb c "/" then Some "/"%char
  else if Py.ch_eqb c "b" then Some (Py.chr 8)
  else if Py.ch_eqb c "f" then Some (Py.chr 12)
  else if Py.ch_eqb c "n" then Some (Py.chr 10)
  else if Py.ch_eqb c "r" then Some (Py.chr 13)
  else if Py.ch_eqb c "t" then Some (Py.chr 9)
  else None.

Definition lex_step (st : lex_state) (c : ascii) : option (lex_state * list token) :=
  match st with
  | LDefault => default_step c
  | LWord acc =>
      if is_word_char c then Some (LWord (c :: acc), [])
      else
        v ← word_value (reverse acc);
        '(st', toks) ← default_step c;
        Some (st', TScalar v :: toks)
  | LString acc =>
      if Py.ch_eqb c Py.dquote then Some (LDefault, [TString (reverse acc)])
      else if Py.ch_eqb c "\" then Some (LEscape acc, [])
      else if Py.ord c <? 32 then None
      else Some (LString (c :: acc), [])
  | LEscape acc =>
      if Py.ch_eqb c "u" then Some (LUnicode acc [], [])
      else e ← escape_char c; Some (LString (e :: acc), [])
  | LUnicode acc hex =>
      h ← hex_value c;
      match hex with
      | [h2; h1; h0] =>
          let code := ((h0 * 16 + h1) * 16 + h2) * 16 + h in
          (* a code point from 256 on has no counterpart in [pystr] *)
          if code <? 256 then Some (LString (Py.chr code :: acc), []) else None
      | _ => Some (LUnicode acc (h :: hex), [])
      end
  end.

Fixpoint lex (st : lex_state) (s : pystr) : option (list token) :=
  match s with
  | [] =>
      match st with
      | LDefault => Some []
      | LWord acc => v ← word_value (reverse acc); Some [TScalar v]
      | _ => None
      end
  | c :: s' =>
      '(st', toks) ← lex_step st c;
      rest ← lex st' s';
      Some (toks ++ rest)
  end.

(** An open container: the elements of an array, last first, or the
    members of an object and the key that waits for its value. *)
Inductive frame :=
| FArr (elems : list pyval)
| FObj (members : list (pystr * pyval)) (key : option pystr).

Inductive mode :=
| MValue      (* a value must follow *)
| MFirst      (* directly after an opening bracket or brace *)
| MAfter      (* after a value inside a container *)
| MKey        (* after a comma inside an object *)
| MColon      (* after a key *)
| MEnd (v : pyval).

(** A completed value goes to the innermost open container, or ends the
    document. *)
Definition push_value (v : pyval) (stack : list frame) : option (list frame * mode) :=
  match stack with
  | [] => Some ([], MEnd v)
  | FArr elems :: st => Some (FArr (v :: elems) :: st, MAfter)
  | FObj members (Some k) :: st =>
      Some (FObj (PyVal.dict_set members k v) None :: st, MAfter)
  | FObj _ None :: _ => None
  end.

Definition close (closing : token) (stack : list frame) : option (list frame * mode) :=
  match closing, stack with
  | TRBracket, FArr elems :: st => push_value (PList (reverse elems)) st
  | TRBrace, FObj members None :: st => push_value (PDict members) st
  | _, _ => None
  end.

Definition open_value (t : token) (stack : list frame) : option (list frame * mode) :=
  match t with
  | TScalar v => push_value v stack
  | TString s => push_value (PStr s) stack
  | TLBracket => Some (FArr [] :: stack, MFirst)
  | TLBrace => Some (FObj [] None :: stack, MFirst)
  | _ => None
  end.

Definition set_key (k : pystr) (stack : list frame) : option (list frame * mode) :=
  match stack with
  | FObj members None :: st => Some (FObj members (Some k) :: st, MColon)
  | _ => None
  end.

Definition parse_step (stack : list frame) (m : mode) (t : token)
    : option (list frame * mode) :=
  match m with
  | MValue => open_value t stack
  | MFirst =>
      match stack, t with
      | FArr _ :: _, TRBracket => close t stack
      | FArr _ :: _, _ => open_value t stack
      | FObj _ _ :: _, TRBrace => close t stack
      | FObj _ _ :: _, TString k => set_key k stack
      | _, _ => None
      end
  | MAfter =>
      match stack, t with
      | FArr _ :: _, TComma => Some (stack, MValue)
      | FObj _ _ :: _, TComma => Some (stack, MKey)
      | _, (TRBracket | TRBrace) => close t stack
      | _, _ => None
      end
  | MKey =>
      match t with
      | TString k => set_key k stack
      | _ => None
      end
  | MColon =>
      match t with
      | TColon => Some (stack, MValue)
      | _ => None
      end
  | MEnd _ => None
  end.

Fixpoint parse (stack : list frame) (m : mode) (toks : list token) : option pyval :=
  match toks with
  | [] =>
      match m with
      | MEnd v => Some v
      | _ => None
      end
  | t :: toks' =>
      '(stack', m') ← parse_step stack m t;
      parse stack' m' toks'
  end.

(** [json.loads(s)] *)
Definition loads (s : pystr) : option pyval :=
  toks ← lex LDefault s; parse [] MValue toks.

(** *** The texts the decoder covers *)

(** A [\u] escape with a code point from U+0100 on starts here. *)
Definition wide_escape_at (s : pystr) : bool :=
  match s with
  | b :: u :: h3 :: h2 :: h1 :: h0 :: _ =>
      Py.ch_eqb b "\" && Py.ch_eqb u "u"
      && match hex_value h3, hex_value h2, hex_value h1, hex_value h0 with
         | Some x3, Some x2, Some x1, Some x0 =>
             negb (((x3 * 16 + x2) * 16 + x1) * 16 + x0 <? 256)
         | _, _, _, _ => false
         end
  | _ => false
  end.

Fixpoint has_wide_escape (s : pystr) : bool :=
  match s with
  | [] => false
  | _ :: s' => wide_escape_at s || has_wide_escape s'
  end.

(** The containers that are open after a token, and the most that were
    open at once. *)
Definition depth_step (d : nat * nat) (t : token) : nat * nat :=
  match t with
  | TLBracket | TLBrace => (S d.1, Nat.max (S d.1) d.2)
  | TRBracket | TRBrace => (Nat.pred d.1, d.2)
  | _ => d
  end.

(** How deep the containers of a text are nested; 0 for a text the
    scanner refuses. *)
Definition nesting (s : pystr) : nat :=
  match lex LDefault s with
  | Some toks => (foldl depth_step (0, 0)%nat toks).2
  | None => 0
  end.

(** No more than [limit] digits follow one another, [run] digits having
    been seen. *)
Fixpoint digit_runs_within (limit run : nat) (s : pystr) : bool :=
  match s with
  | [] => true
  | c :: s' =>
      if Py.isdigit c
      then (S run <=? limit)%nat && digit_runs_within limit (S run) s'
      else digit_runs_within limit 0 s'
  end.

(** The nesting the decoder of the interpreter is taken to manage: each
    container costs it one level of recursion, of the 1000 the interpreter
    allows by default to the whole call stack. *)
Definition safe_nesting : nat := 100.

(** The digits the interpreter converts to an integer by default
    ([sys.get_int_max_str_digits()]). *)
Definition max_str_digits : nat := 4300.

Definition in_range (s : pystr) : bool :=
  negb (has_wide_escape s)
  && (nesting s <=? safe_nesting)%nat
  && digit_runs_within max_str_digits 0 s.

(** *** Encoding *)

Definition float_text (f : pyfloat) : pystr :=
  match f with
  | FNaN => str "NaN"
  | FInf neg => if neg then str "-Infinity" else str "Infinity"
  | FFin _ _ _ => PyVal.float_repr f
  end.

(** A string between double quotes; the characters outside the printable
    ASCII range are escaped. *)
Definition string_text (s : pystr) : pystr :=
  let esc (c : ascii) : pystr :=
    if Py.ch_eqb c Py.dquote then ["\"%char; Py.dquote]
    else if Py.ch_eqb c "\" then str "\\"
    else if Py.ord c =? 10 then str "\n"
    else if Py.ord c =? 13 then str "\r"
    else if Py.ord c =? 9 then str "\t"
    else if Py.ord c =? 8 then str "\b"
    else if Py.ord c =? 12 then str "\f"
    else if Py.in_range 32 126 c then [c]
    else str "\u00" ++ PyVal.hex2 c in
  [Py.dquote] ++ concat (esc <$> s) ++ [Py.dquote].

Definition newline_indent (indent : option nat) (level : nat) : pystr :=
  match indent with
  | None => []
  | Some k => Py.chr 10 :: replicate (k * level) " "%char
  end.

Definition item_separator (indent : option nat) (level : nat) : pystr :=
  match indent with
  | None => str ", "
  | Some _ => str "," ++ newline_indent indent level
  end.

Fixpoint dumps_at (indent : option nat) (level : nat) (v : pyval) : pystr :=
  match v with
  | PNone => str "null"
  | PBool b => if b then str "true" else str "false"
  | PInt z => PyVal.Z_to_pystr z
  | PFloat f => float_text f
  | PStr s => string_text s
  | PList [] => str "[]"
  | PList items =>
      str "[" ++ newline_indent indent (S level) ++
      Py.join (item_separator indent (S level))
              (dumps_at indent (S level) <$> items) ++
      newline_indent indent level ++ str "]"
  | PDict [] => str "{}"
  | PDict members =>
      str "{" ++ newline_indent indent (S level) ++
      Py.join (item_separator indent (S level))
              ((λ kv : pystr * pyval,
                  string_text (fst kv) ++ str ": " ++ dumps_at indent (S level) (snd kv))
                 <$> members) ++
      newline_indent indent level ++ str "}"
  end.

(** [json.dumps(v)] and [json.dumps(v, indent=k)] *)
Definition dumps (v : pyval) : pystr := dumps_at None 0 v.
Definition dumps_indent (k : nat) (v : pyval) : pystr := dumps_at (Some k) 0 v.

End Json.

(** ** Outcomes of calls that may raise *)

(** Why a call of the extraction engine raised. *)
Inductive cause :=
| NoJsonArray        (* ValueError: no JSON array found in the response *)
| JsonDecode         (* json.JSONDecodeError *)
| NotAList           (* ValueError: the decoded document is not a list *)
| BadItem            (* TypeError on an item of the decoded list *)
| BadConfidence      (* float() refused the confidence score *)
| ModelCallFailed.   (* the call of the language model raised *)

Inductive outcome (A : Type) :=
| Ok (a : A)
| Raised (c : cause).
Arguments Ok {A} a.
Arguments Raised {A} c.

#[global] Instance outcome_ret : MRet outcome := λ A a, Ok a.
#[global] Instance outcome_bind : MBind outcome := λ A B f x,
  match x with
  | Ok a => f a
  | Raised c => Raised c
  end.

Definition is_ok {A} (x : outcome A) : bool :=
  match x with Ok _ => true | Raised _ => false end.

(** [for x in items: ys.append(f(x))], left to right; the first exception
    ends the loop. *)
Fixpoint for_each {A B} (f : A → outcome B) (items : list A) : outcome (list B) :=
  match items with
  | [] => Ok []
  | x :: rest => y ← f x; ys ← for_each f rest; Ok (y :: ys)
  end.

(** ** The data of the extraction engine *)

(** A field definition of a template, a dictionary.  The keys the engine
    reads with [.get] may be absent ([None]). *)
Record field_definition := FieldDefinition {
  field_id : pystr;
  field_name : pystr;
  field_type : pystr;
  required : option pyval;
  extraction_prompt : option pyval;
  validation_rules : option pyval;
  normalization : option pyval
}.

(** A definition as the template endpoints store one that gives only an
    identifier, a name and a type. *)
Definition plain_field (fid name ftype : string) : field_definition :=
  {| field_id := str fid;
     field_name := str name;
     field_type := str ftype;
     required := Some (PBool false);
     extraction_prompt := Some PNone;
     validation_rules := Some PNone;
     normalization := Some PNone |}.

(** A field result, the dictionary the engine builds for one field.  The
    confidence score is a finite float. *)
Record field_result := FieldResult {
  fr_field_id : pystr;
  fr_raw_value : pyval;
  fr_normalized_value : option pystr;
  fr_confidence_score : Q;
  fr_citations : pyval
}.

(** [FieldType.X.value] *)
Module FieldType.
Definition TEXT : pystr := str "TEXT".
Definition DATE : pystr := str "DATE".
Definition NUMBER : pystr := str "NUMBER".
Definition BOOLEAN : pystr := str "BOOLEAN".
Definition LIST : pystr := str "LIST".
End FieldType.

(** ** The extraction engine: [GeminiExtractor] *)

Module Extractor.
Import Re.

(** The result with [raw_value] and [normalized_value] null, confidence
    0.0 and no citations. *)
Definition placeholder (fid : pystr) : field_result :=
  {| fr_field_id := fid;
     fr_raw_value := PNone;
     fr_normalized_value := None;
     fr_confidence_score := 0%Q;
     fr_citations := PList [] |}.

(** *** [_normalize_value] *)

Definition month_names : list pystr :=
  str <$> ["Jan"; "Feb"; "Mar"; "Apr"; "May"; "Jun";
           "Jul"; "Aug"; "Sep"; "Oct"; "Nov"; "Dec"]%string.

(** [(\d{4})-(\d{2})-(\d{2})] *)
Definition date_iso : regex :=
  seq [Grp 1 (times 4 4 Py.isdigit); chr "-";
       Grp 2 (times 2 2 Py.isdigit); chr "-";
       Grp 3 (times 2 2 Py.isdigit)].

(** [(\d{2})/(\d{2})/(\d{4})] *)
Definition date_slash : regex :=
  seq [Grp 1 (times 2 2 Py.isdigit); chr "/";
       Grp 2 (times 2 2 Py.isdigit); chr "/";
       Grp 3 (times 4 4 Py.isdigit)].

(** [(\d{1,2})\s+(Jan|Feb|...|Dec)[a-z]*\s+(\d{4})] *)
Definition date_spelled : regex :=
  seq [Grp 1 (times 1 2 Py.isdigit); plus Py.isspace;
       Grp 2 (alt (lit <$> month_names)); star Py.is_ascii_lower;
       plus Py.isspace; Grp 3 (times 4 4 Py.isdigit)].

Definition date_patterns : list regex := [date_iso; date_slash; date_spelled].

(** The loop over the date patterns: [group(0)] of the first pattern
    that matches, searched with [re.IGNORECASE]. *)
Fixpoint first_date_match (patterns : list regex) (raw_value : pystr)
    : option pystr :=
  match patterns with
  | [] => None
  | pattern :: rest =>
      match search (ignorecase pattern) raw_value with
      | Some m => Some (m_group0 m)
      | None => first_date_match rest raw_value
      end
  end.

(** [-?[\d,]+\.?\d*] *)
Definition number_pattern : regex :=
  seq [opt (just "-"); plus (either Py.isdigit (just ","));
       opt (just "."); star Py.isdigit].

Definition true_words : list pystr := str <$> ["yes"; "true"; "1"; "y"]%string.
Definition false_words : list pystr := str <$> ["no"; "false"; "0"; "n"]%string.

Definition nonempty (s : pystr) : bool := negb (bool_decide (s = [])).

(** The value is [None] for Python's [None].  Nothing in the body of the
    [try] block raises, so its handler, which returns the stripped raw
    value, has no counterpart here. *)
Definition _normalize_value (raw_value : pyval) (field_type : pystr)
    (normalization_strategy : option pyval) : option pystr :=
  match raw_value with
  | PNone => None
  | _ =>
    if PyVal.eq_str raw_value (str "null") then None else
    let raw_value := Py.strip (PyVal.py_str raw_value) in
    if negb (nonempty raw_value) then None
    else if Py.str_eqb field_type FieldType.DATE then
      match first_date_match date_patterns raw_value with
      | Some matched => Some matched
      | None => Some raw_value
      end
    else if Py.str_eqb field_type FieldType.NUMBER then
      match search number_pattern raw_value with
      | Some number_match => Some (Py.remove_char "," (m_group0 number_match))
      | None => Some raw_value
      end
    else if Py.str_eqb field_type FieldType.BOOLEAN then
      let lower_val := Py.lower raw_value in
      if bool_decide (lower_val ∈ true_words) then Some (str "true")
      else if bool_decide (lower_val ∈ false_words) then Some (str "false")
      else Some raw_value
    else if Py.str_eqb field_type FieldType.LIST then
      if Py.contains (str ",") raw_value || Py.contains (str ";") raw_value then
        let items := split_class (one_of (str ",;")) raw_value in
        Some (Py.join (str ", ")
                (Py.strip <$> filter (λ item, nonempty (Py.strip item)) items))
      else Some raw_value
    else Some raw_value
  end.

(** *** [_parse_response] *)

Definition backticks : regex := lit (str "```").

(** The pattern for an array in a code fence: three backticks, an
    optional [json], white space, the group [\[.*?\]] (lazy), white
    space, three backticks; with [re.DOTALL]. *)
Definition fenced_array : regex :=
  seq [backticks; Alt (lit (str "json")) Eps; star Py.isspace;
       Grp 1 (seq [chr "["; star_lazy any; chr "]"]);
       star Py.isspace; backticks].

(** The pattern [(\[.*\])] (greedy), with [re.DOTALL]. *)
Definition bare_array : regex :=
  Grp 1 (seq [chr "["; star any; chr "]"]).

(** The text handed to the decoder: group 1 of the fenced pattern, and
    of the bare pattern when the fenced one finds nothing. *)
Definition locate_json (response_text : pystr) : option pystr :=
  match search fenced_array response_text with
  | Some json_match => group json_match 1
  | None =>
      match search bare_array response_text with
      | Some json_match => group json_match 1
      | None => None
      end
  end.

(** ['field_id' in item]; [None] is the [TypeError] for an item that is
    no container. *)
Definition has_field_id (item : pyval) : option bool :=
  match item with
  | PDict members => Some (bool_decide (is_Some (PyVal.dict_get members (str "field_id"))))
  | PStr s => Some (Py.contains (str "field_id") s)
  | PList items => Some (existsb (λ x, PyVal.eq_str x (str "field_id")) items)
  | PNone | PBool _ | PInt _ | PFloat _ => None
  end.

(** [next((f for f in field_definitions if f['field_id'] == fid), None)];
    a [fid] that is not a string equals no definition's. *)
Definition find_definition (field_definitions : list field_definition)
    (fid : pyval) : option field_definition :=
  find (λ f, PyVal.eq_str fid (field_id f)) field_definitions.

(** One turn of the loop over the decoded items: [Ok None] is
    [continue], [Ok (Some r)] appends [r].  The search for the definition
    evaluates [item['field_id']] once for each definition it visits, so a
    string or a list that contains [field_id] raises there when there is a
    definition, and is skipped when there is none. *)
Definition validate_item (field_definitions : list field_definition)
    (item : pyval) : outcome (option field_result) :=
  match has_field_id item with
  | None => Raised BadItem
  | Some false => Ok None
  | Some true =>
      match item with
      | PDict members =>
          let get key := PyVal.dict_get members (str key) in
          match find_definition field_definitions (default PNone (get "field_id")) with
          | None => Ok None
          | Some field_def =>
              let normalized_value :=
                _normalize_value (default PNone (get "raw_value"))
                  (field_type field_def) (normalization field_def) in
              match PyVal.py_float
                      (default (PFloat (FFin false 5 (-1))) (get "confidence_score")) with
              | None => Raised BadConfidence
              | Some score =>
                  Ok (Some {| fr_field_id := field_id field_def;
                              fr_raw_value := default PNone (get "raw_value");
                              fr_normalized_value := normalized_value;
                              fr_confidence_score := PyVal.clamp_confidence score;
                              fr_citations := default (PList []) (get "citations") |})
              end
          end
      | _ =>
          (* item['field_id'] on a string or a list *)
          match field_definitions with
          | [] => Ok None
          | _ :: _ => Raised BadItem
          end
      end
  end.

Fixpoint validate_items (field_definitions : list field_definition)
    (items : list pyval) : outcome (list field_result) :=
  match items with
  | [] => Ok []
  | item :: rest =>
      r ← validate_item field_definitions item;
      rs ← validate_items field_definitions rest;
      Ok (match r with Some x => x :: rs | None => rs end)
  end.

Definition has_result (validated_fields : list field_result) (fid : pystr) : bool :=
  existsb (λ f, Py.str_eqb (fr_field_id f) fid) validated_fields.

(** The loop that appends a placeholder for each definition the list has
    no result for. *)
Fixpoint ensure_all (field_definitions : list field_definition)
    (validated_fields : list field_result) : list field_result :=
  match field_definitions with
  | [] => validated_fields
  | field_def :: rest =>
      if has_result validated_fields (field_id field_def)
      then ensure_all rest validated_fields
      else ensure_all rest (validated_fields ++ [placeholder (field_id field_def)])
  end.

(** Every exception in the body leaves the method as an
    [ExtractionError]. *)
Definition _parse_response (response_text : pystr)
    (field_definitions : list field_definition) : outcome (list field_result) :=
  match locate_json response_text with
  | None => Raised NoJsonArray
  | Some json_text =>
      match Json.loads json_text with
      | None => Raised JsonDecode
      | Some (PList extracted_data) =>
          validated_fields ← validate_items field_definitions extracted_data;
          Ok (ensure_all field_definitions validated_fields)
      | Some _ => Raised NotAList
      end
  end.

(** The list the decoder yields for a response, when a text is located
    and decodes to a list. *)
Definition response_items (response_text : pystr) : option (list pyval) :=
  json_text ← locate_json response_text;
  decoded ← Json.loads json_text;
  match decoded with
  | PList extracted_data => Some extracted_data
  | _ => None
  end.

(** The string an item has under the key [field_id], if any. *)
Definition item_field_id (item : pyval) : option pystr :=
  match item with
  | PDict members =>
      match PyVal.dict_get members (str "field_id") with
      | Some (PStr fid) => Some fid
      | _ => None
      end
  | _ => None
  end.

(** The field identifiers of the items, in order, that are identifiers
    of definitions. *)
Definition known_ids (field_definitions : list field_definition)
    (items : list pyval) : list pystr :=
  List.filter (λ fid, bool_decide (fid ∈ field_id <$> field_definitions))
              (omap item_field_id items).

(** *** [_merge_chunk_results] *)

(** [next((f for f in chunk_result if f['field_id'] == field_id), None)] *)
Definition field_data (chunk_result : list field_result) (fid : pystr)
    : option field_result :=
  find (λ f, Py.str_eqb (fr_field_id f) fid) chunk_result.

(** The extractions collected for one field: of every chunk, the first
    result for the field, when its raw value is true as a condition. *)
Fixpoint field_extractions (chunk_results : list (list field_result))
    (fid : pystr) : list field_result :=
  match chunk_results with
  | [] => []
  | chunk_result :: rest =>
      match field_data chunk_result fid with
      | Some data =>
          if PyVal.truthy (fr_raw_value data)
          then data :: field_extractions rest fid
          else field_extractions rest fid
      | None => field_extractions rest fid
      end
  end.

Definition merge_field (chunk_results : list (list field_result))
    (field_def : field_definition) : field_result :=
  match Py.max_by fr_confidence_score
          (field_extractions chunk_results (field_id field_def)) with
  | Some best_extraction => best_extraction
  | None => placeholder (field_id field_def)
  end.

Definition _merge_chunk_results (chunk_results : list (list field_result))
    (field_definitions : list field_definition) : list field_result :=
  merge_field chunk_results <$> field_definitions.

(** *** [_build_extraction_prompt] *)

Definition nl : pystr := [Py.chr 10].
Definition lines (ls : list pystr) : pystr := Py.join nl ls.
Definition quoted (s : pystr) : pystr := [Py.dquote] ++ s ++ [Py.dquote].

(** The text of a value in an f-string. *)
Definition fmt (v : pyval) : pystr := PyVal.py_str v.

Definition field_desc (field : field_definition) : pystr :=
  Py.strip (lines [
    [];
    str "- **" ++ field_name field ++ str "** (ID: `" ++ field_id field ++ str "`)";
    str "  - Type: " ++ field_type field;
    str "  - Required: " ++
      (if PyVal.truthy (default (PBool false) (required field))
       then str "Yes" else str "No");
    str "  - Description: " ++
      fmt (default (PStr (str "Extract this field value")) (extraction_prompt field));
    str "  - Validation: " ++
      Json.dumps (default (PDict []) (validation_rules field));
    []
  ]).

Definition example_entry (field : field_definition) : pyval :=
  PDict [
    (str "field_id", PStr (field_id field));
    (str "raw_value", PStr (str "<extracted value>"));
    (str "confidence_score", PFloat (FFin false 95 (-2)));
    (str "citations", PList [
       PDict [(str "source", PStr (str "page 1, section 2"));
              (str "text_snippet", PStr (str "<relevant text snippet>"))]])
  ].

(** The characters of the document text a prompt shows. *)
Definition prompt_text_limit : Z := 30000.

(** The prompt before and after the document text. *)
Definition prompt_head (field_definitions : list field_definition) : pystr :=
  let fields_section := lines (field_desc <$> field_definitions) in
  lines [
    str "You are a legal document analysis AI specialized in extracting structured information from legal documents.";
    [];
    str "**TASK**: Extract the following fields from the provided document:";
    [];
    fields_section;
    [];
    str "**DOCUMENT TEXT**:";
    str "```";
    []
  ].

Definition prompt_tail (field_definitions : list field_definition) : pystr :=
  let output_example := PList (example_entry <$> Py.slice_to field_definitions 2) in
  lines [
    str "  ";
    str "```";
    [];
    str "**EXTRACTION INSTRUCTIONS**:";
    str "1. For each field, extract the most relevant value from the document";
    str "2. If a field value is not found, set raw_value to null";
    str "3. Provide a confidence score (0.0 to 1.0) for each extraction";
    str "4. Include citations showing where in the document you found the information";
    str "5. For DATE fields, normalize to YYYY-MM-DD format";
    str "6. For NUMBER fields, extract numeric values only";
    str "7. For BOOLEAN fields, return " ++ quoted (str "true") ++ str " or " ++ quoted (str "false");
    str "8. For LIST fields, return comma-separated values";
    [];
    str "**OUTPUT FORMAT** (JSON array):";
    str "```json";
    Json.dumps_indent 2 output_example;
    str "```";
    [];
    str "**IMPORTANT**:";
    str "- Return ONLY the JSON array, no additional text";
    str "- Include ALL fields from the list, even if value is null";
    str "- Be precise with citations - include page numbers or section references";
    str "- Confidence should reflect certainty of extraction";
    [];
    str "**YOUR JSON OUTPUT**:";
    str "```json";
    []
  ].

Definition _build_extraction_prompt (document_text : pystr)
    (field_definitions : list field_definition) : pystr :=
  prompt_head field_definitions ++
  Py.slice_to document_text prompt_text_limit ++
  prompt_tail field_definitions.

(** *** The calls of the model *)

(** The language model: the response to a prompt, or [None] when the
    call raises. *)
Definition model := pystr → option pystr.

Definition _extract_single (llm : model) (document_text : pystr)
    (field_definitions : list field_definition) : outcome (list field_result) :=
  let prompt := _build_extraction_prompt document_text field_definitions in
  match llm prompt with
  | None => Raised ModelCallFailed
  | Some response => _parse_response response field_definitions
  end.

(** [None] is a chunker that does not return. *)
Definition _extract_chunked (llm : model) (document_text : pystr)
    (field_definitions : list field_definition) (chunk_size : Z)
    : option (outcome (list field_result)) :=
  chunks ← Chunker._create_chunks document_text chunk_size 500;
  Some (all_extractions ←
          for_each (λ chunk, _extract_single llm chunk field_definitions) chunks;
        Ok (_merge_chunk_results all_extractions field_definitions)).

Definition default_chunk_size : Z := 50000.

(** Whatever is raised leaves [extract] as an [ExtractionError]. *)
Definition extract (llm : model) (document_text : pystr)
    (field_definitions : list field_definition) (chunk_size : Z)
    : option (outcome (list field_result)) :=
  if chunk_size <? Z.of_nat (length document_text)
  then _extract_chunked llm document_text field_definitions chunk_size
  else Some (_extract_single llm document_text field_definitions).

End Extractor.

(** ** The entities and the relational store *)

Abbreviation uuid := N.

Module ProjectStatus.
Inductive t := ACTIVE | ARCHIVED.
End ProjectStatus.

Module UploadStatus.
Inductive t := UPLOADED | PARSING | PARSED | FAILED.
#[global] Instance eq_dec : EqDecision t.
Proof. solve_decision. Defined.
End UploadStatus.

Module ExtractionStatus.
Inductive t := PENDING | IN_PROGRESS | COMPLETED | FAILED.
#[global] Instance eq_dec : EqDecision t.
Proof. solve_decision. Defined.
End ExtractionStatus.

Module ReviewStatus.
Inductive t := CONFIRMED | REJECTED | MANUAL_UPDATED | MISSING_DATA | PENDING.
#[global] Instance eq_dec : EqDecision t.
Proof. solve_decision. Defined.

(** [status.value] *)
Definition value (s : t) : pystr :=
  match s with
  | CONFIRMED => str "CONFIRMED"
  | REJECTED => str "REJECTED"
  | MANUAL_UPDATED => str "MANUAL_UPDATED"
  | MISSING_DATA => str "MISSING_DATA"
  | PENDING => str "PENDING"
  end.
End ReviewStatus.

Record Project := {
  project_id : uuid;
  project_field_template_id : option uuid;
  project_status : ProjectStatus.t
}.

Record FieldTemplate := {
  template_id : uuid;
  template_fields : list field_definition
}.

Record Document := {
  document_id : uuid;
  document_project_id : uuid;
  filename : pystr;
  upload_status : UploadStatus.t;
  parsed_text : option pystr;
  document_created_at : Z
}.

(** What an extraction error message reports. *)
Inductive error_message :=
| ExtractionFailed (c : cause)
| ExtractorUnavailable.

Record ExtractedRecord := {
  er_id : uuid;
  er_document_id : uuid;
  er_field_template_id : uuid;
  extraction_status : ExtractionStatus.t;
  extracted_fields : option (list field_result);
  er_error_message : option error_message;
  er_created_at : Z
}.

Record ReviewRecord := {
  rr_id : uuid;
  rr_extracted_record_id : uuid;
  rr_field_id : pystr;
  review_status : ReviewStatus.t;
  manual_value : option pystr;
  reviewer_notes : option pystr;
  reviewed_by : option pystr
}.

(** A job of the queue. *)
Inductive job :=
| ExtractDocument (document : uuid) (template : uuid).

(** The store, the job queue, and what the environment supplies: the next
    fresh identifier, the time, whether the broker of the queue accepts
    jobs, and whether a query of a session flushes the rows added to the
    session before it runs ([autoflush]; the session factory is not among
    the sources at hand). *)
Record world := {
  projects : list Project;
  field_templates : list FieldTemplate;
  documents : list Document;
  extracted_records : list ExtractedRecord;
  review_records : list ReviewRecord;
  queue : list job;
  next_id : uuid;
  now : Z;
  broker_up : bool;
  autoflush : bool
}.

Module Db.

(** The result of [scalar_one_or_none()] on the rows a query selects. *)
Inductive one_or_none (A : Type) :=
| NoRow
| OneRow (a : A)
| MultipleResultsFound.
Arguments NoRow {A}.
Arguments OneRow {A} a.
Arguments MultipleResultsFound {A}.

Definition scalar_one_or_none {A} (rows : list A) : one_or_none A :=
  match rows with
  | [] => NoRow
  | [a] => OneRow a
  | _ :: _ :: _ => MultipleResultsFound
  end.

(** [.first()] *)
Definition first {A} (rows : list A) : option A := head rows.

(** [select(...).where(cond)] *)
Definition where_ {A} (cond : A → bool) (rows : list A) : list A :=
  List.filter cond rows.

Fixpoint insert_by {A} (key : A → Z) (x : A) (sorted : list A) : list A :=
  match sorted with
  | [] => [x]
  | y :: rest => if key x <=? key y then x :: y :: rest else y :: insert_by key x rest
  end.

(** [order_by(key.asc())]; rows with equal keys keep their storage order. *)
Definition order_by_asc {A} (key : A → Z) (rows : list A) : list A :=
  foldr (λ x acc, insert_by key x acc) [] rows.

(** [order_by(key.desc())] *)
Definition order_by_desc {A} (key : A → Z) (rows : list A) : list A :=
  order_by_asc (λ x, - key x) rows.

(** [.limit(n)] *)
Definition limit {A} (n : nat) (rows : list A) : list A := take n rows.

(** A many-to-one relationship attribute, read on a row of an
    [AsyncSession].  The relationships of the models are lazy, which is
    the default: a null foreign key gives [None]; otherwise the related row
    is taken from the rows the session holds, and when it is not among
    them the attribute loads it with a query, which on an [AsyncSession]
    runs outside of a greenlet and raises [MissingGreenlet]. *)
Inductive related (A : Type) :=
| Loaded (row : option A)
| MissingGreenlet.
Arguments Loaded {A} row.
Arguments MissingGreenlet {A}.

Definition lazy_related {A} (held : list A) (key : A → uuid) (ref : option uuid)
    : related A :=
  match ref with
  | None => Loaded None
  | Some id =>
      match first (where_ (λ x, (key x =? id)%N) held) with
      | Some x => Loaded (Some x)
      | None => MissingGreenlet
      end
  end.

End Db.

(** Responses of the HTTP endpoints: a body, an [HTTPException] with its
    status code, or an exception no handler catches. *)
Inductive http (A : Type) :=
| Response (body : A)
| HTTPException (status_code : nat)
| Unhandled.
Arguments Response {A} body.
Arguments HTTPException {A} status_code.
Arguments Unhandled {A}.

(** ** The review endpoints: [api/v1/endpoints/review.py] *)

Module Review.
Import Db.

(** The body of a review submission. *)
Record ReviewRecordCreate := {
  rc_extracted_record_id : uuid;
  rc_field_id : pystr;
  rc_review_status : ReviewStatus.t;
  rc_manual_value : option pystr;
  rc_reviewer_notes : option pystr
}.

(** The condition of the query for the review of a submission's field. *)
Definition same_key (review_data : ReviewRecordCreate) (r : ReviewRecord) : bool :=
  (rr_extracted_record_id r =? rc_extracted_record_id review_data)%N
  && Py.str_eqb (rr_field_id r) (rc_field_id review_data).

(** The pair a review is stored under, and the pair a submission names. *)
Definition review_key (r : ReviewRecord) : uuid * pystr :=
  (rr_extracted_record_id r, rr_field_id r).

Definition submission_key (review_data : ReviewRecordCreate) : uuid * pystr :=
  (rc_extracted_record_id review_data, rc_field_id review_data).

(** At most one review per extracted record and field. *)
Definition unique_reviews (rows : list ReviewRecord) : Prop :=
  NoDup (review_key <$> rows).

(** The three assignments to an existing review. *)
Definition updated (review_data : ReviewRecordCreate) (existing : ReviewRecord)
    : ReviewRecord :=
  {| rr_id := rr_id existing;
     rr_extracted_record_id := rr_extracted_record_id existing;
     rr_field_id := rr_field_id existing;
     review_status := rc_review_status review_data;
     manual_value := rc_manual_value review_data;
     reviewer_notes := rc_reviewer_notes review_data;
     reviewed_by := reviewed_by existing |}.

Definition created (id : uuid) (review_data : ReviewRecordCreate) : ReviewRecord :=
  {| rr_id := id;
     rr_extracted_record_id := rc_extracted_record_id review_data;
     rr_field_id := rc_field_id review_data;
     review_status := rc_review_status review_data;
     manual_value := rc_manual_value review_data;
     reviewer_notes := rc_reviewer_notes review_data;
     reviewed_by := None |}.

(** The rows after the row the query found has been assigned to; the
    query found the one row that has the key. *)
Definition update_rows (review_data : ReviewRecordCreate) (rows : list ReviewRecord)
    : list ReviewRecord :=
  (λ r, if same_key review_data r then updated review_data r else r) <$> rows.

Definition with_reviews (w : world) (rows : list ReviewRecord) (next : uuid) : world :=
  {| projects := projects w;
     field_templates := field_templates w;
     documents := documents w;
     extracted_records := extracted_records w;
     review_records := rows;
     queue := queue w;
     next_id := next;
     now := now w;
     broker_up := broker_up w;
     autoflush := autoflush w |}.

(** [if extracted_record.extracted_fields: field_exists = any(...)] *)
Definition field_missing (extracted_record : ExtractedRecord) (fid : pystr) : bool :=
  match extracted_fields extracted_record with
  | Some ((_ :: _) as fields) =>
      negb (existsb (λ f, Py.str_eqb (fr_field_id f) fid) fields)
  | _ => false
  end.

Definition create_review_record (review_data : ReviewRecordCreate) (w : world)
    : http ReviewRecord * world :=
  match scalar_one_or_none
          (where_ (λ e, (er_id e =? rc_extracted_record_id review_data)%N)
                  (extracted_records w)) with
  | MultipleResultsFound => (Unhandled, w)
  | NoRow => (HTTPException 404, w)
  | OneRow extracted_record =>
      if field_missing extracted_record (rc_field_id review_data)
      then (HTTPException 400, w)
      else
        match scalar_one_or_none (where_ (same_key review_data) (review_records w)) with
        | MultipleResultsFound => (Unhandled, w)
        | OneRow existing_review =>
            (Response (updated review_data existing_review),
             with_reviews w (update_rows review_data (review_records w)) (next_id w))
        | NoRow =>
            let review := created (next_id w) review_data in
            (Response review,
             with_reviews w (review_records w ++ [review]) (N.succ (next_id w)))
        end
  end.

(** *** [bulk_create_reviews] *)

(** The session during the loop: the rows its queries see, the rows
    added and not yet flushed, and the counters of the response. *)
Record session := {
  rows : list ReviewRecord;
  pending : list ReviewRecord;
  fresh : uuid;
  created_count : nat;
  updated_count : nat;
  errors : list ReviewRecordCreate
}.

Definition flush (s : session) : session :=
  {| rows := rows s ++ pending s; pending := []; fresh := fresh s;
     created_count := created_count s; updated_count := updated_count s;
     errors := errors s |}.

(** The invariant, for what a session holds. *)
Definition session_unique (s : session) : Prop :=
  unique_reviews (rows s ++ pending s).

(** One turn of the loop. *)
Definition bulk_step (auto : bool) (s : session) (review_data : ReviewRecordCreate)
    : session :=
  let s := if auto then flush s else s in
  match scalar_one_or_none (where_ (same_key review_data) (rows s)) with
  | MultipleResultsFound =>
      {| rows := rows s; pending := pending s; fresh := fresh s;
         created_count := created_count s; updated_count := updated_count s;
         errors := errors s ++ [review_data] |}
  | OneRow _ =>
      {| rows := update_rows review_data (rows s); pending := pending s;
         fresh := fresh s;
         created_count := created_count s; updated_count := S (updated_count s);
         errors := errors s |}
  | NoRow =>
      {| rows := rows s;
         pending := pending s ++ [created (fresh s) review_data];
         fresh := N.succ (fresh s);
         created_count := S (created_count s); updated_count := updated_count s;
         errors := errors s |}
  end.

Record bulk_response := {
  br_created : nat;
  br_updated : nat;
  br_total : nat;
  br_errors : list ReviewRecordCreate
}.

(** The foreign key of [review_records.extracted_record_id]. *)
Definition references_record (w : world) (r : ReviewRecord) : bool :=
  existsb (λ e, (er_id e =? rr_extracted_record_id r)%N) (extracted_records w).

(** The commit flushes the session; a row that references no extracted
    record is refused, which undoes the transaction. *)
Definition bulk_create_reviews (reviews_data : list ReviewRecordCreate) (w : world)
    : http bulk_response * world :=
  let start :=
    {| rows := review_records w; pending := []; fresh := next_id w;
       created_count := 0; updated_count := 0; errors := [] |} in
  let s := flush (foldl (bulk_step (autoflush w)) start reviews_data) in
  if forallb (references_record w) (rows s) then
    (Response {| br_created := created_count s; br_updated := updated_count s;
                 br_total := length reviews_data; br_errors := errors s |},
     with_reviews w (rows s) (fresh s))
  else (Unhandled, w).

(** *** [get_project_review_table] *)

(** A cell of the table, the dictionary built for one field. *)
Record cell := {
  cell_field_name : pystr;
  cell_extracted_value : pyval;
  cell_normalized_value : option pystr;
  cell_confidence_score : Q;
  cell_review_status : pystr;
  cell_manual_value : option pystr;
  cell_final_value : option pystr;
  cell_citations : pyval
}.

Record ReviewTableRow := {
  row_document_id : uuid;
  row_document_name : pystr;
  row_fields : gmap pystr cell
}.

Record ReviewTableResponse := {
  columns : list pystr;
  table_rows : list ReviewTableRow
}.

(** A string is true as a condition when it is present and not empty. *)
Definition str_truthy (v : option pystr) : bool :=
  match v with
  | Some (_ :: _) => true
  | _ => false
  end.

(** [{r.field_id: r for r in rows}]: a later row replaces an earlier one
    of the same field. *)
Definition reviews_by_field (rows : list ReviewRecord) : gmap pystr ReviewRecord :=
  foldl (λ m r, <[rr_field_id r := r]> m) ∅ rows.

Definition extracted_cell (field_def : field_definition)
    (extracted_field : field_result) (review : option ReviewRecord) : cell :=
  {| cell_field_name := field_name field_def;
     cell_extracted_value := fr_raw_value extracted_field;
     cell_normalized_value := fr_normalized_value extracted_field;
     cell_confidence_score := fr_confidence_score extracted_field;
     cell_review_status :=
       match review with
       | Some r => ReviewStatus.value (review_status r)
       | None => ReviewStatus.value ReviewStatus.PENDING
       end;
     cell_manual_value := review ≫= manual_value;
     cell_final_value :=
       match review with
       | Some r =>
           if str_truthy (manual_value r) then manual_value r
           else fr_normalized_value extracted_field
       | None => fr_normalized_value extracted_field
       end;
     cell_citations := fr_citations extracted_field |}.

Definition missing_cell (field_def : field_definition)
    (review : option ReviewRecord) : cell :=
  {| cell_field_name := field_name field_def;
     cell_extracted_value := PNone;
     cell_normalized_value := None;
     cell_confidence_score := 0%Q;
     cell_review_status := ReviewStatus.value ReviewStatus.MISSING_DATA;
     cell_manual_value := review ≫= manual_value;
     cell_final_value := review ≫= manual_value;
     cell_citations := PList [] |}.

Definition not_extracted_cell (field_def : field_definition) : cell :=
  {| cell_field_name := field_name field_def;
     cell_extracted_value := PNone;
     cell_normalized_value := None;
     cell_confidence_score := 0%Q;
     cell_review_status := str "NOT_EXTRACTED";
     cell_manual_value := None;
     cell_final_value := None;
     cell_citations := PList [] |}.

(** The body of the loop over the template's fields for a completed
    extraction: the cell of one field. *)
Definition cell_of (extracted_fields : list field_result)
    (reviews : gmap pystr ReviewRecord) (field_def : field_definition) : cell :=
  let extracted_field :=
    find (λ f, Py.str_eqb (fr_field_id f) (field_id field_def)) extracted_fields in
  let review := reviews !! field_id field_def in
  match extracted_field with
  | Some f => extracted_cell field_def f review
  | None => missing_cell field_def review
  end.

(** The loop.  Iterating over extracted fields that are null raises. *)
Fixpoint completed_cells (fields : list field_definition)
    (extracted : option (list field_result))
    (reviews : gmap pystr ReviewRecord) (field_data : gmap pystr cell)
    : option (gmap pystr cell) :=
  match fields with
  | [] => Some field_data
  | field_def :: rest =>
      extracted_fields ← extracted;
      completed_cells rest extracted reviews
        (<[field_id field_def := cell_of extracted_fields reviews field_def]> field_data)
  end.

Definition not_extracted_cells (fields : list field_definition) : gmap pystr cell :=
  foldl (λ m field_def, <[field_id field_def := not_extracted_cell field_def]> m)
        ∅ fields.

(** The most recently created extraction of a document for a template. *)
Definition latest_extraction (w : world) (document : Document) (template : uuid)
    : one_or_none ExtractedRecord :=
  scalar_one_or_none
    (limit 1
       (order_by_desc er_created_at
          (where_ (λ e, (er_document_id e =? document_id document)%N
                        && (er_field_template_id e =? template)%N)
                  (extracted_records w)))).

(** The cells of one document's row; [None] when building them raises. *)
Definition document_fields (w : world) (template : FieldTemplate)
    (template_ref : uuid) (document : Document) : option (gmap pystr cell) :=
  match latest_extraction w document template_ref with
  | OneRow extraction =>
      if bool_decide (extraction_status extraction = ExtractionStatus.COMPLETED)
      then
        let reviews :=
          reviews_by_field
            (where_ (λ r, (rr_extracted_record_id r =? er_id extraction)%N)
                    (review_records w)) in
        completed_cells (template_fields template) (extracted_fields extraction)
          reviews ∅
      else Some (not_extracted_cells (template_fields template))
  | NoRow => Some (not_extracted_cells (template_fields template))
  | MultipleResultsFound => None
  end.

Definition document_row (w : world) (template : FieldTemplate)
    (template_ref : uuid) (document : Document) : option ReviewTableRow :=
  fields ← document_fields w template template_ref document;
  Some {| row_document_id := document_id document;
          row_document_name := filename document;
          row_fields := fields |}.

(** The templates the session of the request holds when the endpoint
    reads [project.field_template]: its one query so far has selected the
    project, and no option of that query loads the template with it. *)
Definition session_templates : list FieldTemplate := [].

(** The template is read through the relationship [project.field_template],
    not with a query. *)
Definition get_project_review_table (pid : uuid) (w : world)
    : http ReviewTableResponse :=
  match scalar_one_or_none (where_ (λ p, (project_id p =? pid)%N) (projects w)) with
  | MultipleResultsFound => Unhandled
  | NoRow => HTTPException 404
  | OneRow project =>
      match project_field_template_id project with
      | None => HTTPException 400
      | Some template_ref =>
          match lazy_related session_templates template_id
                  (project_field_template_id project) with
          | MissingGreenlet => Unhandled
          | Loaded None => HTTPException 500
          | Loaded (Some template) =>
              let docs :=
                order_by_asc document_created_at
                  (where_ (λ d, (document_project_id d =? pid)%N) (documents w)) in
              match mapM (document_row w template template_ref) docs with
              | None => Unhandled
              | Some table_rows =>
                  Response {| columns := field_name <$> template_fields template;
                              table_rows := table_rows |}
              end
          end
      end
  end.

End Review.

(** ** The extraction trigger: [api/v1/endpoints/extraction.py] *)

Module Extraction.
Import Db.

Record ExtractionRequest := {
  field_template_id : uuid;
  force_reprocess : bool
}.

(** The response of the trigger, without the task identifier the broker
    chooses. *)
Record TaskStatusResponse := {
  task_type : pystr;
  task_status : pystr;
  progress : Q
}.

(** [extract_document_task.delay(...)]: the job joins the queue; [None]
    when the broker refuses it. *)
Definition delay (j : job) (w : world) : option world :=
  if broker_up w then
    Some {| projects := projects w;
            field_templates := field_templates w;
            documents := documents w;
            extracted_records := extracted_records w;
            review_records := review_records w;
            queue := queue w ++ [j];
            next_id := next_id w;
            now := now w;
            broker_up := broker_up w;
            autoflush := autoflush w |}
  else None.

Definition trigger_extraction (doc_id : uuid)
    (extraction_request : ExtractionRequest) (w : world)
    : http TaskStatusResponse * world :=
  match scalar_one_or_none (where_ (λ d, (document_id d =? doc_id)%N) (documents w)) with
  | MultipleResultsFound => (Unhandled, w)
  | NoRow => (HTTPException 404, w)
  | OneRow document =>
      if negb (bool_decide (upload_status document = UploadStatus.PARSED))
      then (HTTPException 400, w)
      else
        let existing :=
          if force_reprocess extraction_request then NoRow
          else scalar_one_or_none
                 (where_ (λ e, (er_document_id e =? doc_id)%N
                               && (er_field_template_id e
                                   =? field_template_id extraction_request)%N)
                         (extracted_records w)) in
        match existing with
        | MultipleResultsFound => (Unhandled, w)
        | OneRow _ => (HTTPException 409, w)
        | NoRow =>
            match delay (ExtractDocument doc_id (field_template_id extraction_request)) w with
            | Some w' =>
                (Response {| task_type := str "extraction";
                             task_status := str "PENDING";
                             progress := 0%Q |}, w')
            | None => (HTTPException 500, w)
            end
        end
  end.

End Extraction.

(** ** The extraction job: [workers/tasks.py] *)

Module Tasks.
Import Db.

(** What the job needs beyond the store: the language model, and whether
    the extractor can be constructed (its libraries are installed and its
    key is configured). *)
Record environment := {
  llm : Extractor.model;
  extractor_available : bool
}.

(** The dictionary a job returns: an error with its message, a failed
    extraction, or a success with the record and the number of fields that
    have a value (the average confidence is left out). *)
Inductive task_result :=
| TaskError (message : pystr)
| TaskFailed (e : error_message)
| TaskSuccess (extracted_record_id : uuid) (fields_extracted : nat).

Definition with_records (w : world) (records : list ExtractedRecord) (next : uuid)
    : world :=
  {| projects := projects w;
     field_templates := field_templates w;
     documents := documents w;
     extracted_records := records;
     review_records := review_records w;
     queue := queue w;
     next_id := next;
     now := now w;
     broker_up := broker_up w;
     autoflush := autoflush w |}.

Definition set_record (id : uuid) (status : ExtractionStatus.t)
    (fields : option (list field_result) → option (list field_result))
    (message : option error_message) (records : list ExtractedRecord)
    : list ExtractedRecord :=
  (λ e, if (er_id e =? id)%N
        then {| er_id := er_id e;
                er_document_id := er_document_id e;
                er_field_template_id := er_field_template_id e;
                extraction_status := status;
                extracted_fields := fields (extracted_fields e);
                er_error_message := message;
                er_created_at := er_created_at e |}
        else e) <$> records.

(** The record of the pair and the store in which it is in progress:
    the existing record, or a new one. *)
Definition get_or_create (w : world) (doc_id template : uuid) : uuid * world :=
  match first (where_ (λ e, (er_document_id e =? doc_id)%N
                            && (er_field_template_id e =? template)%N)
                      (extracted_records w)) with
  | Some extracted_record =>
      (er_id extracted_record,
       with_records w
         (set_record (er_id extracted_record) ExtractionStatus.IN_PROGRESS id None
            (extracted_records w))
         (next_id w))
  | None =>
      (next_id w,
       with_records w
         (extracted_records w ++
          [{| er_id := next_id w;
              er_document_id := doc_id;
              er_field_template_id := template;
              extraction_status := ExtractionStatus.IN_PROGRESS;
              extracted_fields := None;
              er_error_message := None;
              er_created_at := now w |}])
         (N.succ (next_id w)))
  end.

(** [None] is a job that does not return.  The handler of unexpected
    exceptions, which asks for a retry, has no counterpart: what the
    engine raises reaches the job as an [ExtractionError]. *)
Definition extract_document_task (env : environment) (doc_id template_ref : uuid)
    (w : world) : option (task_result * world) :=
  match first (where_ (λ d, (document_id d =? doc_id)%N) (documents w)) with
  | None => Some (TaskError (str "Document not found"), w)
  | Some document =>
      if negb (bool_decide (upload_status document = UploadStatus.PARSED))
      then Some (TaskError (str "Document not yet parsed"), w)
      else
        match parsed_text document with
        | None | Some [] => Some (TaskError (str "No parsed text available"), w)
        | Some text =>
            match first (where_ (λ t, (template_id t =? template_ref)%N)
                                (field_templates w)) with
            | None => Some (TaskError (str "Field template not found"), w)
            | Some template =>
                let '(record, w1) := get_or_create w doc_id template_ref in
                let finish status fields message :=
                  with_records w1
                    (set_record record status fields message (extracted_records w1))
                    (next_id w1) in
                if negb (extractor_available env)
                then Some (TaskFailed ExtractorUnavailable,
                           finish ExtractionStatus.FAILED id (Some ExtractorUnavailable))
                else
                  outcome ← Extractor.extract (llm env) text (template_fields template)
                              Extractor.default_chunk_size;
                  match outcome with
                  | Raised c =>
                      Some (TaskFailed (ExtractionFailed c),
                            finish ExtractionStatus.FAILED id
                                   (Some (ExtractionFailed c)))
                  | Ok fields =>
                      Some (TaskSuccess record
                              (length (List.filter (λ f, PyVal.truthy (fr_raw_value f))
                                                   fields)),
                            finish ExtractionStatus.COMPLETED (λ _, Some fields) None)
                  end
            end
        end
  end.

End Tasks.

(** ** Extraction for a whole project

    [trigger_project_extraction] of [api/v1/endpoints/extraction.py] and
    [re_extract_project_task] of [workers/tasks.py]. *)

Module ProjectExtraction.
Import Db.

(** The response of the project trigger: a [TaskStatusResponse] whose task
    identifier is made of the project's and whose result holds the number
    of queued documents. *)
Record ProjectTaskStatusResponse := {
  task_project : uuid;
  task_type : pystr;
  task_status : pystr;
  progress : Q;
  documents_queued : nat
}.

(** The store with another queue. *)
Definition with_queue (w : world) (jobs : list job) : world :=
  {| projects := projects w;
     field_templates := field_templates w;
     documents := documents w;
     extracted_records := extracted_records w;
     review_records := review_records w;
     queue := jobs;
     next_id := next_id w;
     now := now w;
     broker_up := broker_up w;
     autoflush := autoflush w |}.

(** The records of a document for a template: what the queries of the
    triggers and of the extraction job select. *)
Definition records_for (doc_id template_ref : uuid) (w : world)
    : list ExtractedRecord :=
  where_ (λ e, (er_document_id e =? doc_id)%N
               && (er_field_template_id e =? template_ref)%N)
         (extracted_records w).

(** A job for each of the documents. *)
Definition jobs_for (template_ref : uuid) (documents : list Document) : list job :=
  (λ d, ExtractDocument (document_id d) template_ref) <$> documents.

(** The parsed documents of a project, in storage order. *)
Definition parsed_documents (pid : uuid) (w : world) : list Document :=
  where_ (λ d, (document_project_id d =? pid)%N
               && bool_decide (upload_status d = UploadStatus.PARSED))
         (documents w).

(** The loop of the endpoint over the documents.  A document that has a
    record for the template is skipped unless reprocessing is forced; a
    job the broker refuses is skipped as well.  [None] is the query for
    the record raising, which leaves the jobs queued so far in the
    queue. *)
Fixpoint queue_documents (force_reprocess : bool) (template_ref : uuid)
    (documents : list Document) (queued_count : nat) (w : world)
    : option nat * world :=
  match documents with
  | [] => (Some queued_count, w)
  | document :: rest =>
      let existing :=
        if force_reprocess then NoRow
        else scalar_one_or_none
               (where_ (λ e, (er_document_id e =? document_id document)%N
                             && (er_field_template_id e =? template_ref)%N)
                       (extracted_records w)) in
      match existing with
      | MultipleResultsFound => (None, w)
      | OneRow _ => queue_documents force_reprocess template_ref rest queued_count w
      | NoRow =>
          match Extraction.delay (ExtractDocument (document_id document) template_ref) w with
          | Some w' =>
              queue_documents force_reprocess template_ref rest (S queued_count) w'
          | None => queue_documents force_reprocess template_ref rest queued_count w
          end
      end
  end.

Definition trigger_project_extraction (pid : uuid) (force_reprocess : bool)
    (w : world) : http ProjectTaskStatusResponse * world :=
  match scalar_one_or_none (where_ (λ p, (project_id p =? pid)%N) (projects w)) with
  | MultipleResultsFound => (Unhandled, w)
  | NoRow => (HTTPException 404, w)
  | OneRow project =>
      match project_field_template_id project with
      | None => (HTTPException 400, w)
      | Some template_ref =>
          match parsed_documents pid w with
          | [] => (HTTPException 400, w)
          | documents =>
              match queue_documents force_reprocess template_ref documents 0 w with
              | (Some queued_count, w') =>
                  (Response {| task_project := pid;
                               task_type := str "project_extraction";
                               task_status := str "PENDING";
                               progress := 0%Q;
                               documents_queued := queued_count |}, w')
              | (None, w') => (Unhandled, w')
              end
          end
      end
  end.

(** The dictionary the task returns. *)
Inductive project_task_result :=
| ProjectTaskError (message : pystr)
| ProjectTaskSuccess (project : uuid) (documents_queued : nat).

(** The loop of the task: a job for every document, whether or not the
    document has a record; a job the broker refuses is skipped. *)
Fixpoint queue_all (template_ref : uuid) (documents : list Document)
    (queued_count : nat) (w : world) : nat * world :=
  match documents with
  | [] => (queued_count, w)
  | document :: rest =>
      match Extraction.delay (ExtractDocument (document_id document) template_ref) w with
      | Some w' => queue_all template_ref rest (S queued_count) w'
      | None => queue_all template_ref rest queued_count w
      end
  end.

Definition re_extract_project_task (pid : uuid) (w : world)
    : project_task_result * world :=
  match first (where_ (λ p, (project_id p =? pid)%N) (projects w)) with
  | None => (ProjectTaskError (str "Project not found"), w)
  | Some project =>
      match project_field_template_id project with
      | None => (ProjectTaskError (str "Project has no field template"), w)
      | Some template_ref =>
          let '(queued_count, w') :=
            queue_all template_ref (parsed_documents pid w) 0 w in
          (ProjectTaskSuccess pid queued_count, w')
      end
  end.

(** *** The response model [ExtractedRecordResponse]

    The endpoints that return extraction records declare it as their
    response model, so what they return is validated against it before it
    is sent; a record the model refuses is an error of the server
    ([ResponseValidationError]).  Of its fields, [extracted_fields] holds
    what the engine stored as it was decoded: an [ExtractedField] wants
    the raw value to be a string or null, the confidence score to lie
    between 0 and 1, and the citations to be a list of [Citation]s, each
    an object with a string [source] and a string [text_snippet]. *)

Definition is_str (v : option pyval) : bool :=
  match v with
  | Some (PStr _) => true
  | _ => false
  end.

Definition valid_citation (v : pyval) : bool :=
  match v with
  | PDict members =>
      is_str (PyVal.dict_get members (str "source"))
      && is_str (PyVal.dict_get members (str "text_snippet"))
  | _ => false
  end.

Definition valid_extracted_field (f : field_result) : bool :=
  match fr_raw_value f with
  | PNone | PStr _ => true
  | _ => false
  end
  && Qle_bool 0 (fr_confidence_score f) && Qle_bool (fr_confidence_score f) 1
  && match fr_citations f with
     | PList citations => forallb valid_citation citations
     | _ => false
     end.

Definition valid_record (e : ExtractedRecord) : bool :=
  match extracted_fields e with
  | None => true
  | Some fields => forallb valid_extracted_field fields
  end.

(** [get_document_extractions]: the records of a document, the most
    recently created first. *)
Definition get_document_extractions (doc_id : uuid) (w : world)
    : http (list ExtractedRecord) :=
  match scalar_one_or_none (where_ (λ d, (document_id d =? doc_id)%N) (documents w)) with
  | MultipleResultsFound => Unhandled
  | NoRow => HTTPException 404
  | OneRow _ =>
      let records :=
        order_by_desc er_created_at
          (where_ (λ e, (er_document_id e =? doc_id)%N) (extracted_records w)) in
      if forallb valid_record records then Response records else Unhandled
  end.

(** [get_extraction_record] *)
Definition get_extraction_record (record_id : uuid) (w : world)
    : http ExtractedRecord :=
  match scalar_one_or_none (where_ (λ e, (er_id e =? record_id)%N) (extracted_records w)) with
  | MultipleResultsFound => Unhandled
  | NoRow => HTTPException 404
  | OneRow record => if valid_record record then Response record else Unhandled
  end.

End ProjectExtraction.

(** ** Invariants of the store *)

(** The pair an extraction record is stored for. *)
Definition extraction_key (e : ExtractedRecord) : uuid * uuid :=
  (er_document_id e, er_field_template_id e).

(** The extraction records have distinct identifiers, all handed out
    before the next fresh one, and there is at most one record for a
    document and a template. *)
Definition records_consistent (w : world) : Prop :=
  NoDup (er_id <$> extracted_records w)
  ∧ Forall (λ e, (er_id e < next_id w)%N) (extracted_records w)
  ∧ NoDup (extraction_key <$> extracted_records w).

(** ** Normal forms of normalized values *)

(** An item of a normalized LIST value: not empty, without white space at
    its ends, without a comma or a semicolon. *)
Definition list_item (item : pystr) : Prop :=
  item ≠ []
  ∧ Py.strip item = item
  ∧ Forall (λ c, Re.one_of (str ",;") c = false) item.

(** * The embedding at work *)

Section Examples.
Import Extractor.

Example chunks_of_ten :
  Chunker._create_chunks (str "abcdefghij") 4 1
  = Some [str "abcd"; str "defg"; str "ghij"].
Proof. by vm_compute. Qed.

(** A window that does not advance: the loop of the source never ends. *)
Example chunks_without_progress :
  Chunker._create_chunks (str "abcdef") 2 2 = None.
Proof. by vm_compute. Qed.

Example loads_nested :
  Json.loads (dq "[1, 2.5, 'a', null, true, {'k': [], 'k': 3}]")
  = Some (PList [PInt 1; PFloat (FFin false 25 (-1)); PStr (str "a"); PNone;
                 PBool true; PDict [(str "k", PInt 3)]]).
Proof. by vm_compute. Qed.

Example loads_trailing_comma : Json.loads (str "[1,]") = None.
Proof. by vm_compute. Qed.

Example loads_extra_data : Json.loads (str "[1] and [2]") = None.
Proof. by vm_compute. Qed.

Example locate_prefers_fence :
  locate_json (str "See [1]: ```json [2, 3] ``` or [4]") = Some (str "[2, 3]").
Proof. by vm_compute. Qed.

Example locate_is_greedy :
  locate_json (str "x [a] and [1,2] y") = Some (str "[a] and [1,2]").
Proof. by vm_compute. Qed.

Example normalize_iso_date :
  _normalize_value (PStr (str "Signed on 2024-01-15 at noon")) FieldType.DATE None
  = Some (str "2024-01-15").
Proof. by vm_compute. Qed.

Example normalize_unmatched_date :
  _normalize_value (PStr (str "  next week ")) FieldType.DATE None
  = Some (str "next week").
Proof. by vm_compute. Qed.

Example normalize_number :
  _normalize_value (PStr (str "USD 1,500.50 total")) FieldType.NUMBER None
  = Some (str "1500.50").
Proof. by vm_compute. Qed.

Example normalize_integer_value :
  _normalize_value (PInt 1500) FieldType.NUMBER None = Some (str "1500").
Proof. by vm_compute. Qed.

Example normalize_boolean :
  _normalize_value (PStr (str " YES ")) FieldType.BOOLEAN None = Some (str "true").
Proof. by vm_compute. Qed.

Example normalize_list :
  _normalize_value (PStr (str "a; b ,c,, d ")) FieldType.LIST None
  = Some (str "a, b, c, d").
Proof. by vm_compute. Qed.

Example normalize_null_word :
  _normalize_value (PStr (str "null")) FieldType.TEXT None = None.
Proof. by vm_compute. Qed.

Example parse_discards_and_completes :
  _parse_response
    (dq "Result: [{'field_id': 'party', 'raw_value': ' Acme ', 'confidence_score': 1.5}, {'field_id': 'fee', 'raw_value': '7'}]")
    [plain_field "party" "Party" "TEXT"; plain_field "date" "Date" "DATE"]
  = Ok [ {| fr_field_id := str "party"; fr_raw_value := PStr (str " Acme ");
            fr_normalized_value := Some (str "Acme"); fr_confidence_score := 1%Q;
            fr_citations := PList [] |};
         placeholder (str "date") ].
Proof. by vm_compute. Qed.

Example parse_without_array :
  _parse_response (str "I found nothing.") [plain_field "party" "Party" "TEXT"]
  = Raised NoJsonArray.
Proof. by vm_compute. Qed.

Example parse_number_item :
  _parse_response (str "[1]") [plain_field "party" "Party" "TEXT"] = Raised BadItem.
Proof. by vm_compute. Qed.

Example merge_keeps_first_of_equals :
  let result raw conf :=
    {| fr_field_id := str "party"; fr_raw_value := PStr (str raw);
       fr_normalized_value := Some (str raw); fr_confidence_score := conf;
       fr_citations := PList [] |} in
  _merge_chunk_results
    [[result "Acme" (7 # 10)%Q]; [result "Acme Ltd" (9 # 10)%Q];
     [result "ACME" (9 # 10)%Q]]
    [plain_field "party" "Party" "TEXT"]
  = [result "Acme Ltd" (9 # 10)%Q].
Proof. by vm_compute. Qed.

(** A string that holds [field_id] is refused when there is a definition
    to compare it with, and skipped when there is none. *)
Example parse_string_item :
  _parse_response (dq "['field_id']") [plain_field "party" "Party" "TEXT"]
  = Raised BadItem
  ∧ _parse_response (dq "['field_id']") [] = Ok [].
Proof. by vm_compute. Qed.

(** An escape within the range of a [pystr] is decoded; one beyond it puts
    the text outside of what the decoder covers. *)
Example loads_escape :
  Json.loads (dq "['\u00e9']") = Some (PList [PStr [Py.chr 233]])
  ∧ Json.in_range (dq "['\u00e9']") = true
  ∧ Json.in_range (dq "['\u20ac']") = false.
Proof. by vm_compute. Qed.

Example nesting_of_text :
  Json.nesting (dq "[{'a': [1, {'b': ']]'}]}, []]") = 4%nat.
Proof. by vm_compute. Qed.

(** The session of the review table has loaded the project only. *)
Example relationship_not_loaded :
  Db.lazy_related ([] : list FieldTemplate) template_id (Some 2%N) = Db.MissingGreenlet
  ∧ Db.lazy_related ([] : list FieldTemplate) template_id None = Db.Loaded None.
Proof. done. Qed.

(** The row of a document whose completed extraction holds no fields
    cannot be built for a template with a field. *)
Example row_without_fields :
  let template := {| template_id := 2;
                     template_fields := [plain_field "party" "Party" "TEXT"] |} in
  let document :=
    {| document_id := 5; document_project_id := 1; filename := str "lease.pdf";
       upload_status := UploadStatus.PARSED; parsed_text := Some (str "Acme leases");
       document_created_at := 10 |} in
  let extraction :=
    {| er_id := 9; er_document_id := 5; er_field_template_id := 2;
       extraction_status := ExtractionStatus.COMPLETED;
       extracted_fields := None; er_error_message := None; er_created_at := 20 |} in
  let w :=
    {| projects := []; field_templates := [template]; documents := [document];
       extracted_records := [extraction]; review_records := [];
       queue := []; next_id := 12; now := 30; broker_up := true;
       autoflush := true |} in
  Review.document_row w template 2 document = None.
Proof. by vm_compute. Qed.

End Examples.

(** * Properties *)

(** ** Chunker *)

Section ChunkerFacts.
Context {A : Type}.
Implicit Types (text rest c : list A) (cs : list (list A)) (n ov : nat).

Import Chunker.

Lemma slice_nat text (p q : nat) :
  (p ≤ q)%nat →
  Py.slice text (Z.of_nat p) (Z.of_nat q) = take (q - p) (drop p text).
Proof.
  intros Hpq. unfold Py.slice, Py.slice_index.
  destruct (Z.ltb_spec (Z.of_nat p) 0); [lia|].
  destruct (Z.ltb_spec (Z.of_nat q) 0); [lia|].
  destruct (decide (length text ≤ p)%nat) as [Hlen|Hlen].
  - rewrite (drop_ge text p) by done. rewrite take_nil.
    rewrite drop_ge; [by rewrite take_nil | lia].
  - replace (Z.to_nat (Z.of_nat p `min` Z.of_nat (length text))) with p by lia.
    destruct (decide (q ≤ length text)%nat).
    + f_equal. lia.
    + rewrite !take_ge; [done | rewrite length_drop; lia | rewrite length_drop; lia].
Qed.

Lemma chunks_loop_chunking n ov fuel text (p : nat) :
  (ov < n)%nat → (p ≤ length text)%nat → (length text - p < fuel)%nat →
  ∃ cs, chunks_loop fuel text (Z.of_nat n) (Z.of_nat ov) (Z.of_nat p) = Some cs
        ∧ chunking n ov (drop p text) cs.
Proof.
  intros Hov. revert p. induction fuel as [|fuel IH]; intros p Hp Hfuel; [lia|].
  cbn [chunks_loop].
  destruct (Z.ltb_spec (Z.of_nat p) (Z.of_nat (length text))) as [Hlt|Hge].
  - replace (Z.of_nat p + Z.of_nat n) with (Z.of_nat (p + n)) by lia.
    rewrite slice_nat by lia. replace (p + n - p)%nat with n by lia.
    destruct (Z.leb_spec (Z.of_nat (length text)) (Z.of_nat (p + n))) as [Hend|Hend].
    + eexists; split; [done|].
      rewrite take_ge by (rewrite length_drop; lia).
      apply chunking_last; [|rewrite length_drop; lia].
      intros Hnil. apply (f_equal length) in Hnil.
      rewrite length_drop in Hnil. simpl in Hnil. lia.
    + replace (Z.of_nat (p + n) - Z.of_nat ov) with (Z.of_nat (p + n - ov)) by lia.
      destruct (IH (p + n - ov)%nat) as (cs & -> & Hcs); [lia..|].
      eexists; split; [done|].
      apply chunking_step; [rewrite length_drop; lia|].
      rewrite drop_drop. by replace (p + (n - ov))%nat with (p + n - ov)%nat by lia.
  - eexists; split; [done|]. rewrite drop_ge by lia. constructor.
Qed.

Lemma chunking_head n ov rest cs :
  (ov < n)%nat → chunking n ov rest cs → (ov < length rest)%nat →
  ∃ c cs', cs = c :: cs' ∧ (ov ≤ length c)%nat ∧ take ov c = take ov rest.
Proof.
  intros Hov Hcs Hlen. destruct Hcs as [|rest ? ?|rest cs ? ?].
  - simpl in Hlen. lia.
  - exists rest, []. split_and!; [done|lia|done].
  - exists (take n rest), cs. split_and!; [done|rewrite length_take; lia|].
    rewrite take_take. f_equal. lia.
Qed.

Lemma chunking_length_le n ov rest cs :
  chunking n ov rest cs → Forall (λ c, (length c ≤ n)%nat) cs.
Proof.
  induction 1; [constructor|by repeat constructor|].
  constructor; [rewrite length_take; lia|done].
Qed.

Lemma chunking_full n ov rest cs i c :
  chunking n ov rest cs → cs !! i = Some c → (S i < length cs)%nat →
  length c = n.
Proof.
  intros Hcs. revert i. induction Hcs as [| |rest cs Hlen Hcs IH]; intros i Hi Hlast.
  - done.
  - simpl in Hlast. lia.
  - destruct i as [|i]; simpl in *.
    + simplify_eq. rewrite length_take. lia.
    + apply (IH i); [done|lia].
Qed.

Lemma chunking_window n ov rest cs i c :
  chunking n ov rest cs → cs !! i = Some c →
  c = take n (drop (i * (n - ov)) rest).
Proof.
  intros Hcs. revert i. induction Hcs as [|rest Hne Hlen|rest cs Hlen Hcs IH]; intros i Hi.
  - done.
  - destruct i; [|done]. simpl in *. simplify_eq. by rewrite take_ge.
  - destruct i as [|i]; simpl in *; [by simplify_eq|].
    rewrite (IH i Hi), drop_drop. f_equal.
Qed.

Lemma chunking_overlap n ov rest cs i c c' :
  (ov < n)%nat → chunking n ov rest cs →
  cs !! i = Some c → cs !! S i = Some c' →
  drop (length c - ov) c = take ov c' ∧ length (take ov c') = ov.
Proof.
  intros Hov Hcs. revert i.
  induction Hcs as [|rest Hne Hlen|rest cs Hlen Hcs IH]; intros i Hi Hi'.
  - done.
  - by destruct i.
  - destruct i as [|i]; simpl in *; [|by eapply IH].
    simplify_eq.
    destruct (chunking_head n ov _ _ Hov Hcs) as (c0 & cs' & -> & Hc0 & Htake).
    { rewrite length_drop. lia. }
    simpl in Hi'. simplify_eq. rewrite Htake. split.
    + rewrite length_take, Nat.min_l by lia.
      rewrite take_drop_commute. f_equal. f_equal. lia.
    + rewrite length_take, length_drop. lia.
Qed.

Lemma chunking_reassemble n ov rest cs :
  (ov < n)%nat → chunking n ov rest cs → reassemble ov cs = rest.
Proof.
  intros Hov. induction 1 as [|rest Hne Hlen|rest cs Hlen Hcs IH].
  - done.
  - simpl. by rewrite app_nil_r.
  - destruct (chunking_head n ov _ _ Hov Hcs) as (c0 & cs' & -> & Hc0 & _).
    { rewrite length_drop. lia. }
    simpl in *. rewrite <-(drop_app_le _ _ _ Hc0), IH, drop_drop.
    replace (n - ov + ov)%nat with n by lia. apply take_drop.
Qed.

End ChunkerFacts.

Section ChunkerTermination.
Context {A : Type}.
Implicit Types (text : list A).

Import Chunker.

(** A window that advances reaches the end of the text within the
    iterations the call allows. *)
Lemma chunks_loop_total fuel text chunk_size overlap start :
  overlap < chunk_size → 0 ≤ start →
  Z.of_nat (length text) - start < Z.of_nat fuel →
  is_Some (chunks_loop fuel text chunk_size overlap start).
Proof.
  intros Hadv. revert start. induction fuel as [|fuel IH]; intros start Hstart Hfuel.
  - simpl. destruct (Z.ltb_spec start (Z.of_nat (length text))); [lia|done].
  - cbn [chunks_loop].
    destruct (Z.ltb_spec start (Z.of_nat (length text))); [|done].
    destruct (Z.leb_spec (Z.of_nat (length text)) (start + chunk_size)); [done|].
    destruct (IH (start + chunk_size - overlap)) as [chunks ->]; [lia..|done].
Qed.

(** A window that does not advance and does not reach the end of the text
    never does. *)
Lemma chunks_loop_stuck fuel text chunk_size overlap start :
  chunk_size ≤ overlap → start ≤ 0 →
  0 < Z.of_nat (length text) → chunk_size < Z.of_nat (length text) →
  chunks_loop fuel text chunk_size overlap start = None.
Proof.
  intros Hadv. revert start.
  induction fuel as [|fuel IH]; intros start Hstart Htext Hlen.
  - simpl. by destruct (Z.ltb_spec start (Z.of_nat (length text))); [|lia].
  - cbn [chunks_loop].
    destruct (Z.ltb_spec start (Z.of_nat (length text))); [|lia].
    destruct (Z.leb_spec (Z.of_nat (length text)) (start + chunk_size)); [lia|].
    rewrite IH; [done|lia..].
Qed.

(** The call has no result exactly when the loop of the source does not
    end: the text is not empty, the window does not advance and the first
    window does not reach the end of the text. *)
Lemma create_chunks_none text chunk_size overlap :
  _create_chunks text chunk_size overlap = None ↔
  text ≠ [] ∧ chunk_size ≤ overlap ∧ chunk_size < Z.of_nat (length text).
Proof.
  unfold _create_chunks. split.
  - intros Hnone.
    destruct text as [|a text]; [done|]. split; [done|].
    destruct (Z.le_gt_cases chunk_size overlap) as [Hadv|Hadv].
    + split; [done|].
      destruct (Z.le_gt_cases (Z.of_nat (length (a :: text))) chunk_size)
        as [Hlen|]; [|done].
      exfalso. revert Hnone. cbn [chunks_loop].
      destruct (Z.ltb_spec 0 (Z.of_nat (length (a :: text)))); [|done].
      by destruct (Z.leb_spec (Z.of_nat (length (a :: text))) (0 + chunk_size));
        [|lia].
    + destruct (chunks_loop_total (S (length (a :: text))) (a :: text)
                  chunk_size overlap 0) as [chunks Hsome]; [lia..|congruence].
  - intros (Htext & Hadv & Hlen). apply chunks_loop_stuck; [done|done| |done].
    destruct text; [done|]. rewrite length_cons. lia.
Qed.

End ChunkerTermination.

(** C3.  For [0 <= overlap < chunk_size] the chunker returns: a list of
    chunks, the [i]-th of which is the window of [chunk_size] characters
    that starts at [i * (chunk_size - overlap)]; no chunk is longer than
    [chunk_size]; every chunk but the last has exactly [chunk_size]
    characters; the last [overlap] characters of a chunk are the first
    [overlap] characters of the next one; and the first chunk followed by
    the later chunks without their first [overlap] characters is the text. *)
Theorem create_chunks_spec {A} (text : list A) (chunk_size overlap : Z) :
  0 ≤ overlap < chunk_size →
  ∃ chunks,
    Chunker._create_chunks text chunk_size overlap = Some chunks
    ∧ (∀ i c, chunks !! i = Some c →
         c = Py.slice text (Z.of_nat i * (chunk_size - overlap))
                           (Z.of_nat i * (chunk_size - overlap) + chunk_size))
    ∧ Forall (λ c, Z.of_nat (length c) ≤ chunk_size) chunks
    ∧ (∀ i c, chunks !! i = Some c → (S i < length chunks)%nat →
         Z.of_nat (length c) = chunk_size)
    ∧ (∀ i c c', chunks !! i = Some c → chunks !! S i = Some c' →
         drop (length c - Z.to_nat overlap) c = take (Z.to_nat overlap) c'
         ∧ Z.of_nat (length (take (Z.to_nat overlap) c')) = overlap)
    ∧ Chunker.reassemble (Z.to_nat overlap) chunks = text.
Proof.
  intros Hvalid.
  set (n := Z.to_nat chunk_size). set (ov := Z.to_nat overlap).
  assert (Hov : (ov < n)%nat) by lia.
  destruct (chunks_loop_chunking n ov (S (length text)) text 0 Hov) as (cs & Hrun & Hcs);
    [lia..|].
  rewrite drop_0 in Hcs. exists cs. split_and!.
  - unfold Chunker._create_chunks. rewrite <-Hrun. f_equal; lia.
  - intros i c Hi. rewrite (chunking_window _ _ _ _ _ _ Hcs Hi).
    replace (Z.of_nat i * (chunk_size - overlap)) with (Z.of_nat (i * (n - ov))) by lia.
    replace (Z.of_nat (i * (n - ov)) + chunk_size)
      with (Z.of_nat (i * (n - ov) + n)) by lia.
    rewrite slice_nat by lia. f_equal. lia.
  - eapply Forall_impl; [by eapply chunking_length_le|]. simpl. lia.
  - intros i c Hi Hlast. rewrite (chunking_full _ _ _ _ _ _ Hcs Hi Hlast). lia.
  - intros i c c' Hi Hi'.
    destruct (chunking_overlap _ _ _ _ _ _ _ Hov Hcs Hi Hi') as [-> ->]. split; [done|lia].
  - by eapply chunking_reassemble.
Qed.

Lemma create_chunks_spec_witness :
  ∃ chunks,
    Chunker._create_chunks (str "abcdefghij") 4 1 = Some chunks
    ∧ chunks = [str "abcd"; str "defg"; str "ghij"].
Proof.
  destruct (create_chunks_spec (str "abcdefghij") 4 1) as (chunks & Hrun & _); [lia|].
  exists chunks. split; [exact Hrun|].
  vm_compute in Hrun. by injection Hrun.
Defined.

(** ** Field normalizer *)

Section NormalizerFacts.
Import Extractor.

Lemma normalize_blank raw field_type strategy :
  Py.strip raw = [] → _normalize_value (PStr raw) field_type strategy = None.
Proof.
  intros Hblank. unfold _normalize_value.
  destruct (PyVal.eq_str _ _); [done|].
  cbn [PyVal.py_str]. by rewrite Hblank.
Qed.

End NormalizerFacts.

(** C4.  The normalizer, a total function, returns null for a null raw
    value, for the empty string, and for every raw value that is empty
    once stripped, whatever the type tag is. *)
Theorem normalize_value_null (raw field_type : pystr) (strategy : option pyval) :
  Py.strip raw = [] →
  Extractor._normalize_value PNone field_type strategy = None
  ∧ Extractor._normalize_value (PStr []) field_type strategy = None
  ∧ Extractor._normalize_value (PStr raw) field_type strategy = None.
Proof.
  intros Hblank. split_and!; [done| |].
  - by apply normalize_blank.
  - by apply normalize_blank.
Qed.

Lemma normalize_value_null_witness :
  Py.strip (str "   ") = []
  ∧ Extractor._normalize_value PNone (str "CURRENCY") None = None
  ∧ Extractor._normalize_value (PStr []) (str "CURRENCY") None = None
  ∧ Extractor._normalize_value (PStr (str "   ")) (str "CURRENCY") None = None.
Proof.
  split; [reflexivity|].
  apply (normalize_value_null (str "   ") (str "CURRENCY") None). reflexivity.
Defined.

(** C9, as the specification words it: the value is unchanged because no
    date pattern matches.  It fails: a pattern matches. *)
Lemma date_fallback_counterexample :
  ¬ (Extractor._normalize_value (PStr (str "15 January 2024")) FieldType.DATE None
       = Some (str "15 January 2024")
     ∧ Extractor.first_date_match Extractor.date_patterns (str "15 January 2024")
       = None).
Proof. intros [_ Hnone]. vm_compute in Hnone. discriminate. Qed.

(** C9, amended.  A DATE value ["15 January 2024"] normalizes to itself:
    the ISO and the slash pattern do not match it, the spelled-month
    pattern matches the whole of it, and the match is returned. *)
Theorem normalize_spelled_month_date (strategy : option pyval) :
  let raw := str "15 January 2024" in
  Extractor._normalize_value (PStr raw) FieldType.DATE strategy = Some raw
  ∧ Re.search (Re.ignorecase Extractor.date_iso) raw = None
  ∧ Re.search (Re.ignorecase Extractor.date_slash) raw = None
  ∧ Re.m_group0 <$> Re.search (Re.ignorecase Extractor.date_spelled) raw = Some raw
  ∧ Extractor.first_date_match Extractor.date_patterns raw = Some raw.
Proof. by vm_compute. Qed.

(** ** Response parsing *)

#[local] Arguments Json.loads : simpl never.
#[local] Arguments Extractor.locate_json : simpl never.
#[local] Arguments Extractor.validate_item : simpl never.
#[local] Arguments Extractor._normalize_value : simpl never.
#[local] Arguments PyVal.py_float : simpl never.

Section ParseFacts.
Import Extractor.
Implicit Types (defs : list field_definition) (fields validated : list field_result).

Lemma str_eqb_eq (a b : pystr) : Py.str_eqb a b = true ↔ a = b.
Proof. unfold Py.str_eqb. by rewrite bool_decide_eq_true. Qed.

Lemma eq_str_inv v s : PyVal.eq_str v s = true → v = PStr s.
Proof. destruct v; try done. simpl. by intros ->%str_eqb_eq. Qed.

Lemma has_result_elem validated fid :
  has_result validated fid = true ↔ fid ∈ fr_field_id <$> validated.
Proof.
  unfold has_result. rewrite existsb_exists, list_elem_of_fmap. split.
  - intros (r & Hr%list_elem_of_In & <-%str_eqb_eq). eauto.
  - intros (r & -> & Hr%list_elem_of_In). exists r. split; [done|by apply str_eqb_eq].
Qed.

Lemma find_definition_some defs fid d :
  find_definition defs fid = Some d → d ∈ defs ∧ fid = PStr (field_id d).
Proof.
  unfold find_definition. intros [Hin Heq]%find_some.
  split; [by apply list_elem_of_In | by apply eq_str_inv].
Qed.

Lemma find_definition_none defs fid :
  find_definition defs fid = None → ∀ d, d ∈ defs → fid ≠ PStr (field_id d).
Proof.
  unfold find_definition. intros Hnone d Hd%list_elem_of_In ->.
  pose proof (find_none _ _ Hnone d Hd) as Hf. simpl in Hf.
  by rewrite (proj2 (str_eqb_eq _ _)) in Hf.
Qed.

(** What one turn of the validation loop appends. *)
Lemma validate_item_spec defs item r :
  validate_item defs item = Ok r →
  match r with
  | Some x => item_field_id item = Some (fr_field_id x)
              ∧ fr_field_id x ∈ field_id <$> defs
  | None => ∀ fid, item_field_id item = Some fid → fid ∉ field_id <$> defs
  end.
Proof.
  unfold validate_item, item_field_id, has_field_id.
  destruct item as [| | | |s|items|members]; try done.
  - destruct (Py.contains _ _); [destruct defs; [by intros [= <-]|done]|].
    intros [= <-]. done.
  - destruct (existsb _ _); [destruct defs; [by intros [= <-]|done]|].
    intros [= <-]. done.
  - destruct (PyVal.dict_get members (str "field_id")) as [fid|] eqn:Hfid; simpl.
    + destruct (find_definition defs fid) as [d|] eqn:Hd.
      * apply find_definition_some in Hd as [Hd ->].
        destruct (PyVal.py_float _); [|done]. intros [= <-]. simpl.
        split; [done|]. apply list_elem_of_fmap. eauto.
      * intros [= <-] fid' Hfid'. destruct fid; try done. simplify_eq.
        intros (d & -> & Hin)%list_elem_of_fmap.
        by eapply find_definition_none.
    + by intros [= <-].
Qed.

Lemma validate_items_ids defs items validated :
  validate_items defs items = Ok validated →
  fr_field_id <$> validated = known_ids defs items.
Proof.
  unfold known_ids. revert validated.
  induction items as [|item items IH]; intros validated; simpl.
  - by intros [= <-].
  - destruct (validate_item defs item) as [r|] eqn:Hitem; [|done]. simpl.
    destruct (validate_items defs items) as [rs|]; [|done]. simpl.
    intros [= <-]. apply validate_item_spec in Hitem.
    specialize (IH rs eq_refl). destruct r as [x|].
    + destruct Hitem as [-> Hknown]. simpl.
      rewrite bool_decide_true by done. simpl. by f_equal.
    + destruct (item_field_id item) as [fid|]; simpl; [|done].
      rewrite bool_decide_false by eauto. done.
Qed.

Lemma known_ids_known defs items fid :
  fid ∈ known_ids defs items → fid ∈ field_id <$> defs.
Proof.
  unfold known_ids. rewrite list_elem_of_In, filter_In.
  intros [_ H%bool_decide_eq_true]. done.
Qed.

(** The loop that completes the list keeps it as a prefix, adds only
    placeholders of definitions, and leaves no definition without a
    result. *)
Lemma ensure_all_spec defs validated :
  ∃ added,
    ensure_all defs validated = validated ++ (placeholder <$> added)
    ∧ added ⊆ field_id <$> defs
    ∧ NoDup added
    ∧ (∀ fid, fid ∈ added → fid ∉ fr_field_id <$> validated)
    ∧ (∀ fid, fid ∈ field_id <$> defs →
         fid ∈ fr_field_id <$> validated ∨ fid ∈ added).
Proof.
  revert validated. induction defs as [|d defs IH]; intros validated; simpl.
  - exists []. rewrite app_nil_r. split_and!; [done|done|constructor|..].
    + by intros ? ?%elem_of_nil.
    + by intros ? ?%elem_of_nil.
  - destruct (has_result validated (field_id d)) eqn:Hhas.
    + apply has_result_elem in Hhas.
      destruct (IH validated) as (added & -> & Hsub & Hnd & Hfresh & Hall).
      exists added. split_and!; [done|set_solver|done|done|].
      intros fid [->|Hin]%elem_of_cons; [by left|by apply Hall].
    + assert (field_id d ∉ fr_field_id <$> validated) as Hnot.
      { intros Hin%has_result_elem. congruence. }
      destruct (IH (validated ++ [placeholder (field_id d)]))
        as (added & -> & Hsub & Hnd & Hfresh & Hall).
      exists (field_id d :: added). split_and!.
      * by rewrite <-app_assoc.
      * set_solver.
      * constructor; [|done]. intros Hin. apply (Hfresh _ Hin).
        rewrite fmap_app. set_solver.
      * intros fid [->|Hin]%elem_of_cons; [done|].
        intros Hv. apply (Hfresh _ Hin). rewrite fmap_app. set_solver.
      * intros fid [->|Hin]%elem_of_cons; [right; set_solver|].
        destruct (Hall _ Hin) as [Hv|Ha]; [|right; set_solver].
        rewrite fmap_app in Hv. set_solver.
Qed.

Lemma parse_response_ok response defs fields :
  _parse_response response defs = Ok fields →
  ∃ items validated,
    response_items response = Some items
    ∧ validate_items defs items = Ok validated
    ∧ fields = ensure_all defs validated.
Proof.
  unfold _parse_response, response_items.
  destruct (locate_json response) as [json_text|]; [|done]. simpl.
  destruct (Json.loads json_text) as [[| | | | |items|]|]; try done. simpl.
  destruct (validate_items defs items) as [validated|] eqn:Hv; [|done].
  simpl. intros [= <-]. eauto.
Qed.


End ParseFacts.

(** C1, as the specification words it: one definition, and a response
    that names its field twice; parsing returns two results, not one. *)
Lemma parse_response_cardinality_counterexample :
  let defs := [plain_field "party" "Party" "TEXT"] in
  let response :=
    dq "[{'field_id': 'party', 'raw_value': 'Acme'}, {'field_id': 'party', 'raw_value': 'Acme Ltd'}]" in
  ¬ ∃ fields, Extractor._parse_response response defs = Ok fields
              ∧ length fields = length defs.
Proof.
  intros defs response (fields & Hparse & Hlen).
  vm_compute in Hparse. injection Hparse as <-. discriminate Hlen.
Qed.

(** C1, amended.  When parsing a response succeeds, every result is for a
    field of the definitions (unknown fields are discarded), every
    definition has a result, and a definition none of whose results comes
    from the response has the null result with confidence zero.  When the
    definitions have distinct identifiers and no two items of the response
    name the same known field, there are exactly as many results as
    definitions, one for each. *)
Theorem parse_response_fields (response : pystr) (defs : list field_definition)
    (fields : list field_result) :
  Extractor._parse_response response defs = Ok fields →
  ∃ items,
    Extractor.response_items response = Some items
    ∧ (∀ r, r ∈ fields → fr_field_id r ∈ field_id <$> defs)
    ∧ (∀ d, d ∈ defs → field_id d ∈ fr_field_id <$> fields)
    ∧ (∀ d, d ∈ defs → field_id d ∉ Extractor.known_ids defs items →
         Extractor.placeholder (field_id d) ∈ fields)
    ∧ (NoDup (field_id <$> defs) → NoDup (Extractor.known_ids defs items) →
         length fields = length defs
         ∧ fr_field_id <$> fields ≡ₚ field_id <$> defs).
Proof.
  intros (items & validated & Hitems & Hv & ->)%parse_response_ok.
  apply validate_items_ids in Hv.
  destruct (ensure_all_spec defs validated) as (added & -> & Hsub & Hnd & Hfresh & Hall).
  exists items. split; [done|].
  assert (Hids : fr_field_id <$> validated ++ (Extractor.placeholder <$> added)
                 = Extractor.known_ids defs items ++ added).
  { rewrite fmap_app, Hv. f_equal. rewrite <-list_fmap_compose.
    by rewrite <-(list_fmap_id added) at 2. }
  split_and!.
  - intros r Hr. assert (fr_field_id r ∈ Extractor.known_ids defs items ++ added) as Hin.
    { rewrite <-Hids. apply list_elem_of_fmap. eauto. }
    apply elem_of_app in Hin as [Hin|Hin]; [by eapply known_ids_known|by apply Hsub].
  - intros d Hd. rewrite Hids, elem_of_app, <-Hv.
    apply Hall, list_elem_of_fmap. eauto.
  - intros d Hd Hnot. apply elem_of_app. right.
    apply list_elem_of_fmap. exists (field_id d). split; [done|].
    destruct (Hall (field_id d)) as [Hin|Hin]; [apply list_elem_of_fmap; eauto| |done].
    by rewrite Hv in Hin.
  - intros Hdefs Hknown.
    assert (fr_field_id <$> validated ++ (Extractor.placeholder <$> added)
            ≡ₚ field_id <$> defs) as Hperm.
    { rewrite Hids. apply NoDup_Permutation; [|done|].
      - apply NoDup_app. split_and!; [done| |done].
        intros fid Hin Hin'. apply (Hfresh _ Hin'). by rewrite Hv.
      - intros fid. rewrite elem_of_app. split.
        + intros [Hin|Hin]; [by eapply known_ids_known|by apply Hsub].
        + intros Hin. rewrite <-Hv. by apply Hall. }
    split; [|done].
    apply Permutation_length in Hperm. by rewrite !length_fmap in Hperm.
Qed.

Lemma parse_response_fields_witness :
  let defs := [plain_field "party" "Party" "TEXT"; plain_field "date" "Date" "DATE"] in
  let response :=
    dq "Sure: [{'field_id': 'date', 'raw_value': 'on 2024-01-15'}, {'field_id': 'fee', 'raw_value': '7'}]" in
  ∃ fields items,
    Extractor._parse_response response defs = Ok fields
    ∧ Extractor.response_items response = Some items
    ∧ (∀ r, r ∈ fields → fr_field_id r ∈ field_id <$> defs)
    ∧ (∀ d, d ∈ defs → field_id d ∈ fr_field_id <$> fields)
    ∧ (∀ d, d ∈ defs → field_id d ∉ Extractor.known_ids defs items →
         Extractor.placeholder (field_id d) ∈ fields)
    ∧ (NoDup (field_id <$> defs) → NoDup (Extractor.known_ids defs items) →
         length fields = length defs
         ∧ fr_field_id <$> fields ≡ₚ field_id <$> defs).
Proof.
  intros defs response.
  destruct (Extractor._parse_response response defs) as [fields|c] eqn:Hparse;
    [|by vm_compute in Hparse].
  destruct (parse_response_fields response defs fields Hparse) as (items & H).
  exists fields, items. split; [done|exact H].
Defined.

(** ** Locating and decoding the JSON array *)

Section RegexFacts.
Import Re.
Context {R : Type}.
Implicit Types (k : pystr → option R) (s a b : pystr).




End RegexFacts.

Section LocateFacts.
Import Re Extractor.


Lemma match_here_bare_nil : match_here bare_array [] = None.
Proof. reflexivity. Qed.




Lemma bracket_split s pre mid post :
  s = pre ++ "["%char :: mid ++ "]"%char :: post →
  ∃ pre' mid' post',
    s = pre' ++ "["%char :: mid' ++ "]"%char :: post'
    ∧ ("["%char ∉ pre') ∧ ("]"%char ∉ post').
Proof.
  intros ->.
  destruct (list_elem_of_split_l (pre ++ ["["%char]) "["%char) as (p1 & p2 & Hp & Hp1);
    [set_solver|].
  destruct (list_elem_of_split_r ("]"%char :: post) "]"%char) as (q1 & q2 & Hq & Hq2);
    [set_solver|].
  exists p1, (p2 ++ mid ++ q1), q2. split_and!; [|done..].
  replace (pre ++ "["%char :: mid ++ "]"%char :: post)
    with ((pre ++ ["["%char]) ++ mid ++ ("]"%char :: post))
    by (by rewrite <-app_assoc).
  rewrite Hp, Hq. by rewrite <-!app_assoc.
Qed.
End LocateFacts.

Section RaiseFacts.
Import Extractor.


Lemma find_definition_is_some defs d :
  d ∈ defs → is_Some (find_definition defs (PStr (field_id d))).
Proof.
  intros Hd. destruct (find_definition defs _) eqn:Hfind; [done|].
  by destruct (find_definition_none _ _ Hfind d Hd).
Qed.



End RaiseFacts.




(** ** Chunk merge *)

Section MergeFacts.
Import Extractor.
Context {A : Type} (key : A → Q).
Implicit Types (best x r : A) (pre mid items : list A).

Lemma Qlt_bool_spec (a b : Q) : Py.Qlt_bool a b = true ↔ (a < b)%Q.
Proof. unfold Py.Qlt_bool, Qlt. apply Z.ltb_lt. Qed.

(** The candidate [max] keeps exceeds every item before it and is not
    exceeded by any item after it. *)
Lemma max_by_from_spec pre best mid items :
  (∀ c, c ∈ pre → (key c < key best)%Q) →
  (∀ c, c ∈ mid → (key c <= key best)%Q) →
  ∃ before after,
    pre ++ best :: mid ++ items
      = before ++ Py.max_by_from key best items :: after
    ∧ (∀ c, c ∈ before → (key c < key (Py.max_by_from key best items))%Q)
    ∧ (∀ c, c ∈ after → (key c <= key (Py.max_by_from key best items))%Q).
Proof.
  revert pre best mid. induction items as [|x items IH]; intros pre best mid Hpre Hmid.
  - exists pre, mid. by rewrite app_nil_r.
  - cbn [Py.max_by_from].
    destruct (Py.Qlt_bool (key best) (key x)) eqn:Hlt.
    + apply Qlt_bool_spec in Hlt.
      destruct (IH (pre ++ best :: mid) x []) as (before & after & Heq & Hb & Ha).
      * intros c [Hc|[->|Hc]%elem_of_cons]%elem_of_app.
        -- eapply Qlt_trans; [by apply Hpre|done].
        -- done.
        -- eapply Qle_lt_trans; [by apply Hmid|done].
      * by intros c ?%elem_of_nil.
      * exists before, after. split; [|done].
        rewrite <-Heq. by rewrite <-!app_assoc.
    + assert (key x <= key best)%Q as Hle.
      { apply Qnot_lt_le. intros Hlt'%Qlt_bool_spec. congruence. }
      destruct (IH pre best (mid ++ [x])) as (before & after & Heq & Hb & Ha).
      * done.
      * intros c [Hc|[->|?%elem_of_nil]%elem_of_cons]%elem_of_app; [by apply Hmid|done..].
      * exists before, after. split; [|done].
        rewrite <-Heq. by rewrite <-!app_assoc.
Qed.

Lemma max_by_spec items :
  match Py.max_by key items with
  | None => items = []
  | Some r =>
      ∃ before after,
        items = before ++ r :: after
        ∧ (∀ c, c ∈ before → (key c < key r)%Q)
        ∧ (∀ c, c ∈ after → (key c <= key r)%Q)
  end.
Proof.
  destruct items as [|x items]; [done|]. cbn [Py.max_by].
  destruct (max_by_from_spec [] x [] items) as (before & after & Heq & Hb & Ha);
    [by intros c ?%elem_of_nil..|].
  exists before, after. by rewrite <-Heq.
Qed.

End MergeFacts.

Section MergeFacts2.
Import Extractor.

Lemma field_extractions_elem chunk_results fid c :
  c ∈ field_extractions chunk_results fid ↔
  ∃ chunk, chunk ∈ chunk_results
           ∧ field_data chunk fid = Some c
           ∧ PyVal.truthy (fr_raw_value c) = true.
Proof.
  induction chunk_results as [|chunk rest IH]; cbn [field_extractions].
  - split; [by intros ?%elem_of_nil|]. by intros (? & ?%elem_of_nil & _).
  - destruct (field_data chunk fid) as [data|] eqn:Hdata.
    + destruct (PyVal.truthy (fr_raw_value data)) eqn:Htruthy.
      * rewrite elem_of_cons, IH. split.
        -- intros [->|(ch & Hin & Hc)]; [exists chunk|exists ch]; set_solver.
        -- intros (ch & [->|Hin]%elem_of_cons & Hfd & Ht).
           ++ left. congruence.
           ++ right. eauto.
      * rewrite IH. split.
        -- intros (ch & Hin & Hc). exists ch. set_solver.
        -- intros (ch & [->|Hin]%elem_of_cons & Hfd & Ht); [congruence|eauto].
    + rewrite IH. split.
      * intros (ch & Hin & Hc). exists ch. set_solver.
      * intros (ch & [->|Hin]%elem_of_cons & Hfd & Ht); [congruence|eauto].
Qed.

End MergeFacts2.

(** C2, as the specification words it: the result for a field is the
    candidate of highest confidence among those whose raw value is not
    null.  A chunk gave the empty string for the field, with confidence
    0.9, as the parser returns it for such an item; the raw value is not
    null, and the merge returns the placeholder. *)
Lemma merge_nonnull_counterexample :
  let d := plain_field "party" "Party" "TEXT" in
  let candidate :=
    {| fr_field_id := str "party"; fr_raw_value := PStr [];
       fr_normalized_value := None; fr_confidence_score := (9 # 10)%Q;
       fr_citations := PList [] |} in
  Extractor._parse_response
    (dq "[{'field_id': 'party', 'raw_value': '', 'confidence_score': 0.9}]") [d]
    = Ok [candidate]
  ∧ fr_raw_value candidate ≠ PNone
  ∧ Extractor._merge_chunk_results [[candidate]] [d] ≠ [candidate].
Proof. split_and!; [by vm_compute|done|by vm_compute]. Qed.

(** C2, amended.  The merge returns one result per definition, in order.
    The candidates of a field are, of every chunk, the first result for the
    field when its raw value is true as a condition (not null and, for a
    string, not empty).  Without candidates the result is the placeholder:
    null raw and normalized value, confidence 0.0, no citations.
    Otherwise it is a candidate that no candidate exceeds in confidence,
    and every candidate of an earlier chunk has a strictly lower
    confidence. *)
Theorem merge_chunk_results_spec (chunk_results : list (list field_result))
    (defs : list field_definition) :
  length (Extractor._merge_chunk_results chunk_results defs) = length defs
  ∧ (∀ s, PyVal.truthy (PStr s) = true ↔ s ≠ [])
  ∧ PyVal.truthy PNone = false
  ∧ ∀ i d, defs !! i = Some d →
      let candidates := Extractor.field_extractions chunk_results (field_id d) in
      (∀ c, c ∈ candidates ↔
            ∃ chunk, chunk ∈ chunk_results
                     ∧ Extractor.field_data chunk (field_id d) = Some c
                     ∧ PyVal.truthy (fr_raw_value c) = true)
      ∧ ∃ r, Extractor._merge_chunk_results chunk_results defs !! i = Some r
             ∧ (candidates = [] →
                  r = {| fr_field_id := field_id d; fr_raw_value := PNone;
                         fr_normalized_value := None;
                         fr_confidence_score := 0%Q;
                         fr_citations := PList [] |})
             ∧ (candidates ≠ [] →
                  ∃ before after,
                    candidates = before ++ r :: after
                    ∧ (∀ c, c ∈ before →
                         (fr_confidence_score c < fr_confidence_score r)%Q)
                    ∧ (∀ c, c ∈ after →
                         (fr_confidence_score c <= fr_confidence_score r)%Q)).
Proof.
  unfold Extractor._merge_chunk_results.
  split; [by rewrite length_fmap|].
  split; [intros s; simpl; by rewrite negb_true_iff, bool_decide_eq_false|].
  split; [done|].
  intros i d Hd.
  set (candidates := Extractor.field_extractions chunk_results (field_id d)). split; [apply field_extractions_elem|].
  exists (Extractor.merge_field chunk_results d).
  split; [by rewrite list_lookup_fmap, Hd|].
  unfold Extractor.merge_field. fold candidates.
  pose proof (max_by_spec fr_confidence_score candidates) as Hmax.
  destruct (Py.max_by fr_confidence_score candidates) as [r|].
  - split; [|done]. intros Hnil. rewrite Hnil in Hmax.
    by destruct Hmax as ([|??] & ? & ? & _).
  - split; [done|]. by intros ?.
Qed.

Lemma merge_chunk_results_spec_witness :
  let d := plain_field "party" "Party" "TEXT" in
  let result raw conf :=
    {| fr_field_id := str "party"; fr_raw_value := raw;
       fr_normalized_value := None; fr_confidence_score := conf;
       fr_citations := PList [] |} in
  let chunk_results :=
    [[result (PStr (str "Acme")) (7 # 10)%Q]; [result PNone 1%Q];
     [result (PStr (str "Acme Ltd")) (9 # 10)%Q; result (PStr (str "X")) 1%Q];
     [result (PStr (str "ACME")) (9 # 10)%Q]] in
  [d] !! 0%nat = Some d
  ∧ ∃ r, Extractor._merge_chunk_results chunk_results [d] !! 0%nat = Some r
         ∧ r = result (PStr (str "Acme Ltd")) (9 # 10)%Q.
Proof.
  intros d result chunk_results. split; [reflexivity|].
  destruct (merge_chunk_results_spec chunk_results [d]) as (_ & _ & _ & Hspec).
  destruct (Hspec 0%nat d eq_refl) as (_ & r & Hr & _).
  exists r. split; [exact Hr|].
  vm_compute in Hr. by injection Hr as <-.
Defined.

(** ** The prompt and the document text *)

Section PromptFacts.
Import Extractor.

Lemma slice_to_take {A} (l : list A) (n : Z) :
  0 ≤ n → Py.slice_to l n = take (Z.to_nat n) l.
Proof.
  intros Hn. unfold Py.slice_to.
  replace n with (Z.of_nat (Z.to_nat n)) at 1 by lia.
  change 0 with (Z.of_nat 0). rewrite slice_nat by lia.
  rewrite drop_0. f_equal. lia.
Qed.

Lemma prompt_of_prefix text defs :
  _build_extraction_prompt text defs
  = prompt_head defs ++ take (Z.to_nat prompt_text_limit) text ++ prompt_tail defs.
Proof. unfold _build_extraction_prompt. by rewrite slice_to_take. Qed.

Lemma prompt_prefix_only text defs :
  _build_extraction_prompt (take (Z.to_nat prompt_text_limit) text) defs
  = _build_extraction_prompt text defs.
Proof. rewrite !prompt_of_prefix. by rewrite take_take, Nat.min_id. Qed.

Lemma extract_single_prefix_only llm text defs :
  _extract_single llm (take (Z.to_nat prompt_text_limit) text) defs
  = _extract_single llm text defs.
Proof. unfold _extract_single. by rewrite prompt_prefix_only. Qed.

Lemma for_each_ext {A B} (f g : A → outcome B) items :
  (∀ x, f x = g x) → for_each f items = for_each g items.
Proof. intros Hfg. induction items as [|x items IH]; simpl; [done|]. by rewrite Hfg, IH. Qed.

End PromptFacts.

(** C10.  A prompt is a head and a tail that depend on the field
    definitions only, around the first 30000 characters of the document
    text; a call of the model for a text is the call for those first
    characters.  With the default chunk size of 50000 a text of up to
    50000 characters goes into one such call, and a longer one is cut into
    chunks, each of which but the last has 50000 characters, 20000 of them
    beyond what its prompt shows; the extraction is the one obtained from
    the first 30000 characters of each chunk. *)
Theorem prompt_shows_text_prefix (llm : Extractor.model) (text : pystr)
    (defs : list field_definition) :
  let shown (t : pystr) := take (Z.to_nat 30000) t in
  Extractor._build_extraction_prompt text defs
    = Extractor.prompt_head defs ++ shown text ++ Extractor.prompt_tail defs
  ∧ Extractor._extract_single llm text defs
    = Extractor._extract_single llm (shown text) defs
  ∧ Extractor.default_chunk_size = 50000
  ∧ (Z.of_nat (length text) ≤ 50000 →
       Extractor.extract llm text defs Extractor.default_chunk_size
       = Some (Extractor._extract_single llm (shown text) defs))
  ∧ (50000 < Z.of_nat (length text) →
       ∃ chunks,
         Chunker._create_chunks text 50000 500 = Some chunks
         ∧ (∀ i c, chunks !! i = Some c → (S i < length chunks)%nat →
              Z.of_nat (length c) = 50000
              ∧ Z.of_nat (length (drop (Z.to_nat 30000) c)) = 20000)
         ∧ Extractor.extract llm text defs Extractor.default_chunk_size
           = Some (all_extractions ←
                     for_each (λ chunk, Extractor._extract_single llm (shown chunk) defs)
                              chunks;
                   Ok (Extractor._merge_chunk_results all_extractions defs))).
Proof.
  intros shown. split_and!.
  - apply prompt_of_prefix.
  - symmetry. apply extract_single_prefix_only.
  - done.
  - intros Hlen. unfold Extractor.extract, Extractor.default_chunk_size.
    destruct (Z.ltb_spec 50000 (Z.of_nat (length text))); [lia|].
    f_equal. symmetry. apply extract_single_prefix_only.
  - intros Hlen.
    destruct (chunks_loop_chunking (Z.to_nat 50000) (Z.to_nat 500)
                (S (length text)) text 0) as (chunks & Hrun & Hchunks); [lia..|].
    exists chunks.
    assert (Chunker._create_chunks text 50000 500 = Some chunks) as Hcreate.
    { unfold Chunker._create_chunks. rewrite <-Hrun. f_equal. }
    split; [done|]. split.
    + intros i c Hi Hlast.
      pose proof (chunking_full _ _ _ _ _ _ Hchunks Hi Hlast) as Hfull.
      rewrite length_drop. lia.
    + unfold Extractor.extract, Extractor.default_chunk_size.
      destruct (Z.ltb_spec 50000 (Z.of_nat (length text))); [|lia].
      unfold Extractor._extract_chunked. rewrite Hcreate. simpl. f_equal.
      erewrite for_each_ext; [done|].
      intros chunk. symmetry. apply extract_single_prefix_only.
Qed.

Lemma prompt_shows_text_prefix_witness :
  let text := replicate (Z.to_nat 30000) "x"%char ++ str "HIDDEN" in
  let llm : Extractor.model :=
    λ prompt, if Py.contains (str "HIDDEN") prompt then None else Some (str "[]") in
  Z.of_nat (length text) ≤ 50000
  ∧ Extractor.extract llm text [] Extractor.default_chunk_size = Some (Ok []).
Proof.
  intros text llm.
  assert (Z.of_nat (length text) ≤ 50000) as Hlen by (by vm_compute).
  split; [exact Hlen|].
  destruct (prompt_shows_text_prefix llm text []) as (_ & _ & _ & Hsingle & _).
  rewrite (Hsingle Hlen). by vm_compute.
Defined.

(** ** Extraction only for parsed documents *)

Section ExtractionFacts.
Import Db.

Lemma where_elem {A} (cond : A → bool) (rows : list A) x :
  x ∈ where_ cond rows ↔ x ∈ rows ∧ cond x = true.
Proof. unfold where_. by rewrite !list_elem_of_In, filter_In. Qed.

Lemma first_elem {A} (rows : list A) x : first rows = Some x → x ∈ rows.
Proof. destruct rows; [done|]. intros [= ->]. by left. Qed.

Lemma scalar_one_elem {A} (rows : list A) x :
  scalar_one_or_none rows = OneRow x → rows = [x].
Proof. destruct rows as [|? [|? ?]]; try done. by intros [= ->]. Qed.

End ExtractionFacts.

(** C8.  For a document that is not PARSED the trigger fails with status
    400 and queues nothing, and the job returns an error and leaves the
    store as it is.  Conversely, a trigger that queues a job and a job that
    changes the store or reports an extraction ran for a document that is
    PARSED. *)
Theorem extraction_requires_parsed (env : Tasks.environment) (w : world)
    (doc_id template_ref : uuid) (request : Extraction.ExtractionRequest)
    (document : Document) :
  Db.where_ (λ d, (document_id d =? doc_id)%N) (documents w) = [document] →
  (upload_status document ≠ UploadStatus.PARSED →
     Extraction.trigger_extraction doc_id request w = (HTTPException 400, w)
     ∧ Tasks.extract_document_task env doc_id template_ref w
       = Some (Tasks.TaskError (str "Document not yet parsed"), w))
  ∧ (∀ body w', Extraction.trigger_extraction doc_id request w = (Response body, w') →
       upload_status document = UploadStatus.PARSED
       ∧ queue w' = queue w
                    ++ [ExtractDocument doc_id (Extraction.field_template_id request)])
  ∧ (∀ result w', Tasks.extract_document_task env doc_id template_ref w
                  = Some (result, w') →
       (w' ≠ w ∨ ∀ message, result ≠ Tasks.TaskError message) →
       upload_status document = UploadStatus.PARSED).
Proof.
  intros Hdoc. split_and!.
  - intros Hstatus. split.
    + unfold Extraction.trigger_extraction. rewrite Hdoc. simpl.
      by rewrite bool_decide_false.
    + unfold Tasks.extract_document_task. rewrite Hdoc. simpl.
      by rewrite bool_decide_false.
  - intros body w'. unfold Extraction.trigger_extraction. rewrite Hdoc. simpl.
    destruct (decide (upload_status document = UploadStatus.PARSED)) as [Hp|Hp].
    + rewrite bool_decide_true by done. simpl.
      destruct (if Extraction.force_reprocess request then _ else _); try done.
      unfold Extraction.delay. destruct (broker_up w); [|done].
      by intros [= _ <-].
    + rewrite bool_decide_false by done. done.
  - intros result w'. unfold Tasks.extract_document_task. rewrite Hdoc. simpl.
    destruct (decide (upload_status document = UploadStatus.PARSED)) as [Hp|Hp]; [done|].
    rewrite bool_decide_false by done. simpl.
    intros [= <- <-] [Hw|Hr]; [done|]. by destruct (Hr (str "Document not yet parsed")).
Qed.

Lemma extraction_requires_parsed_witness :
  let document :=
    {| document_id := 7; document_project_id := 1; filename := str "lease.pdf";
       upload_status := UploadStatus.PARSING; parsed_text := None;
       document_created_at := 0 |} in
  let w :=
    {| projects := []; field_templates := []; documents := [document];
       extracted_records := []; review_records := []; queue := [];
       next_id := 8; now := 0; broker_up := true; autoflush := true |} in
  let request := {| Extraction.field_template_id := 3; Extraction.force_reprocess := true |} in
  let env := {| Tasks.llm := λ _, None; Tasks.extractor_available := true |} in
  Db.where_ (λ d, (document_id d =? 7)%N) (documents w) = [document]
  ∧ upload_status document ≠ UploadStatus.PARSED
  ∧ Extraction.trigger_extraction 7 request w = (HTTPException 400, w)
  ∧ Tasks.extract_document_task env 7 3 w
    = Some (Tasks.TaskError (str "Document not yet parsed"), w).
Proof.
  intros document w request env.
  assert (Db.where_ (λ d, (document_id d =? 7)%N) (documents w) = [document]) as Hdoc
    by reflexivity.
  assert (upload_status document ≠ UploadStatus.PARSED) as Hstatus by done.
  split; [exact Hdoc|]. split; [exact Hstatus|].
  destruct (extraction_requires_parsed env w 7 3 request document Hdoc) as (Hnot & _).
  exact (Hnot Hstatus).
Defined.

(** ** The review table *)

Section ReviewTableFacts.
Import Db Review.

(** The dictionary of reviews gives, for a field, the last row for it. *)
Lemma reviews_fold_lookup (rows : list ReviewRecord) (acc : gmap pystr ReviewRecord) fid :
  foldl (λ m r, <[rr_field_id r := r]> m) acc rows !! fid
  = match last (filter (λ r, rr_field_id r = fid) rows) with
    | Some r => Some r
    | None => acc !! fid
    end.
Proof.
  revert acc. induction rows as [|r rows IH]; intros acc; [done|].
  cbn [foldl]. rewrite IH, filter_cons.
  destruct (decide (rr_field_id r = fid)) as [<-|Hne].
  - rewrite lookup_insert_eq. destruct (filter _ rows) as [|x l]; [done|].
    simpl. destruct (last (x :: l)) eqn:Hl; [done|]. by apply last_None in Hl.
  - by rewrite lookup_insert_ne.
Qed.

Lemma reviews_by_field_lookup rows fid :
  reviews_by_field rows !! fid = last (filter (λ r, rr_field_id r = fid) rows).
Proof.
  unfold reviews_by_field. rewrite reviews_fold_lookup, lookup_empty.
  by destruct (last _).
Qed.

Lemma last_filter_none {A} (P : A → Prop) `{!∀ x, Decision (P x)} (l : list A) :
  last (filter P l) = None ↔ ∀ x, x ∈ l → ¬ P x.
Proof.
  rewrite last_None. split.
  - intros Hnil x Hx HP. assert (x ∈ filter P l) as Hin by (by apply list_elem_of_filter).
    rewrite Hnil in Hin. by apply elem_of_nil in Hin.
  - intros Hall. destruct (filter P l) as [|x l'] eqn:Hf; [done|].
    assert (x ∈ filter P l) as [HP Hx]%list_elem_of_filter by (rewrite Hf; by left).
    by destruct (Hall x Hx).
Qed.

Lemma last_filter_some {A} (P : A → Prop) `{!∀ x, Decision (P x)} (l : list A) x :
  last (filter P l) = Some x → x ∈ l ∧ P x.
Proof.
  intros Hlast. assert (x ∈ filter P l) as [HP Hx]%list_elem_of_filter; [|done].
  apply last_Some in Hlast as (l' & ->). set_solver.
Qed.

Lemma completed_cells_lookup extracted_fields reviews fields acc :
  ∃ cells,
    completed_cells fields (Some extracted_fields) reviews acc = Some cells
    ∧ ∀ fid,
        (cells !! fid = acc !! fid ∧ fid ∉ field_id <$> fields)
        ∨ (∃ d, d ∈ fields ∧ field_id d = fid
                ∧ cells !! fid = Some (cell_of extracted_fields reviews d)).
Proof.
  revert acc. induction fields as [|d fields IH]; intros acc.
  - exists acc. split; [done|]. intros fid. left. split; [done|]. by intros ?%elem_of_nil.
  - cbn [completed_cells mbind option_bind].
    destruct (IH (<[field_id d := cell_of extracted_fields reviews d]> acc))
      as (cells & Hrun & Hcells).
    exists cells. split; [exact Hrun|]. intros fid.
    destruct (Hcells fid) as [[Hsame Hnot]|(d' & Hd' & Hid & Hcell)].
    + destruct (decide (field_id d = fid)) as [Heq|Hne].
      * right. exists d. split_and!; [by left|done|].
        by rewrite Hsame, <-Heq, lookup_insert_eq.
      * left. split; [by rewrite Hsame, lookup_insert_ne|].
        rewrite fmap_cons. set_solver.
    + right. exists d'. split_and!; [by right|done..].
Qed.

Lemma elem_of_insert_by {A} (key : A → Z) x y (sorted : list A) :
  y ∈ insert_by key x sorted ↔ y = x ∨ y ∈ sorted.
Proof.
  induction sorted as [|z sorted IH]; simpl; [set_solver|].
  destruct (key x <=? key z); [set_solver|]. rewrite elem_of_cons, IH. set_solver.
Qed.

Lemma elem_of_order_by_asc {A} (key : A → Z) y (rows : list A) :
  y ∈ order_by_asc key rows ↔ y ∈ rows.
Proof.
  unfold order_by_asc. induction rows as [|x rows IH]; simpl; [done|].
  rewrite elem_of_insert_by, IH. set_solver.
Qed.

End ReviewTableFacts.

Section ReviewTableRows.
Import Db Review.

(** The cell of a field of a completed extraction that has a result for
    the field. *)
Lemma completed_cell w template template_ref document extraction fields
    field_def extracted_field cells :
  document_fields w template template_ref document = Some cells →
  latest_extraction w document template_ref = OneRow extraction →
  extraction_status extraction = ExtractionStatus.COMPLETED →
  extracted_fields extraction = Some fields →
  field_def ∈ template_fields template →
  find (λ f, Py.str_eqb (fr_field_id f) (field_id field_def)) fields
    = Some extracted_field →
  ∃ d c,
    d ∈ template_fields template ∧ field_id d = field_id field_def
    ∧ cells !! field_id field_def = Some c
    ∧ c = extracted_cell d extracted_field
            (last (filter (λ r, rr_field_id r = field_id field_def)
                     (where_ (λ r, (rr_extracted_record_id r =? er_id extraction)%N)
                             (review_records w)))).
Proof.
  unfold document_fields. intros Hcells Hlatest Hstatus Hfields Hdef Hfind.
  rewrite Hlatest, bool_decide_true, Hfields in Hcells by done.
  destruct (completed_cells_lookup fields
              (reviews_by_field
                 (where_ (λ r, (rr_extracted_record_id r =? er_id extraction)%N)
                         (review_records w)))
              (template_fields template) ∅) as (cells' & Hrun & Hlookup).
  rewrite Hrun in Hcells. injection Hcells as ->.
  destruct (Hlookup (field_id field_def)) as [[_ Hnot]|(d & Hd & Hid & Hcell)].
  - destruct Hnot. apply list_elem_of_fmap. eauto.
  - exists d, (cell_of fields
                 (reviews_by_field
                    (where_ (λ r, (rr_extracted_record_id r =? er_id extraction)%N)
                            (review_records w))) d).
    split_and!; [done..|].
    unfold cell_of. by rewrite Hid, Hfind, reviews_by_field_lookup.
Qed.

End ReviewTableRows.

(** C6.  The endpoint does not get as far as a table.  It reads the
    template through the relationship [project.field_template], which the
    session of the request has not loaded: for a project that has a
    template the request ends in [MissingGreenlet], whatever the documents,
    the extractions and the reviews of the project are.  The other
    requests are refused, so no request is answered with a table. *)
Theorem review_table_missing_greenlet (w : world) (pid : uuid) :
  (∀ table, Review.get_project_review_table pid w ≠ Response table)
  ∧ (∀ project template_ref,
       Db.where_ (λ p, (project_id p =? pid)%N) (projects w) = [project] →
       project_field_template_id project = Some template_ref →
       Review.get_project_review_table pid w = Unhandled).
Proof.
  unfold Review.get_project_review_table. split.
  - intros table.
    destruct (Db.scalar_one_or_none _) as [|project|]; [done| |done].
    by destruct (project_field_template_id project).
  - intros project template_ref -> Href. simpl. by rewrite Href.
Qed.

(** A project with a template, a document of the project, a completed
    extraction with a result for the one field of the template, and a
    review with a manual value.  The loop of the endpoint would give the
    cell of the field the manual value as its final value; the request
    fails before the loop. *)
Lemma review_table_missing_greenlet_witness :
  let party := plain_field "party" "Party" "TEXT" in
  let template := {| template_id := 2; template_fields := [party] |} in
  let document :=
    {| document_id := 5; document_project_id := 1; filename := str "lease.pdf";
       upload_status := UploadStatus.PARSED; parsed_text := Some (str "Acme leases");
       document_created_at := 10 |} in
  let result :=
    {| fr_field_id := str "party"; fr_raw_value := PStr (str " Acme");
       fr_normalized_value := Some (str "Acme"); fr_confidence_score := (9 # 10)%Q;
       fr_citations := PList [] |} in
  let extraction :=
    {| er_id := 9; er_document_id := 5; er_field_template_id := 2;
       extraction_status := ExtractionStatus.COMPLETED;
       extracted_fields := Some [result]; er_error_message := None;
       er_created_at := 20 |} in
  let review :=
    {| rr_id := 11; rr_extracted_record_id := 9; rr_field_id := str "party";
       review_status := ReviewStatus.MANUAL_UPDATED;
       manual_value := Some (str "Acme Ltd"); reviewer_notes := None;
       reviewed_by := None |} in
  let project := {| project_id := 1; project_field_template_id := Some 2%N;
                    project_status := ProjectStatus.ACTIVE |} in
  let w :=
    {| projects := [project];
       field_templates := [template]; documents := [document];
       extracted_records := [extraction]; review_records := [review];
       queue := []; next_id := 12; now := 30; broker_up := true;
       autoflush := true |} in
  Review.get_project_review_table 1 w = Unhandled
  ∧ ∃ cells c,
      Review.document_fields w template 2 document = Some cells
      ∧ cells !! str "party" = Some c
      ∧ Review.cell_final_value c = Some (str "Acme Ltd").
Proof.
  intros party template document result extraction review project w.
  split.
  - by apply (proj2 (review_table_missing_greenlet w 1) project 2%N).
  - destruct (Review.document_fields w template 2 document) as [cells|] eqn:Hcells;
      [|by vm_compute in Hcells].
    destruct (completed_cell w template 2%N document extraction [result] party result
                cells Hcells) as (d & c & _ & _ & Hc & ->);
      [by vm_compute|done|done|by left|by vm_compute|].
    exists cells. eexists. split_and!; [done|exact Hc|]. by vm_compute.
Defined.

(** ** Review submission *)

Section ReviewFacts.
Import Db Review.
Implicit Types (rows : list ReviewRecord) (d : ReviewRecordCreate) (r : ReviewRecord).

Lemma same_key_spec d r : same_key d r = true ↔ review_key r = submission_key d.
Proof.
  unfold same_key, review_key, submission_key.
  rewrite andb_true_iff, N.eqb_eq, str_eqb_eq. split; [by intros [-> ->]|].
  by intros [= -> ->].
Qed.

Lemma where_same_key d rows :
  where_ (same_key d) rows = filter (λ r, review_key r = submission_key d) rows.
Proof.
  unfold where_. induction rows as [|r rows IH]; [done|].
  cbn [List.filter]. rewrite filter_cons, IH.
  destruct (same_key d r) eqn:Hk.
  - apply same_key_spec in Hk. by rewrite decide_True.
  - rewrite decide_False; [done|]. intros Hk'%same_key_spec. congruence.
Qed.

Lemma filter_key_nil d rows :
  filter (λ r, review_key r = submission_key d) rows = [] ↔
  submission_key d ∉ review_key <$> rows.
Proof.
  rewrite list_elem_of_fmap. split.
  - intros Hnil (r & Hk & Hr).
    assert (r ∈ filter (λ r, review_key r = submission_key d) rows) as Hin
      by (by apply list_elem_of_filter).
    rewrite Hnil in Hin. by apply elem_of_nil in Hin.
  - intros Hnot. destruct (filter _ rows) as [|r l] eqn:Hf; [done|].
    assert (r ∈ filter (λ r, review_key r = submission_key d) rows)
      as [Hk Hr]%list_elem_of_filter by (rewrite Hf; by left).
    destruct Hnot. eauto.
Qed.

(** Under the invariant a key selects at most one row. *)
Lemma filter_key_unique d rows :
  unique_reviews rows →
  (length (filter (λ r, review_key r = submission_key d) rows) ≤ 1)%nat.
Proof.
  unfold unique_reviews. induction rows as [|r rows IH]; [simpl; lia|].
  rewrite fmap_cons, NoDup_cons, filter_cons. intros [Hnot Hnd].
  destruct (decide (review_key r = submission_key d)) as [Hk|Hk]; [|by apply IH].
  rewrite Hk in Hnot. apply filter_key_nil in Hnot. rewrite Hnot. simpl. lia.
Qed.

Lemma update_rows_keys d rows : review_key <$> update_rows d rows = review_key <$> rows.
Proof.
  unfold update_rows. rewrite <-list_fmap_compose. apply list_fmap_ext.
  intros i r _. simpl. by destruct (same_key d r).
Qed.

Lemma update_rows_filter d rows :
  filter (λ r, review_key r = submission_key d) (update_rows d rows)
  = updated d <$> filter (λ r, review_key r = submission_key d) rows.
Proof.
  unfold update_rows. induction rows as [|r rows IH]; [done|].
  rewrite fmap_cons, !filter_cons, IH.
  destruct (same_key d r) eqn:Hk.
  - apply same_key_spec in Hk. rewrite !decide_True; done.
  - assert (review_key r ≠ submission_key d) as Hne
      by (intros Hk'%same_key_spec; congruence).
    by rewrite !decide_False.
Qed.

(** A submission the endpoint accepts leaves exactly one review under its
    key, with the submitted values, and keeps the invariant. *)
Lemma create_review_record_spec d w r w' :
  unique_reviews (review_records w) →
  create_review_record d w = (Response r, w') →
  unique_reviews (review_records w')
  ∧ filter (λ x, review_key x = submission_key d) (review_records w') = [r]
  ∧ review_status r = rc_review_status d
  ∧ manual_value r = rc_manual_value d
  ∧ reviewer_notes r = rc_reviewer_notes d.
Proof.
  intros Hinv. unfold create_review_record.
  destruct (scalar_one_or_none (where_ _ (extracted_records w))); try done.
  destruct (field_missing _ _); [done|].
  rewrite where_same_key.
  destruct (filter _ (review_records w)) as [|existing [|??]] eqn:Hf; simpl; [| |done].
  - intros [= <- <-]. simpl. split_and!; [|
      by rewrite filter_app, Hf, filter_cons, decide_True, filter_nil|done..].
    unfold unique_reviews. rewrite fmap_app. apply NoDup_app. split_and!; [done| |].
    + intros k Hk [->|?%elem_of_nil]%elem_of_cons; [|done].
      by apply filter_key_nil in Hf.
    + apply NoDup_singleton.
  - intros [= <- <-]. simpl. split_and!; [|by rewrite update_rows_filter, Hf|done..].
    unfold unique_reviews. by rewrite update_rows_keys.
Qed.


(** *** The bulk loop *)

Lemma bulk_step_unique auto s d rest :
  session_unique s →
  (auto = true ∨ (NoDup (submission_key <$> d :: rest)
                  ∧ ∀ r, r ∈ pending s → review_key r ∉ submission_key <$> d :: rest)) →
  session_unique (bulk_step auto s d)
  ∧ (auto = true ∨ (NoDup (submission_key <$> rest)
                    ∧ ∀ r, r ∈ pending (bulk_step auto s d) →
                           review_key r ∉ submission_key <$> rest)).
Proof.
  unfold session_unique, unique_reviews. intros Hinv Hside.
  set (s0 := if auto then flush s else s).
  assert (NoDup (review_key <$> rows s0 ++ pending s0)) as Hinv0.
  { subst s0. destruct auto; [|done]. simpl. by rewrite app_nil_r. }
  assert (auto = true ∨ (NoDup (submission_key <$> rest)
                         ∧ (∀ r, r ∈ pending s0 → review_key r ∉ submission_key <$> rest)
                         ∧ (∀ r, r ∈ pending s0 → review_key r ≠ submission_key d)
                         ∧ submission_key d ∉ submission_key <$> rest)) as Hside0.
  { destruct Hside as [->|[Hnd Hp]]; [by left|right].
    assert (auto = false ∨ auto = true) as [->| ->] by (destruct auto; eauto).
    - subst s0. rewrite fmap_cons, NoDup_cons in Hnd. destruct Hnd as [Hd Hnd].
      split_and!; [done| |  |done].
      + intros r Hr Hin. apply (Hp r Hr). rewrite fmap_cons. by right.
      + intros r Hr Heq. apply (Hp r Hr). rewrite fmap_cons, Heq. by left.
    - subst s0. simpl. rewrite fmap_cons, NoDup_cons in Hnd. destruct Hnd as [Hd Hnd].
      split_and!; [done| | |done]; by intros r ?%elem_of_nil. }
  assert (pending s0 = [] ∨ auto = false) as Hpending.
  { subst s0. destruct auto; [by left|by right]. }
  unfold bulk_step. fold s0. rewrite where_same_key.
  destruct (filter _ (rows s0)) as [|existing [|??]] eqn:Hf; simpl.
  - split.
    + rewrite app_assoc, fmap_app. apply NoDup_app. split_and!; [done| |apply NoDup_singleton].
      intros k Hk [->|?%elem_of_nil]%elem_of_cons; [|done].
      rewrite fmap_app, elem_of_app in Hk. destruct Hk as [Hk|Hk].
      * by apply filter_key_nil in Hf.
      * apply list_elem_of_fmap in Hk as (r & Hkey & Hr).
        destruct Hside0 as [->|(_ & _ & Hne & _)].
        -- destruct Hpending as [Hnil|?]; [|done]. rewrite Hnil in Hr.
           by apply elem_of_nil in Hr.
        -- by apply (Hne r Hr).
    + destruct Hside0 as [?|(Hnd & Hp & Hne & Hd)]; [by left|right].
      split; [done|]. intros r [Hr|[->|?%elem_of_nil]%elem_of_cons]%elem_of_app.
      * by apply Hp.
      * done.
      * done.
  - split.
    + by rewrite fmap_app, update_rows_keys, <-fmap_app.
    + destruct Hside0 as [?|(Hnd & Hp & _)]; [by left|by right].
  - split; [done|]. destruct Hside0 as [?|(Hnd & Hp & _)]; [by left|by right].
Qed.



End ReviewFacts.

Section BulkLast.
Import Db Review.



End BulkLast.




(** ** The extraction as a whole: [GeminiExtractor.extract] *)

Section ExtractFacts.
Import Extractor.
Implicit Types (defs : list field_definition) (results : list field_result)
  (llm : model) (text : pystr).

Lemma for_each_ok {A B} (f : A → outcome B) items ys :
  for_each f items = Ok ys → Forall2 (λ x y, f x = Ok y) items ys.
Proof.
  revert ys. induction items as [|x items IH]; intros ys; simpl.
  - intros [= <-]. constructor.
  - destruct (f x) as [y|] eqn:Hx; simpl; [|done].
    destruct (for_each f items) as [ys'|] eqn:Hrest; simpl; [|done].
    intros [= <-]. constructor; [done|]. by apply IH.
Qed.

(** The loop raises what the first call that raises does. *)
Lemma for_each_raised {A B} (f : A → outcome B) items c :
  for_each f items = Raised c ↔
  ∃ i x, items !! i = Some x ∧ f x = Raised c
         ∧ ∀ j x', (j < i)%nat → items !! j = Some x' → is_ok (f x') = true.
Proof.
  induction items as [|x items IH]; simpl.
  - split; [done|]. by intros (i & x & Hi & _).
  - destruct (f x) as [y|c'] eqn:Hx; simpl.
    + destruct (for_each f items) as [ys|c'] eqn:Hrest; simpl.
      * split; [done|]. intros (i & x' & Hi & Hx' & Hbefore).
        destruct i as [|i]; simpl in Hi; [simplify_eq; congruence|].
        assert (Raised (A:=list B) c = Ok ys) as Habs; [|done].
        symmetry. apply IH. exists i, x'. split_and!; [done..|].
        intros j x'' Hj Hj'. apply (Hbefore (S j) x''); [lia|done].
      * split.
        -- intros [= ->]. destruct (proj1 IH eq_refl) as (i & x' & Hi & Hx' & Hbefore).
           exists (S i), x'. split_and!; [done..|].
           intros [|j] x'' Hj Hj'; simpl in Hj'; [by simplify_eq; rewrite Hx|].
           apply (Hbefore j); [lia|done].
        -- intros (i & x' & Hi & Hx' & Hbefore).
           destruct i as [|i]; simpl in Hi; [simplify_eq; congruence|].
           f_equal. assert (Raised (A:=list B) c' = Raised c) as Heq; [|by simplify_eq].
           apply IH. exists i, x'. split_and!; [done..|].
           intros j x'' Hj Hj'. apply (Hbefore (S j) x''); [lia|done].
    + split.
      * intros [= ->]. exists 0%nat, x. split_and!; [done..|]. intros; lia.
      * intros (i & x' & Hi & Hx' & Hbefore).
        destruct i as [|i]; simpl in Hi; [simplify_eq; congruence|].
        specialize (Hbefore 0%nat x ltac:(lia) eq_refl). by rewrite Hx in Hbefore.
Qed.

Lemma merge_field_id chunk_results d :
  fr_field_id (merge_field chunk_results d) = field_id d.
Proof.
  unfold merge_field.
  pose proof (max_by_spec fr_confidence_score
                (field_extractions chunk_results (field_id d))) as Hmax.
  destruct (Py.max_by _ _) as [best|]; [|done].
  destruct Hmax as (before & after & Hsplit & _).
  assert (best ∈ field_extractions chunk_results (field_id d)) as Hin
    by (rewrite Hsplit; set_solver).
  apply field_extractions_elem in Hin as (chunk & _ & Hdata & _).
  apply find_some in Hdata as [_ Hid]. by apply str_eqb_eq in Hid.
Qed.

Lemma merge_chunk_results_ids chunk_results defs :
  fr_field_id <$> _merge_chunk_results chunk_results defs = field_id <$> defs.
Proof.
  unfold _merge_chunk_results. rewrite <-list_fmap_compose.
  apply list_fmap_ext. intros i d _. apply merge_field_id.
Qed.

(** Where a result of the merge comes from. *)
Lemma merge_chunk_results_elem chunk_results defs r :
  r ∈ _merge_chunk_results chunk_results defs →
  (∃ d, d ∈ defs ∧ r = placeholder (field_id d))
  ∨ (∃ chunk, chunk ∈ chunk_results ∧ r ∈ chunk).
Proof.
  unfold _merge_chunk_results. intros (d & -> & Hd)%list_elem_of_fmap.
  unfold merge_field.
  pose proof (max_by_spec fr_confidence_score
                (field_extractions chunk_results (field_id d))) as Hmax.
  destruct (Py.max_by _ _) as [best|]; [|left; by exists d].
  destruct Hmax as (before & after & Hsplit & _). right.
  assert (best ∈ field_extractions chunk_results (field_id d)) as Hin
    by (rewrite Hsplit; set_solver).
  apply field_extractions_elem in Hin as (chunk & Hchunk & Hdata & _).
  exists chunk. split; [done|].
  apply find_some in Hdata as [Hin _]. by apply list_elem_of_In.
Qed.

Lemma clamp_confidence_bounds (x : pyfloat) :
  (0 <= PyVal.clamp_confidence x)%Q ∧ (PyVal.clamp_confidence x <= 1)%Q.
Proof.
  destruct x as [neg m e|neg|]; simpl; [|by destruct neg|done].
  destruct (Py.Qlt_bool 0 _) eqn:Hpos; [|done].
  apply Qlt_bool_spec in Hpos.
  destruct (Py.Qlt_bool _ 1) eqn:Hlt; [|done].
  apply Qlt_bool_spec in Hlt. split; by apply Qlt_le_weak.
Qed.

(** What the loop over the decoded items appends. *)
Lemma validate_item_result defs item r :
  validate_item defs item = Ok (Some r) →
  ∃ d score,
    find_definition defs (PStr (fr_field_id r)) = Some d
    ∧ fr_normalized_value r
      = _normalize_value (fr_raw_value r) (field_type d) (normalization d)
    ∧ fr_confidence_score r = PyVal.clamp_confidence score.
Proof.
  unfold validate_item. destruct (has_field_id item) as [[]|]; [|done..].
  destruct item as [| | | | |?|members]; try done; try (by destruct defs).
  destruct (find_definition _ _) as [d|] eqn:Hfind; [|done].
  destruct (PyVal.py_float _) as [score|]; [|done].
  intros [= <-]. exists d, score. simpl. split_and!; [|done..].
  by destruct (find_definition_some _ _ _ Hfind) as [_ <-].
Qed.

Lemma validate_items_elem defs items validated r :
  validate_items defs items = Ok validated → r ∈ validated →
  ∃ item, item ∈ items ∧ validate_item defs item = Ok (Some r).
Proof.
  revert validated. induction items as [|item items IH]; intros validated; simpl.
  - intros [= <-]. by intros ?%elem_of_nil.
  - destruct (validate_item defs item) as [x|] eqn:Hitem; simpl; [|done].
    destruct (validate_items defs items) as [rs|]; simpl; [|done].
    intros [= <-] Hr.
    assert (x = Some r ∨ r ∈ rs) as [->|Hrs].
    { destruct x; [apply elem_of_cons in Hr as [->|]|]; auto. }
    + exists item. split; [left|done].
    + destruct (IH rs eq_refl Hrs) as (item' & ? & ?). exists item'. split; [by right|done].
Qed.

(** A property of every appended result and of every placeholder holds
    of every result of a response. *)
Lemma parse_response_results (P : field_result → Prop) response defs results :
  (∀ item r, validate_item defs item = Ok (Some r) → P r) →
  (∀ d, d ∈ defs → P (placeholder (field_id d))) →
  _parse_response response defs = Ok results → Forall P results.
Proof.
  intros Hitem Hplace (items & validated & _ & Hvalid & ->)%parse_response_ok.
  destruct (ensure_all_spec defs validated) as (added & -> & Hadded & _).
  apply Forall_app. split; apply Forall_forall.
  - intros r Hr. destruct (validate_items_elem _ _ _ _ Hvalid Hr) as (item & _ & ?).
    by eapply Hitem.
  - intros r (fid & -> & Hfid)%list_elem_of_fmap.
    apply Hadded in Hfid. apply list_elem_of_fmap in Hfid as (d & -> & Hd). by apply Hplace.
Qed.

Lemma extract_single_results (P : field_result → Prop) llm text defs results :
  (∀ item r, validate_item defs item = Ok (Some r) → P r) →
  (∀ d, d ∈ defs → P (placeholder (field_id d))) →
  _extract_single llm text defs = Ok results → Forall P results.
Proof.
  intros Hitem Hplace. unfold _extract_single. destruct (llm _); [|done].
  by apply parse_response_results.
Qed.

(** The same of every result of an extraction, on either path. *)
Lemma extract_results (P : field_result → Prop) llm text defs chunk_size results :
  (∀ item r, validate_item defs item = Ok (Some r) → P r) →
  (∀ d, d ∈ defs → P (placeholder (field_id d))) →
  extract llm text defs chunk_size = Some (Ok results) → Forall P results.
Proof.
  intros Hitem Hplace. unfold extract. case_match.
  - unfold _extract_chunked.
    destruct (Chunker._create_chunks _ _ _) as [chunks|]; simpl; [|done].
    destruct (for_each _ chunks) as [all_extractions|] eqn:Hall; simpl; [|done].
    intros [= <-]. apply Forall_forall. intros r Hr.
    apply merge_chunk_results_elem in Hr as [(d & Hd & ->)|(chunk & Hchunk & Hr)];
      [by apply Hplace|].
    apply for_each_ok in Hall.
    apply list_elem_of_lookup in Hchunk as [i Hi].
    destruct (Forall2_lookup_r _ _ _ _ _ Hall Hi) as (piece & _ & Hpiece).
    eapply Forall_forall; [|exact Hr].
    by eapply extract_single_results.
  - intros [= Hsingle]. by eapply extract_single_results.
Qed.

End ExtractFacts.

(** The chunker loops for ever on exactly the calls whose window does not
    advance ([chunk_size <= overlap]) while the first window does not
    reach the end of a text that is not empty: no number of iterations
    ends the loop then, and every other call returns. *)
Theorem create_chunks_diverges {A} (text : list A) (chunk_size overlap : Z) :
  (Chunker._create_chunks text chunk_size overlap = None ↔
     text ≠ [] ∧ chunk_size ≤ overlap ∧ chunk_size < Z.of_nat (length text))
  ∧ (Chunker._create_chunks text chunk_size overlap = None →
     ∀ iterations, Chunker.chunks_loop iterations text chunk_size overlap 0 = None).
Proof.
  split; [apply create_chunks_none|].
  intros (Htext & Hadv & Hlen)%create_chunks_none iterations.
  apply chunks_loop_stuck; [done|done| |done].
  destruct text; [done|]. rewrite length_cons. lia.
Qed.

Section ExtractTermination.
Import Extractor.

Lemma extract_none_iff (llm : model) (text : pystr) (defs : list field_definition)
    (chunk_size : Z) :
  extract llm text defs chunk_size = None ↔
  text ≠ [] ∧ chunk_size ≤ 500 ∧ chunk_size < Z.of_nat (length text).
Proof.
  unfold extract, _extract_chunked.
  destruct (Z.ltb_spec chunk_size (Z.of_nat (length text))) as [Hlong|Hshort].
  - destruct (Chunker._create_chunks text chunk_size 500) as [chunks|] eqn:Hchunks; simpl.
    + split; [done|]. intros (Htext & Hsize & _).
      assert (Chunker._create_chunks text chunk_size 500 = None) as Hnone; [|congruence].
      by apply create_chunks_none.
    + by apply create_chunks_none in Hchunks as (? & ? & ?).
  - split; [done|]. lia.
Qed.

Lemma extract_default_returns (llm : model) (text : pystr)
    (defs : list field_definition) :
  is_Some (extract llm text defs default_chunk_size).
Proof.
  destruct (extract llm text defs default_chunk_size) eqn:Hrun; [done|].
  apply extract_none_iff in Hrun as (_ & Hrun & _). by vm_compute in Hrun.
Qed.

End ExtractTermination.

(** [extract] does not return exactly when the text, which is not empty,
    is longer than the chunk size and the chunk size is at most the
    overlap of 500 characters that the chunked path fixes; with the default
    chunk size of 50000 it always returns. *)
Theorem extract_diverges (llm : Extractor.model) (text : pystr)
    (defs : list field_definition) (chunk_size : Z) :
  (Extractor.extract llm text defs chunk_size = None ↔
     text ≠ [] ∧ chunk_size ≤ 500 ∧ chunk_size < Z.of_nat (length text))
  ∧ is_Some (Extractor.extract llm text defs Extractor.default_chunk_size).
Proof.
  split.
  - apply extract_none_iff.
  - apply extract_default_returns.
Qed.

(** On the chunked path the result has one entry for each field
    definition, in the order of the definitions, whatever the responses of
    the model hold: also when a response names a field more than once. *)
Theorem extract_chunked_fields (llm : Extractor.model) (text : pystr)
    (defs : list field_definition) (chunk_size : Z) (results : list field_result) :
  chunk_size < Z.of_nat (length text) →
  Extractor.extract llm text defs chunk_size = Some (Ok results) →
  fr_field_id <$> results = field_id <$> defs.
Proof.
  intros Hlong. unfold Extractor.extract, Extractor._extract_chunked.
  destruct (Z.ltb_spec chunk_size (Z.of_nat (length text))); [|lia].
  destruct (Chunker._create_chunks _ _ _) as [chunks|]; simpl; [|done].
  destruct (for_each _ chunks) as [all_extractions|]; simpl; [|done].
  intros [= <-]. apply merge_chunk_results_ids.
Qed.

Lemma extract_chunked_fields_witness :
  let defs := [plain_field "party" "Party" "TEXT"; plain_field "date" "Date" "DATE"] in
  let llm : Extractor.model := λ _,
    Some (dq "[{'field_id': 'party', 'raw_value': 'Acme'}, {'field_id': 'party', 'raw_value': 'Acme Ltd'}]") in
  let text := replicate 700 "x"%char in
  ∃ results,
    Extractor.extract llm text defs 600 = Some (Ok results)
    ∧ fr_field_id <$> results = [str "party"; str "date"].
Proof.
  intros defs llm text.
  destruct (Extractor.extract llm text defs 600) as [[results|]|] eqn:Hrun;
    [|by vm_compute in Hrun..].
  exists results. split; [done|].
  apply (extract_chunked_fields llm text defs 600 results); [by vm_compute|exact Hrun].
Defined.

(** On the chunked path there are no partial results: the extraction
    raises as soon as the call for one chunk does, with what the first
    such call raises, and a chunk after it is not looked at. *)
Theorem extract_chunked_raises (llm : Extractor.model) (text : pystr)
    (defs : list field_definition) (chunk_size : Z) (chunks : list pystr) (c : cause) :
  chunk_size < Z.of_nat (length text) →
  Chunker._create_chunks text chunk_size 500 = Some chunks →
  Extractor.extract llm text defs chunk_size = Some (Raised c) ↔
  ∃ i chunk,
    chunks !! i = Some chunk
    ∧ Extractor._extract_single llm chunk defs = Raised c
    ∧ ∀ j earlier, (j < i)%nat → chunks !! j = Some earlier →
        is_ok (Extractor._extract_single llm earlier defs) = true.
Proof.
  intros Hlong Hchunks. unfold Extractor.extract, Extractor._extract_chunked.
  destruct (Z.ltb_spec chunk_size (Z.of_nat (length text))); [|lia].
  rewrite Hchunks. simpl. rewrite <-for_each_raised.
  destruct (for_each _ chunks); simpl; split; intros; by simplify_eq.
Qed.

Lemma extract_chunked_raises_witness :
  let llm : Extractor.model := λ prompt,
    if Py.contains (str "BAD") prompt then None else Some (str "[]") in
  let text := replicate 600 "x"%char ++ str "BAD" ++ replicate 600 "y"%char in
  Extractor.extract llm text [] 600 = Some (Raised ModelCallFailed).
Proof.
  intros llm text.
  destruct (Chunker._create_chunks text 600 500) as [chunks|] eqn:Hchunks;
    [|by vm_compute in Hchunks].
  apply (extract_chunked_raises llm text [] 600 chunks ModelCallFailed);
    [by vm_compute|exact Hchunks|].
  vm_compute in Hchunks. injection Hchunks as <-.
  eexists 1%nat, _. split; [reflexivity|]. split; [by vm_compute|].
  intros [|j] earlier Hj; [|lia]. intros [= <-]. by vm_compute.
Defined.

(** The confidence score of every result of an extraction is between 0
    and 1, whatever number, string or other value the response gave. *)
Theorem extract_confidence_bounds (llm : Extractor.model) (text : pystr)
    (defs : list field_definition) (chunk_size : Z) (results : list field_result)
    (r : field_result) :
  Extractor.extract llm text defs chunk_size = Some (Ok results) →
  r ∈ results →
  (0 <= fr_confidence_score r)%Q ∧ (fr_confidence_score r <= 1)%Q.
Proof.
  intros Hrun Hr.
  eapply (Forall_forall (λ r, (0 <= fr_confidence_score r)%Q
                              ∧ (fr_confidence_score r <= 1)%Q)); [|exact Hr].
  eapply extract_results; [| |exact Hrun].
  - intros item x (d & score & _ & _ & ->)%validate_item_result.
    apply clamp_confidence_bounds.
  - by intros d _.
Qed.

Lemma extract_confidence_bounds_witness :
  let defs := [plain_field "party" "Party" "TEXT"; plain_field "fee" "Fee" "NUMBER"] in
  let llm : Extractor.model := λ _,
    Some (dq "[{'field_id': 'party', 'raw_value': 'Acme', 'confidence_score': 7}, {'field_id': 'fee', 'raw_value': '1,200', 'confidence_score': '-3e2'}]") in
  ∃ party fee,
    Extractor.extract llm (str "Acme pays 1,200.") defs 50000 = Some (Ok [party; fee])
    ∧ ((0 <= fr_confidence_score party)%Q ∧ (fr_confidence_score party <= 1)%Q)
    ∧ ((0 <= fr_confidence_score fee)%Q ∧ (fr_confidence_score fee <= 1)%Q).
Proof.
  intros defs llm.
  destruct (Extractor.extract llm (str "Acme pays 1,200.") defs 50000)
    as [[[|party [|fee [|]]]|]|] eqn:Hrun; try by vm_compute in Hrun.
  exists party, fee. split; [done|].
  split.
  - apply (extract_confidence_bounds llm (str "Acme pays 1,200.") defs 50000
             [party; fee] party Hrun).
    apply elem_of_cons. by left.
  - apply (extract_confidence_bounds llm (str "Acme pays 1,200.") defs 50000
             [party; fee] fee Hrun).
    apply elem_of_cons. right. apply elem_of_cons. by left.
Defined.

(** The normalized value of every result of an extraction is the
    normalizer's value for the result's raw value and the type of the
    first definition that has the result's field identifier; so it is null
    when the raw value is. *)
Theorem extract_normalized_of_raw (llm : Extractor.model) (text : pystr)
    (defs : list field_definition) (chunk_size : Z) (results : list field_result)
    (r : field_result) :
  Extractor.extract llm text defs chunk_size = Some (Ok results) →
  r ∈ results →
  (∃ d, Extractor.find_definition defs (PStr (fr_field_id r)) = Some d
        ∧ fr_normalized_value r
          = Extractor._normalize_value (fr_raw_value r) (field_type d) (normalization d))
  ∧ (fr_raw_value r = PNone → fr_normalized_value r = None).
Proof.
  intros Hrun Hr.
  assert (∃ d, Extractor.find_definition defs (PStr (fr_field_id r)) = Some d
               ∧ fr_normalized_value r
                 = Extractor._normalize_value (fr_raw_value r) (field_type d)
                     (normalization d)) as (d & Hd & Hnorm).
  { eapply (Forall_forall
              (λ r, ∃ d, Extractor.find_definition defs (PStr (fr_field_id r)) = Some d
                         ∧ fr_normalized_value r
                           = Extractor._normalize_value (fr_raw_value r) (field_type d)
                               (normalization d))); [|exact Hr].
    eapply extract_results; [| |exact Hrun].
    - intros item x (d & score & ? & ? & _)%validate_item_result. by exists d.
    - intros d' [d Hd]%find_definition_is_some. by exists d. }
  split; [by exists d|]. intros Hnull. by rewrite Hnorm, Hnull.
Qed.

Lemma extract_normalized_of_raw_witness :
  let defs := [plain_field "party" "Party" "TEXT"; plain_field "fee" "Fee" "NUMBER"] in
  let llm : Extractor.model := λ _,
    Some (dq "[{'field_id': 'fee', 'raw_value': 'USD 1,200.50 net'}]") in
  ∃ fee party,
    Extractor.extract llm (str "Acme pays 1,200.50.") defs 50000 = Some (Ok [fee; party])
    ∧ fr_normalized_value fee = Some (str "1200.50")
    ∧ (fr_raw_value party = PNone → fr_normalized_value party = None).
Proof.
  intros defs llm.
  destruct (Extractor.extract llm (str "Acme pays 1,200.50.") defs 50000)
    as [[[|fee [|party [|]]]|]|] eqn:Hrun; try by vm_compute in Hrun.
  exists fee, party. split; [done|].
  split.
  - assert (fee ∈ [fee; party]) as Hfee by (apply elem_of_cons; by left).
    destruct (extract_normalized_of_raw llm (str "Acme pays 1,200.50.") defs 50000
                [fee; party] fee Hrun Hfee) as [(d & Hd & ->) _].
    vm_compute in Hrun. injection Hrun as <- _. vm_compute in Hd. injection Hd as <-.
    by vm_compute.
  - apply (extract_normalized_of_raw llm (str "Acme pays 1,200.50.") defs 50000
             [fee; party] party Hrun).
    apply elem_of_cons. right. apply elem_of_cons. by left.
Defined.

(** ** The number of chunks *)

Section ChunkCount.
Context {A : Type}.
Import Chunker.

Lemma chunking_count (n ov : nat) (rest : list A) cs :
  (ov < n)%nat → chunking n ov rest cs →
  Z.of_nat (length cs)
  = if Z.of_nat (length rest) =? 0 then 0
    else 1 + (Z.max 0 (Z.of_nat (length rest) - Z.of_nat n)
              + (Z.of_nat n - Z.of_nat ov) - 1) / (Z.of_nat n - Z.of_nat ov).
Proof.
  intros Hov Hcs.
  induction Hcs as [|rest Hne Hfit|rest cs Hlong Hcs IH].
  - done.
  - destruct rest as [|a rest]; [done|]. simpl length in *.
    destruct (Z.eqb_spec (Z.of_nat (S (length rest))) 0); [lia|].
    rewrite Z.max_l by lia. rewrite Z.div_small by lia. lia.
  - rewrite length_cons, Nat2Z.inj_succ, IH, length_drop.
    destruct (Z.eqb_spec (Z.of_nat (length rest - (n - ov))) 0); [lia|].
    destruct (Z.eqb_spec (Z.of_nat (length rest)) 0); [lia|].
    set (d := Z.of_nat n - Z.of_nat ov). set (len := Z.of_nat (length rest)).
    replace (Z.of_nat (length rest - (n - ov))) with (len - d) by lia.
    rewrite (Z.max_r 0 (len - Z.of_nat n)) by lia.
    destruct (Z.le_gt_cases (Z.of_nat n) (len - d)) as [Hmore|Hlast].
    + rewrite Z.max_r by lia.
      replace (len - Z.of_nat n + d - 1) with (len - d - Z.of_nat n + d - 1 + 1 * d) by lia.
      rewrite Z.div_add by lia. lia.
    + rewrite Z.max_l by lia.
      replace (len - Z.of_nat n + d - 1) with (len - Z.of_nat n - 1 + 1 * d) by lia.
      rewrite Z.div_add by lia. rewrite !Z.div_small by lia. lia.
Qed.

End ChunkCount.

(** For [0 <= overlap < chunk_size] the number of chunks, which is the
    number of calls of the model on the chunked path, is 0 for the empty
    text and otherwise one more than the number of steps of
    [chunk_size - overlap] characters it takes to cover what the first
    window leaves: one chunk for a text that fits the window. *)
Theorem create_chunks_count {A} (text : list A) (chunk_size overlap : Z) :
  0 ≤ overlap < chunk_size →
  let len := Z.of_nat (length text) in
  let step := chunk_size - overlap in
  ∃ chunks,
    Chunker._create_chunks text chunk_size overlap = Some chunks
    ∧ Z.of_nat (length chunks)
      = (if len =? 0 then 0
         else 1 + (Z.max 0 (len - chunk_size) + step - 1) / step)
    ∧ (text ≠ [] → len ≤ chunk_size → chunks = [text]).
Proof.
  intros Hvalid len step.
  set (n := Z.to_nat chunk_size). set (ov := Z.to_nat overlap).
  assert (Hov : (ov < n)%nat) by lia.
  destruct (chunks_loop_chunking n ov (S (length text)) text 0 Hov)
    as (cs & Hrun & Hcs); [lia..|].
  rewrite drop_0 in Hcs. exists cs. split_and!.
  - unfold Chunker._create_chunks. rewrite <-Hrun. f_equal; lia.
  - rewrite (chunking_count n ov text cs Hov Hcs). subst len step n ov.
    by rewrite !Z2Nat.id by lia.
  - intros Htext Hfit. inversion Hcs as [|rest Hne Hlen|rest cs' Hlong Hcs']; subst.
    + done.
    + done.
    + subst len n. lia.
Qed.

Lemma create_chunks_count_witness :
  ∃ chunks,
    Chunker._create_chunks (str "abcdefghijk") 4 1 = Some chunks
    ∧ length chunks = 4%nat.
Proof.
  destruct (create_chunks_count (str "abcdefghijk") 4 1)
    as (chunks & Hrun & Hcount & _); [lia|].
  exists chunks. split; [exact Hrun|].
  apply Nat2Z.inj. rewrite Hcount. reflexivity.
Defined.

(** ** Extraction for a whole project *)

Section ProjectExtractionFacts.
Import Db ProjectExtraction.

Lemma delay_with_queue j w :
  Extraction.delay j w
  = if broker_up w then Some (with_queue w (queue w ++ [j])) else None.
Proof. done. Qed.

Lemma with_queue_same w : with_queue w (queue w) = w.
Proof. by destruct w. Qed.

(** The jobs for a list of documents. *)
Lemma queue_documents_spec force template_ref documents queued_count w r w' :
  queue_documents force template_ref documents queued_count w = (r, w') →
  ∃ queued,
    w' = with_queue w (queue w ++ jobs_for template_ref queued)
    ∧ (∀ n, r = Some n →
         n = (queued_count + length queued)%nat
         ∧ queued
           = if broker_up w
             then List.filter
                    (λ d, force || (length (records_for (document_id d) template_ref w) =? 0)%nat)
                    documents
             else []).
Proof.
  revert queued_count w.
  induction documents as [|document rest IH]; intros queued_count w; simpl.
  - intros [= <- <-]. exists []. rewrite app_nil_r, with_queue_same.
    split; [done|]. intros n [= <-]. split; [simpl; lia|by destruct (broker_up w)].
  - fold (records_for (document_id document) template_ref w).
    assert (∀ k wk, broker_up wk = broker_up w →
              extracted_records wk = extracted_records w →
              queue_documents force template_ref rest k wk = (r, w') →
              ∃ queued,
                w' = with_queue wk
                       (queue wk ++ jobs_for template_ref queued)
                ∧ (∀ n, r = Some n →
                     n = (k + length queued)%nat
                     ∧ queued
                       = if broker_up w
                         then List.filter
                                (λ d, force
                                      || (length (records_for (document_id d) template_ref w)
                                          =? 0)%nat) rest
                         else [])) as Hrest.
    { intros k wk Hbroker Hrecords Hrun.
      destruct (IH k wk Hrun) as (queued & -> & Hcount). exists queued.
      split; [done|]. intros n Hn. destruct (Hcount n Hn) as [-> ->].
      split; [done|]. rewrite Hbroker. unfold records_for. by rewrite Hrecords. }
    destruct force; simpl.
    + rewrite delay_with_queue. destruct (broker_up w) eqn:Hbroker.
      * intros Hrun. destruct (Hrest _ (with_queue w (queue w ++ [ExtractDocument (document_id document) template_ref])) Hbroker eq_refl Hrun)
          as (queued & -> & Hcount).
        exists (document :: queued). unfold jobs_for. simpl. rewrite <-app_assoc. split; [done|].
        intros n Hn. destruct (Hcount n Hn) as [-> ->]. split; [lia|done].
      * intros Hrun. destruct (Hrest _ w Hbroker eq_refl Hrun) as (queued & -> & Hcount).
        exists queued. by split.
    + destruct (records_for (document_id document) template_ref w) as [|e [|e' records]];
        simpl.
      * rewrite delay_with_queue. destruct (broker_up w) eqn:Hbroker.
        -- intros Hrun. destruct (Hrest _ (with_queue w (queue w ++ [ExtractDocument (document_id document) template_ref])) Hbroker eq_refl Hrun)
             as (queued & -> & Hcount).
           exists (document :: queued). unfold jobs_for. simpl. rewrite <-app_assoc. split; [done|].
           intros n Hn. destruct (Hcount n Hn) as [-> ->]. split; [lia|done].
        -- intros Hrun. destruct (Hrest _ w Hbroker eq_refl Hrun) as (queued & -> & Hcount).
           exists queued. by split.
      * intros Hrun.
        assert (broker_up w = broker_up w) as Hbroker by done.
        destruct (Hrest _ w Hbroker eq_refl Hrun) as (queued & -> & Hcount).
        exists queued. split; [done|]. intros n Hn. by destruct (Hcount n Hn) as [-> ->].
      * intros [= <- <-]. exists []. rewrite app_nil_r, with_queue_same. by split.
Qed.

Lemma queue_all_spec template_ref documents queued_count w :
  let queued := if broker_up w then documents else [] in
  queue_all template_ref documents queued_count w
  = ((queued_count + length queued)%nat,
     with_queue w (queue w ++ jobs_for template_ref queued)).
Proof.
  revert queued_count w. induction documents as [|document rest IH];
    intros queued_count w; simpl.
  - unfold jobs_for. destruct (broker_up w); simpl;
      by rewrite app_nil_r, with_queue_same, Nat.add_0_r.
  - rewrite delay_with_queue. destruct (broker_up w) eqn:Hbroker.
    + rewrite IH. simpl. rewrite Hbroker. unfold jobs_for, with_queue. simpl.
      rewrite <-app_assoc. simpl. by rewrite Nat.add_succ_r.
    + rewrite IH. by rewrite Hbroker.
Qed.

Lemma filter_forced {A} (f : A → bool) (l : list A) : List.filter (λ x, true || f x) l = l.
Proof. induction l as [|x l IH]; simpl; [done|by f_equal]. Qed.

(** What a project trigger that answers went through. *)
Lemma trigger_project_extraction_inv pid force w body w' :
  trigger_project_extraction pid force w = (Response body, w') →
  ∃ project template_ref,
    where_ (λ p, (project_id p =? pid)%N) (projects w) = [project]
    ∧ project_field_template_id project = Some template_ref
    ∧ parsed_documents pid w ≠ []
    ∧ queue_documents force template_ref (parsed_documents pid w) 0 w
      = (Some (documents_queued body), w').
Proof.
  unfold trigger_project_extraction.
  destruct (scalar_one_or_none _) as [|project|] eqn:Hproject; [done| |done].
  apply scalar_one_elem in Hproject.
  destruct (project_field_template_id project) as [template_ref|] eqn:Htemplate; [|done].
  destruct (parsed_documents pid w) as [|document rest] eqn:Hdocs; [done|].
  destruct (queue_documents _ _ _ _ _) as [[n|] w1] eqn:Hrun; [|done].
  intros [= <- <-]. by exists project, template_ref.
Qed.

(** The loop ends without an exception unless a document it visits has
    more than one record for the template. *)
Lemma queue_documents_some force template_ref documents queued_count w :
  (∃ n w', queue_documents force template_ref documents queued_count w = (Some n, w'))
  ↔ force = true
    ∨ Forall (λ d, (length (records_for (document_id d) template_ref w) ≤ 1)%nat)
        documents.
Proof.
  assert (∀ wk k, extracted_records wk = extracted_records w →
            (∃ n w', queue_documents force template_ref documents k wk = (Some n, w'))
            ↔ force = true
              ∨ Forall (λ d, (length (records_for (document_id d) template_ref w) ≤ 1)%nat)
                  documents) as Hgen; [|by apply Hgen].
  induction documents as [|document rest IH]; intros wk k Hrecords; simpl.
  - split; [intros _; right; constructor|intros _; by eauto].
  - rewrite delay_with_queue. destruct force; simpl.
    + split; [by left|]. intros _.
      destruct (broker_up wk); apply IH; try done; by left.
    + rewrite Hrecords. fold (records_for (document_id document) template_ref w).
      rewrite Forall_cons.
      destruct (records_for (document_id document) template_ref w) as [|e [|e' l]]; simpl.
      * destruct (broker_up wk); rewrite IH by done;
          (split; [intros [?|?]; [done|right; split; [lia|done]]
                  |intros [?|[_ ?]]; [done|by right]]).
      * rewrite IH by done.
        split; [intros [?|?]; [done|right; split; [lia|done]]
               |intros [?|[_ ?]]; [done|by right]].
      * split; [by intros (? & ? & ?)|intros [?|[? _]]; [done|lia]].
Qed.

End ProjectExtractionFacts.

(** The project trigger answers exactly when one project has the
    identifier, the project has a template and a parsed document, and,
    unless reprocessing is forced, no parsed document of the project has
    more than one record for the template; whether the broker takes jobs
    does not matter.  When it answers it has queued, if the broker takes
    jobs, one job for each parsed document of the project that it does not
    skip, in storage order, with the template of the project, and reports
    their number; it skips the documents that have a record for the
    template unless reprocessing is forced.  Nothing else in the store
    changes.  When the broker takes no job the answer reports 0 documents
    and the store is as it was. *)
Theorem trigger_project_extraction_queues (pid : uuid) (force_reprocess : bool)
    (w : world) :
  ((∃ body w',
      ProjectExtraction.trigger_project_extraction pid force_reprocess w
      = (Response body, w'))
   ↔ ∃ project template_ref,
       Db.where_ (λ p, (project_id p =? pid)%N) (projects w) = [project]
       ∧ project_field_template_id project = Some template_ref
       ∧ ProjectExtraction.parsed_documents pid w ≠ []
       ∧ (force_reprocess = true
          ∨ Forall (λ d, (length (ProjectExtraction.records_for (document_id d)
                                    template_ref w) ≤ 1)%nat)
              (ProjectExtraction.parsed_documents pid w)))
  ∧ (∀ body w',
       ProjectExtraction.trigger_project_extraction pid force_reprocess w
       = (Response body, w') →
       ∃ project template_ref,
         Db.where_ (λ p, (project_id p =? pid)%N) (projects w) = [project]
         ∧ project_field_template_id project = Some template_ref
         ∧ let queued :=
             if broker_up w
             then List.filter
                    (λ d, force_reprocess
                          || (length (ProjectExtraction.records_for (document_id d)
                                        template_ref w)
                              =? 0)%nat)
                    (ProjectExtraction.parsed_documents pid w)
             else [] in
           w' = ProjectExtraction.with_queue w
                  (queue w ++ ProjectExtraction.jobs_for template_ref queued)
           ∧ ProjectExtraction.documents_queued body = length queued
           ∧ (broker_up w = false
              → w' = w ∧ ProjectExtraction.documents_queued body = 0%nat)).
Proof.
  split.
  - split.
    + intros (body & w' & (project & template_ref & Hproject & Htemplate & Hdocs & Hrun)
                           %trigger_project_extraction_inv).
      exists project, template_ref. split_and!; [done..|].
      apply (queue_documents_some force_reprocess template_ref
               (ProjectExtraction.parsed_documents pid w) 0 w). eauto.
    + intros (project & template_ref & Hproject & Htemplate & Hdocs & Hone).
      apply (queue_documents_some force_reprocess template_ref
               (ProjectExtraction.parsed_documents pid w) 0 w) in Hone
        as (n & w' & Hrun).
      unfold ProjectExtraction.trigger_project_extraction.
      rewrite Hproject. cbn [Db.scalar_one_or_none]. rewrite Htemplate.
      destruct (ProjectExtraction.parsed_documents pid w) as [|document rest] eqn:Hparsed;
        [done|].
      cbv beta iota. rewrite Hrun. by eauto.
  - intros body w' (project & template_ref & Hproject & Htemplate & Hdocs & Hrun)
      %trigger_project_extraction_inv.
    destruct (queue_documents_spec _ _ _ _ _ _ _ Hrun) as (queued & -> & Hcount).
    destruct (Hcount _ eq_refl) as [Hn ->].
    exists project, template_ref. split_and!; [done..|]. simpl.
    split_and!; [done|by rewrite Hn|].
    intros Hbroker. rewrite Hn, Hbroker. split; [|done].
    unfold ProjectExtraction.jobs_for. simpl.
    by rewrite app_nil_r, with_queue_same.
Qed.

(** A project with three parsed documents, one of which has a record:
    with a broker that takes jobs two jobs are queued; with one that takes
    none the endpoint answers all the same, with nothing queued. *)
Lemma trigger_project_extraction_queues_witness :
  let project := {| project_id := 1; project_field_template_id := Some 7%N;
                    project_status := ProjectStatus.ARCHIVED |} in
  let document id status :=
    {| document_id := id; document_project_id := 1; filename := str "a.pdf";
       upload_status := status; parsed_text := Some (str "text");
       document_created_at := 0 |} in
  let record :=
    {| er_id := 20; er_document_id := 11; er_field_template_id := 7;
       extraction_status := ExtractionStatus.FAILED; extracted_fields := None;
       er_error_message := None; er_created_at := 0 |} in
  let w broker :=
    {| projects := [project]; field_templates := [];
       documents := [document 10%N UploadStatus.PARSED;
                     document 11%N UploadStatus.PARSED;
                     document 12%N UploadStatus.UPLOADED;
                     document 13%N UploadStatus.PARSED];
       extracted_records := [record]; review_records := []; queue := [];
       next_id := 30; now := 0; broker_up := broker; autoflush := true |} in
  (∃ body w',
     ProjectExtraction.trigger_project_extraction 1 false (w true) = (Response body, w')
     ∧ queue w' = [ExtractDocument 10 7; ExtractDocument 13 7]
     ∧ ProjectExtraction.documents_queued body = 2%nat)
  ∧ (∃ body,
       ProjectExtraction.trigger_project_extraction 1 false (w false)
       = (Response body, w false)
       ∧ ProjectExtraction.documents_queued body = 0%nat).
Proof.
  intros project document record w.
  assert (∀ broker,
            ∃ body w',
              ProjectExtraction.trigger_project_extraction 1 false (w broker)
              = (Response body, w')) as Hanswers.
  { intros broker.
    apply (proj1 (trigger_project_extraction_queues 1 false (w broker))).
    exists project, 7%N. split_and!; [done|done|done|]. right.
    repeat constructor. }
  split.
  - destruct (Hanswers true) as (body & w' & Hrun). exists body, w'. split; [done|].
    destruct (proj2 (trigger_project_extraction_queues 1 false (w true)) body w' Hrun)
      as (p & template_ref & Hp & Htemplate & -> & -> & _).
    injection Hp as <-. injection Htemplate as <-. by vm_compute.
  - destruct (Hanswers false) as (body & w' & Hrun).
    destruct (proj2 (trigger_project_extraction_queues 1 false (w false)) body w' Hrun)
      as (p & template_ref & _ & _ & _ & _ & Hdown).
    destruct (Hdown eq_refl) as [-> Hzero]. by exists body.
Defined.

(** The task that extracts a project again queues, when the broker takes
    jobs, one job for every parsed document of the project, whether or not
    the document has a record and whatever the status of the project is,
    and reports their number; it does to the store what the project
    trigger does when reprocessing is forced and the trigger answers. *)
Theorem re_extract_project_task_queues (pid : uuid) (w : world) (project : Project)
    (template_ref : uuid) :
  Db.first (Db.where_ (λ p, (project_id p =? pid)%N) (projects w)) = Some project →
  project_field_template_id project = Some template_ref →
  let queued := if broker_up w then ProjectExtraction.parsed_documents pid w else [] in
  ProjectExtraction.re_extract_project_task pid w
  = (ProjectExtraction.ProjectTaskSuccess pid (length queued),
     ProjectExtraction.with_queue w
       (queue w ++ ProjectExtraction.jobs_for template_ref queued))
  ∧ ∀ body w',
      ProjectExtraction.trigger_project_extraction pid true w = (Response body, w') →
      ProjectExtraction.re_extract_project_task pid w
      = (ProjectExtraction.ProjectTaskSuccess pid (ProjectExtraction.documents_queued body), w').
Proof.
  intros Hproject Htemplate queued.
  assert (ProjectExtraction.re_extract_project_task pid w
          = (ProjectExtraction.ProjectTaskSuccess pid (length queued),
             ProjectExtraction.with_queue w
               (queue w ++ ProjectExtraction.jobs_for template_ref queued))) as Htask.
  { unfold ProjectExtraction.re_extract_project_task.
    rewrite Hproject, Htemplate. by rewrite queue_all_spec. }
  split; [done|]. intros body w' Htrigger. rewrite Htask.
  destruct (trigger_project_extraction_inv pid true w body w' Htrigger)
    as (project' & template_ref' & Hproject' & Htemplate' & _ & Hrun).
  rewrite Hproject' in Hproject. injection Hproject as ->.
  rewrite Htemplate' in Htemplate. injection Htemplate as ->.
  destruct (queue_documents_spec _ _ _ _ _ _ _ Hrun) as (queued' & -> & Hcount).
  destruct (Hcount _ eq_refl) as [-> ->].
  subst queued. by rewrite filter_forced.
Qed.

Lemma re_extract_project_task_queues_witness :
  let project := {| project_id := 1; project_field_template_id := Some 7%N;
                    project_status := ProjectStatus.ARCHIVED |} in
  let document id status :=
    {| document_id := id; document_project_id := 1; filename := str "a.pdf";
       upload_status := status; parsed_text := Some (str "text");
       document_created_at := 0 |} in
  let record :=
    {| er_id := 20; er_document_id := 11; er_field_template_id := 7;
       extraction_status := ExtractionStatus.COMPLETED; extracted_fields := Some [];
       er_error_message := None; er_created_at := 0 |} in
  let w :=
    {| projects := [project]; field_templates := [];
       documents := [document 10%N UploadStatus.PARSED;
                     document 11%N UploadStatus.PARSED;
                     document 12%N UploadStatus.UPLOADED;
                     document 13%N UploadStatus.PARSED];
       extracted_records := [record]; review_records := []; queue := [];
       next_id := 30; now := 0; broker_up := true; autoflush := true |} in
  ∃ w',
    ProjectExtraction.re_extract_project_task 1 w
    = (ProjectExtraction.ProjectTaskSuccess 1 3, w')
    ∧ queue w' = [ExtractDocument 10 7; ExtractDocument 11 7; ExtractDocument 13 7].
Proof.
  intros project document record w.
  destruct (re_extract_project_task_queues 1 w project 7%N) as [Htask _];
    [reflexivity..|].
  eexists. split; [exact Htask|]. reflexivity.
Defined.

(** ** The extraction job and the store *)

Section TaskFacts.
Import Db Tasks ProjectExtraction.
Implicit Types (w : world) (e : ExtractedRecord) (records : list ExtractedRecord).

Lemma pair_key doc_id template_ref e :
  (er_document_id e =? doc_id)%N && (er_field_template_id e =? template_ref)%N = true
  ↔ extraction_key e = (doc_id, template_ref).
Proof.
  unfold extraction_key. rewrite andb_true_iff, !N.eqb_eq. split.
  - by intros [-> ->].
  - by intros [= -> ->].
Qed.

(** The rows a condition on a key selects, when no two rows share a key. *)
Lemma where_key_unique {A K} (key : A → K) (cond : A → bool) (k : K) (rows : list A) :
  NoDup (key <$> rows) → (∀ x, cond x = true ↔ key x = k) →
  where_ cond rows = [] ∨ ∃ x, where_ cond rows = [x].
Proof.
  intros Hnodup Hcond. unfold where_.
  induction rows as [|x rows IH]; simpl; [by left|].
  apply NoDup_cons in Hnodup as [Hx Hnodup].
  destruct (cond x) eqn:Hcx; [|by apply IH]. right. exists x. f_equal.
  destruct (IH Hnodup) as [Hnil|[y Hy]]; [done|].
  assert (y ∈ List.filter cond rows) as Hin by (rewrite Hy; left).
  apply list_elem_of_In, filter_In in Hin as [Hin Hcy].
  apply Hcond in Hcx, Hcy. destruct Hx. rewrite Hcx, <-Hcy.
  apply list_elem_of_fmap. exists y. split; [done|by apply list_elem_of_In].
Qed.

Lemma where_fmap_commute {A} (cond : A → bool) (f : A → A) (rows : list A) :
  (∀ x, cond (f x) = cond x) → where_ cond (f <$> rows) = f <$> where_ cond rows.
Proof.
  intros Hf. unfold where_. induction rows as [|x rows IH]; [done|].
  rewrite fmap_cons. cbn [List.filter]. rewrite Hf, IH. by destruct (cond x).
Qed.

Lemma where_app {A} (cond : A → bool) (l k : list A) :
  where_ cond (l ++ k) = where_ cond l ++ where_ cond k.
Proof. unfold where_. induction l as [|x l IH]; simpl; [done|]. destruct (cond x); simpl; by rewrite IH. Qed.

Lemma set_record_ids id status fields message records :
  er_id <$> set_record id status fields message records = er_id <$> records.
Proof.
  unfold set_record. rewrite <-list_fmap_compose. apply list_fmap_ext.
  intros i e _. simpl. by destruct (er_id e =? id)%N.
Qed.

Lemma set_record_keys id status fields message records :
  extraction_key <$> set_record id status fields message records
  = extraction_key <$> records.
Proof.
  unfold set_record. rewrite <-list_fmap_compose. apply list_fmap_ext.
  intros i e _. simpl. by destruct (er_id e =? id)%N.
Qed.

Lemma set_record_fresh id status fields message records :
  Forall (λ e, er_id e ≠ id) records →
  set_record id status fields message records = records.
Proof.
  intros Hfresh. unfold set_record. rewrite <-(list_fmap_id records) at 2.
  apply Forall_fmap_ext. eapply Forall_impl; [exact Hfresh|].
  intros e He. simpl. by destruct (N.eqb_spec (er_id e) id).
Qed.

Lemma set_record_records_for id status fields message doc_id template_ref w records next :
  records_for doc_id template_ref
    (with_records w (set_record id status fields message records) next)
  = set_record id status fields message
      (records_for doc_id template_ref (with_records w records next)).
Proof.
  unfold records_for. simpl. unfold set_record. apply where_fmap_commute.
  intros e. by destruct (er_id e =? id)%N.
Qed.

(** The records with another key are not touched, when identifiers are
    distinct and the record set has the key. *)
Lemma set_record_other id status fields message records (k : uuid * uuid) :
  (∀ e, e ∈ records → er_id e = id → extraction_key e = k) →
  filter (λ e, extraction_key e ≠ k) (set_record id status fields message records)
  = filter (λ e, extraction_key e ≠ k) records.
Proof.
  intros Hid. unfold set_record.
  induction records as [|e records IH]; [done|]. rewrite fmap_cons.
  assert (filter (λ e, extraction_key e ≠ k)
            ((λ e, if (er_id e =? id)%N
                   then {| er_id := er_id e;
                           er_document_id := er_document_id e;
                           er_field_template_id := er_field_template_id e;
                           extraction_status := status;
                           extracted_fields := fields (extracted_fields e);
                           er_error_message := message;
                           er_created_at := er_created_at e |}
                   else e) <$> records)
          = filter (λ e, extraction_key e ≠ k) records) as Hrest.
  { apply IH. intros e' He'. apply Hid. by right. }
  destruct (N.eqb_spec (er_id e) id) as [Heq|Hne].
  - assert (extraction_key e = k) as Hk by (apply Hid; [by left|done]).
    rewrite !filter_cons. rewrite decide_False by (by intros []).
    rewrite decide_False by (by intros []). done.
  - rewrite !filter_cons. by rewrite Hrest.
Qed.

Lemma with_records_same w : with_records w (extracted_records w) (next_id w) = w.
Proof. by destruct w. Qed.

Lemma with_records_twice w records next records' next' :
  with_records (with_records w records next) records' next' = with_records w records' next'.
Proof. done. Qed.

Lemma NoDup_fmap_eq {A K} (key : A → K) (l : list A) x y :
  NoDup (key <$> l) → x ∈ l → y ∈ l → key x = key y → x = y.
Proof.
  intros Hnodup Hx Hy Hkey.
  apply list_elem_of_lookup in Hx as [i Hi]. apply list_elem_of_lookup in Hy as [j Hj].
  assert (i = j) as ->; [|congruence].
  eapply NoDup_lookup; [exact Hnodup| |]; rewrite list_lookup_fmap.
  - by rewrite Hi.
  - by rewrite Hj, Hkey.
Qed.

(** The record the job works on: the one of the pair, in progress, with
    the fields the pair's record had. *)
Lemma get_or_create_spec w doc_id template_ref rid w1 :
  records_consistent w →
  get_or_create w doc_id template_ref = (rid, w1) →
  ∃ e1,
    records_for doc_id template_ref w1 = [e1]
    ∧ er_id e1 = rid
    ∧ extraction_status e1 = ExtractionStatus.IN_PROGRESS
    ∧ extracted_fields e1
      = match records_for doc_id template_ref w with
        | old :: _ => extracted_fields old
        | [] => None
        end
    ∧ records_consistent w1
    ∧ w1 = with_records w (extracted_records w1) (next_id w1)
    ∧ filter (λ e, extraction_key e ≠ (doc_id, template_ref)) (extracted_records w1)
      = filter (λ e, extraction_key e ≠ (doc_id, template_ref)) (extracted_records w).
Proof.
  intros (Hids & Hfresh & Hkeys). unfold get_or_create.
  fold (records_for doc_id template_ref w).
  destruct (where_key_unique extraction_key
              (λ e, (er_document_id e =? doc_id)%N
                    && (er_field_template_id e =? template_ref)%N)
              (doc_id, template_ref) (extracted_records w) Hkeys
              (pair_key doc_id template_ref)) as [Hnone|[old Hold]].
  - fold (records_for doc_id template_ref w) in Hnone. rewrite Hnone. simpl.
    intros [= <- <-]. eexists. split_and!.
    + unfold records_for in *. simpl. rewrite where_app, Hnone. simpl.
      by rewrite !N.eqb_refl.
    + done.
    + done.
    + done.
    + split_and!; simpl.
      * rewrite fmap_app. apply NoDup_app. split_and!; [done| |apply NoDup_singleton].
        intros id (e & -> & He)%list_elem_of_fmap [Heq|[]%elem_of_nil]%elem_of_cons.
        rewrite Forall_forall in Hfresh. specialize (Hfresh e He). simpl in *. lia.
      * apply Forall_app. split.
        -- eapply Forall_impl; [exact Hfresh|]. simpl. intros; lia.
        -- apply Forall_singleton. simpl. lia.
      * rewrite fmap_app. apply NoDup_app. split_and!; [done| |apply NoDup_singleton].
        intros k (e & -> & He)%list_elem_of_fmap [Hk|[]%elem_of_nil]%elem_of_cons.
        assert (e ∈ records_for doc_id template_ref w) as Hin.
        { apply where_elem. split; [done|]. by apply pair_key. }
        rewrite Hnone in Hin. by apply elem_of_nil in Hin.
    + done.
    + simpl. rewrite filter_app, filter_cons, decide_False by (by intros []).
      by rewrite filter_nil, app_nil_r.
  - fold (records_for doc_id template_ref w) in Hold. rewrite Hold. simpl.
    intros [= <- <-].
    assert (old ∈ extracted_records w ∧ extraction_key old = (doc_id, template_ref))
      as [Hin Hkey].
    { assert (old ∈ records_for doc_id template_ref w) as H by (rewrite Hold; left).
      apply where_elem in H as [? ?]. split; [done|]. by apply pair_key. }
    eexists. split_and!.
    + rewrite (set_record_records_for _ _ _ _ _ _ w), with_records_same, Hold. simpl.
      by rewrite N.eqb_refl.
    + done.
    + done.
    + done.
    + split_and!; simpl.
      * by rewrite set_record_ids.
      * apply (Forall_fmap er_id (λ i, (i < next_id w)%N)). rewrite set_record_ids.
        by apply Forall_fmap.
      * by rewrite set_record_keys.
    + done.
    + simpl. apply set_record_other. intros e He Hid.
      by rewrite (NoDup_fmap_eq er_id _ e old Hids He Hin Hid).
Qed.

(** What the job does to the store once it has the record of the pair. *)
Lemma finish_spec w1 doc_id template_ref rid e1 status fields message :
  records_consistent w1 →
  records_for doc_id template_ref w1 = [e1] → er_id e1 = rid →
  let w' := with_records w1
              (set_record rid status fields message (extracted_records w1))
              (next_id w1) in
  (∃ e, records_for doc_id template_ref w' = [e]
        ∧ er_id e = rid
        ∧ extraction_status e = status
        ∧ extracted_fields e = fields (extracted_fields e1)
        ∧ er_error_message e = message)
  ∧ records_consistent w'
  ∧ filter (λ e, extraction_key e ≠ (doc_id, template_ref)) (extracted_records w')
    = filter (λ e, extraction_key e ≠ (doc_id, template_ref)) (extracted_records w1).
Proof.
  intros (Hids & Hfresh & Hkeys) He1 Hrid w'. subst w'. split_and!.
  - rewrite set_record_records_for, with_records_same, He1. simpl.
    rewrite Hrid, N.eqb_refl. eexists. by split_and!.
  - split_and!; simpl.
    + by rewrite set_record_ids.
    + apply (Forall_fmap er_id (λ i, (i < next_id w1)%N)). rewrite set_record_ids.
      by apply Forall_fmap.
    + by rewrite set_record_keys.
  - simpl. apply set_record_other. intros e He Hid.
    assert (e1 ∈ records_for doc_id template_ref w1) as Hin by (rewrite He1; left).
    apply where_elem in Hin as [Hin Hkey]. apply pair_key in Hkey.
    by rewrite (NoDup_fmap_eq er_id _ e e1 Hids He Hin) by congruence.
Qed.

(** The ways the job ends. *)
Lemma extract_document_task_inv env doc_id template_ref w result w' :
  extract_document_task env doc_id template_ref w = Some (result, w') →
  (∃ message, result = TaskError message ∧ w' = w)
  ∨ ∃ document text template rid w1 status fields message,
      first (where_ (λ d, (document_id d =? doc_id)%N) (documents w)) = Some document
      ∧ upload_status document = UploadStatus.PARSED
      ∧ parsed_text document = Some text
      ∧ first (where_ (λ t, (template_id t =? template_ref)%N) (field_templates w))
        = Some template
      ∧ get_or_create w doc_id template_ref = (rid, w1)
      ∧ w' = with_records w1
               (set_record rid status fields message (extracted_records w1))
               (next_id w1)
      ∧ ((∃ err, result = TaskFailed err
                 ∧ status = ExtractionStatus.FAILED ∧ fields = id ∧ message = Some err)
         ∨ (∃ extracted,
              result = TaskSuccess rid
                         (length (List.filter (λ f, PyVal.truthy (fr_raw_value f)) extracted))
              ∧ status = ExtractionStatus.COMPLETED
              ∧ fields = (λ _, Some extracted) ∧ message = None
              ∧ Extractor.extract (llm env) text (template_fields template)
                  Extractor.default_chunk_size = Some (Ok extracted))).
Proof.
  unfold extract_document_task.
  destruct (first (where_ _ (documents w))) as [document|] eqn:Hdoc;
    [|intros [= <- <-]; left; by eexists].
  destruct (bool_decide (upload_status document = UploadStatus.PARSED)) eqn:Hparsed;
    simpl; [|intros [= <- <-]; left; by eexists].
  apply bool_decide_eq_true in Hparsed.
  destruct (parsed_text document) as [[|c text]|] eqn:Htext;
    [intros [= <- <-]; left; by eexists| |intros [= <- <-]; left; by eexists].
  destruct (first (where_ _ (field_templates w))) as [template|] eqn:Htemplate;
    [|intros [= <- <-]; left; by eexists].
  destruct (get_or_create w doc_id template_ref) as [rid w1] eqn:Hrecord.
  destruct (extractor_available env); simpl.
  - destruct (Extractor.extract _ _ _ _) as [[extracted|cause]|] eqn:Hrun; simpl; [| |done].
    + intros [= <- <-]. right. exists document, (c :: text), template, rid, w1.
      eexists _, _, _. split_and!; [done..|]. right. by eexists.
    + intros [= <- <-]. right. exists document, (c :: text), template, rid, w1.
      eexists _, _, _. split_and!; [done..|]. left. by eexists.
  - intros [= <- <-]. right. exists document, (c :: text), template, rid, w1.
    eexists _, _, _. split_and!; [done..|]. left. by eexists.
Qed.

End TaskFacts.

(** The extraction job always returns: the chunk size it runs the engine
    with, the default of 50000, is above the overlap of the chunks. *)
Theorem extract_document_task_returns (env : Tasks.environment)
    (doc_id template_ref : uuid) (w : world) :
  is_Some (Tasks.extract_document_task env doc_id template_ref w).
Proof.
  unfold Tasks.extract_document_task.
  destruct (Db.first (Db.where_ _ (documents w))) as [document|]; [|done].
  destruct (negb _); [done|].
  destruct (parsed_text document) as [[|c text]|]; [done| |done].
  destruct (Db.first (Db.where_ _ (field_templates w))) as [template|]; [|done].
  destruct (Tasks.get_or_create w doc_id template_ref) as [rid w1].
  destruct (negb _); [done|].
  destruct (extract_default_returns (Tasks.llm env) (c :: text) (template_fields template))
    as [outcome Hrun].
  rewrite Hrun. simpl. by destruct outcome.
Qed.

(** The extraction job keeps the store consistent: the extraction records
    keep distinct identifiers and there is still at most one record for a
    document and a template.  It changes nothing but extraction records
    (and the next fresh identifier), and no record of another document or
    template. *)
Theorem extract_document_task_keeps_store (env : Tasks.environment)
    (doc_id template_ref : uuid) (w w' : world) (result : Tasks.task_result) :
  records_consistent w →
  Tasks.extract_document_task env doc_id template_ref w = Some (result, w') →
  records_consistent w'
  ∧ w' = Tasks.with_records w (extracted_records w') (next_id w')
  ∧ filter (λ e, extraction_key e ≠ (doc_id, template_ref)) (extracted_records w')
    = filter (λ e, extraction_key e ≠ (doc_id, template_ref)) (extracted_records w).
Proof.
  intros Hw Hrun.
  apply extract_document_task_inv in Hrun
    as [(message & -> & ->)
       |(document & text & template & rid & w1 & status & fields & message
         & _ & _ & _ & _ & Hrecord & -> & _)].
  - split_and!; [done| |done]. by rewrite with_records_same.
  - destruct (get_or_create_spec _ _ _ _ _ Hw Hrecord)
      as (e1 & He1 & Hrid & _ & _ & Hw1 & Hframe & Hothers).
    destruct (finish_spec w1 doc_id template_ref rid e1 status fields message Hw1 He1 Hrid)
      as (_ & Hw' & Hothers').
    split_and!; [done| |by rewrite Hothers', Hothers].
    rewrite Hframe at 1. done.
Qed.

Lemma extract_document_task_keeps_store_witness :
  let document :=
    {| document_id := 10; document_project_id := 1; filename := str "a.txt";
       upload_status := UploadStatus.PARSED; parsed_text := Some (str "Acme pays.");
       document_created_at := 0 |} in
  let record doc :=
    {| er_id := doc + 10; er_document_id := doc; er_field_template_id := 7;
       extraction_status := ExtractionStatus.COMPLETED; extracted_fields := Some [];
       er_error_message := None; er_created_at := 0 |} in
  let w :=
    {| projects := [];
       field_templates :=
         [{| template_id := 7; template_fields := [plain_field "party" "Party" "TEXT"] |}];
       documents := [document];
       extracted_records := [record 10%N; record 11%N]; review_records := []; queue := [];
       next_id := 30; now := 5; broker_up := true; autoflush := true |} in
  let env := {| Tasks.llm := λ _, Some (str "no array");
                Tasks.extractor_available := true |} in
  ∃ result w',
    Tasks.extract_document_task env 10 7 w = Some (result, w')
    ∧ records_consistent w'
    ∧ filter (λ e, extraction_key e ≠ (10%N, 7%N)) (extracted_records w') = [record 11%N].
Proof.
  intros document record w env.
  destruct (Tasks.extract_document_task env 10 7 w) as [[result w']|] eqn:Hrun;
    [|by vm_compute in Hrun].
  assert (records_consistent w) as Hw.
  { split_and!; [by apply NoDup_ListNoDup; vm_compute; repeat constructor; simpl; intuition discriminate
                |repeat constructor
                |by apply NoDup_ListNoDup; vm_compute; repeat constructor; simpl; intuition discriminate]. }
  destruct (extract_document_task_keeps_store env 10 7 w w' result Hw Hrun)
    as (Hw' & _ & Hothers).
  exists result, w'. split_and!; [done|done|]. by rewrite Hothers.
Defined.

(** The record a job leaves for its document and template, on a
    consistent store.  A job that returns an error message leaves the store
    as it is.  A job that fails leaves one record for the pair, marked
    FAILED, with the error and with the fields the pair's record had
    before: a failed extraction does not erase them.  A job that succeeds
    leaves one record for the pair, the one it reports, marked COMPLETED,
    with the results of the engine for the parsed text and no error; the
    number it reports counts the results whose raw value is true as a
    condition. *)
Theorem extract_document_task_record (env : Tasks.environment)
    (doc_id template_ref : uuid) (w w' : world) (result : Tasks.task_result) :
  records_consistent w →
  Tasks.extract_document_task env doc_id template_ref w = Some (result, w') →
  match result with
  | Tasks.TaskError _ => w' = w
  | Tasks.TaskFailed err =>
      ∃ e, ProjectExtraction.records_for doc_id template_ref w' = [e]
           ∧ extraction_status e = ExtractionStatus.FAILED
           ∧ er_error_message e = Some err
           ∧ extracted_fields e
             = match ProjectExtraction.records_for doc_id template_ref w with
               | old :: _ => extracted_fields old
               | [] => None
               end
  | Tasks.TaskSuccess rid fields_extracted =>
      ∃ e document text template extracted,
        ProjectExtraction.records_for doc_id template_ref w' = [e]
        ∧ er_id e = rid
        ∧ extraction_status e = ExtractionStatus.COMPLETED
        ∧ extracted_fields e = Some extracted
        ∧ er_error_message e = None
        ∧ document ∈ documents w ∧ document_id document = doc_id
        ∧ parsed_text document = Some text
        ∧ template ∈ field_templates w ∧ template_id template = template_ref
        ∧ Extractor.extract (Tasks.llm env) text (template_fields template)
            Extractor.default_chunk_size = Some (Ok extracted)
        ∧ fields_extracted
          = length (List.filter (λ f, PyVal.truthy (fr_raw_value f)) extracted)
  end.
Proof.
  intros Hw Hrun.
  apply extract_document_task_inv in Hrun
    as [(message & -> & ->)
       |(document & text & template & rid & w1 & status & fields & message
         & Hdoc & _ & Htext & Htemplate & Hrecord & -> & Hend)]; [done|].
  destruct (get_or_create_spec _ _ _ _ _ Hw Hrecord)
    as (e1 & He1 & Hrid & _ & Hfields & Hw1 & _ & _).
  destruct (finish_spec w1 doc_id template_ref rid e1 status fields message Hw1 He1 Hrid)
    as ((e & He & Hid & Hstatus & Hkept & Hmessage) & _ & _).
  destruct Hend as [(err & -> & -> & -> & ->)|(extracted & -> & -> & -> & -> & Hextract)].
  - exists e. split_and!; [done..|]. by rewrite Hkept.
  - apply first_elem, where_elem in Hdoc as [Hdoc ?%N.eqb_eq].
    apply first_elem, where_elem in Htemplate as [Htemplate ?%N.eqb_eq].
    exists e, document, text, template, extracted. by split_and!.
Qed.

Lemma extract_document_task_record_witness :
  let document :=
    {| document_id := 10; document_project_id := 1; filename := str "a.txt";
       upload_status := UploadStatus.PARSED; parsed_text := Some (str "Acme pays.");
       document_created_at := 0 |} in
  let earlier :=
    [{| fr_field_id := str "party"; fr_raw_value := PStr (str "Acme");
        fr_normalized_value := Some (str "Acme"); fr_confidence_score := 1%Q;
        fr_citations := PList [] |}] in
  let record :=
    {| er_id := 20; er_document_id := 10; er_field_template_id := 7;
       extraction_status := ExtractionStatus.COMPLETED;
       extracted_fields := Some earlier;
       er_error_message := None; er_created_at := 0 |} in
  let w :=
    {| projects := [];
       field_templates :=
         [{| template_id := 7; template_fields := [plain_field "party" "Party" "TEXT"] |}];
       documents := [document];
       extracted_records := [record]; review_records := []; queue := [];
       next_id := 30; now := 5; broker_up := true; autoflush := true |} in
  let env := {| Tasks.llm := λ _, Some (str "no array");
                Tasks.extractor_available := true |} in
  ∃ w' e,
    Tasks.extract_document_task env 10 7 w
    = Some (Tasks.TaskFailed (ExtractionFailed NoJsonArray), w')
    ∧ ProjectExtraction.records_for 10 7 w' = [e]
    ∧ extraction_status e = ExtractionStatus.FAILED
    ∧ extracted_fields e = Some earlier.
Proof.
  intros document earlier record w env.
  destruct (Tasks.extract_document_task env 10 7 w) as [[result w']|] eqn:Hrun;
    [|by vm_compute in Hrun].
  assert (records_consistent w) as Hw.
  { split_and!; [by apply NoDup_singleton|repeat constructor|by apply NoDup_singleton]. }
  pose proof (extract_document_task_record env 10 7 w w' result Hw Hrun) as Hrecord.
  assert (result = Tasks.TaskFailed (ExtractionFailed NoJsonArray)) as ->.
  { vm_compute in Hrun. by injection Hrun as <- _. }
  destruct Hrecord as (e & He & Hstatus & _ & Hfields).
  exists w', e. by split_and!.
Defined.

(** After a job that did not end with an error message, a trigger for
    the same document and template without [force_reprocess] is refused
    with status 409 and queues nothing, also when the job failed; a
    trigger with [force_reprocess] queues a job again. *)
Theorem trigger_after_job (env : Tasks.environment) (doc_id template_ref : uuid)
    (w w' : world) (result : Tasks.task_result) (document : Document) :
  records_consistent w →
  Db.where_ (λ d, (document_id d =? doc_id)%N) (documents w) = [document] →
  Tasks.extract_document_task env doc_id template_ref w = Some (result, w') →
  (∀ message, result ≠ Tasks.TaskError message) →
  Extraction.trigger_extraction doc_id
    {| Extraction.field_template_id := template_ref;
       Extraction.force_reprocess := false |} w'
  = (HTTPException 409, w')
  ∧ (broker_up w = true →
     ∃ body,
       Extraction.trigger_extraction doc_id
         {| Extraction.field_template_id := template_ref;
            Extraction.force_reprocess := true |} w'
       = (Response body,
          ProjectExtraction.with_queue w'
            (queue w' ++ [ExtractDocument doc_id template_ref]))).
Proof.
  intros Hw Hdocs Hrun Hresult.
  apply extract_document_task_inv in Hrun
    as [(message & -> & ->)
       |(document' & text & template & rid & w1 & status & fields & message
         & Hdoc & Hparsed & _ & _ & Hrecord & -> & _)]; [by destruct (Hresult message)|].
  rewrite Hdocs in Hdoc. injection Hdoc as <-.
  destruct (get_or_create_spec _ _ _ _ _ Hw Hrecord)
    as (e1 & He1 & Hrid & _ & _ & Hw1 & Hframe & _).
  destruct (finish_spec w1 doc_id template_ref rid e1 status fields message Hw1 He1 Hrid)
    as ((e & He & _) & _ & _).
  set (w' := Tasks.with_records w1 _ _) in *.
  assert (documents w' = documents w ∧ broker_up w' = broker_up w) as [Hsame Hbroker].
  { subst w'. rewrite Hframe. done. }
  clearbody w'. unfold ProjectExtraction.records_for in He.
  unfold Extraction.trigger_extraction. rewrite Hsame, Hdocs. simpl.
  rewrite bool_decide_eq_true_2 by done. simpl. split.
  - by rewrite He.
  - intros Hup. rewrite delay_with_queue, Hbroker, Hup. by eexists.
Qed.

Lemma trigger_after_job_witness :
  let document :=
    {| document_id := 10; document_project_id := 1; filename := str "a.txt";
       upload_status := UploadStatus.PARSED; parsed_text := Some (str "Acme pays.");
       document_created_at := 0 |} in
  let w :=
    {| projects := [];
       field_templates :=
         [{| template_id := 7; template_fields := [plain_field "party" "Party" "TEXT"] |}];
       documents := [document];
       extracted_records := []; review_records := []; queue := [];
       next_id := 30; now := 5; broker_up := true; autoflush := true |} in
  let env := {| Tasks.llm := λ _, None; Tasks.extractor_available := true |} in
  ∃ w',
    Tasks.extract_document_task env 10 7 w
    = Some (Tasks.TaskFailed (ExtractionFailed ModelCallFailed), w')
    ∧ Extraction.trigger_extraction 10
        {| Extraction.field_template_id := 7; Extraction.force_reprocess := false |} w'
      = (HTTPException 409, w').
Proof.
  intros document w env.
  destruct (Tasks.extract_document_task env 10 7 w) as [[result w']|] eqn:Hrun;
    [|by vm_compute in Hrun].
  assert (records_consistent w) as Hw.
  { split_and!; [apply NoDup_nil_2|constructor|apply NoDup_nil_2]. }
  assert (result = Tasks.TaskFailed (ExtractionFailed ModelCallFailed)) as Hresult.
  { vm_compute in Hrun. by injection Hrun as <- _. }
  destruct (trigger_after_job env 10 7 w w' result document Hw eq_refl Hrun) as [Hconflict _].
  { by rewrite Hresult. }
  exists w'. rewrite <-Hresult. by split.
Defined.

(** ** The shape of the review table *)

Section OrderFacts.
Import Db.
Context {A : Type} (key : A → Z).

Lemma insert_by_sorted x (sorted : list A) :
  StronglySorted (λ a b, key a ≤ key b) sorted →
  StronglySorted (λ a b, key a ≤ key b) (insert_by key x sorted).
Proof.
  induction 1 as [|y rest Hrest IH Hy]; simpl.
  - repeat constructor.
  - destruct (Z.leb_spec (key x) (key y)) as [Hle|Hgt].
    + constructor; [by constructor|]. constructor; [done|].
      eapply Forall_impl; [exact Hy|]. simpl. lia.
    + constructor; [done|]. apply Forall_forall. intros z Hz.
      apply elem_of_insert_by in Hz as [->|Hz]; [lia|].
      by eapply Forall_forall in Hy.
Qed.

Lemma order_by_asc_sorted (rows : list A) :
  StronglySorted (λ a b, key a ≤ key b) (order_by_asc key rows).
Proof.
  unfold order_by_asc. induction rows as [|x rows IH]; simpl; [constructor|].
  by apply insert_by_sorted.
Qed.

Lemma insert_by_perm x (sorted : list A) : insert_by key x sorted ≡ₚ x :: sorted.
Proof.
  induction sorted as [|y rest IH]; simpl; [done|].
  destruct (key x <=? key y); [done|]. rewrite IH. apply Permutation_swap.
Qed.

Lemma order_by_asc_perm (rows : list A) : order_by_asc key rows ≡ₚ rows.
Proof.
  unfold order_by_asc. induction rows as [|x rows IH]; simpl; [done|].
  by rewrite insert_by_perm, IH.
Qed.

End OrderFacts.

Section OrderDesc.
Import Db.

Lemma order_by_desc_head {A} (key : A → Z) (rows : list A) :
  match order_by_desc key rows with
  | [] => rows = []
  | x :: _ => x ∈ rows ∧ ∀ y, y ∈ rows → key y ≤ key x
  end.
Proof.
  unfold order_by_desc.
  pose proof (order_by_asc_sorted (λ x, - key x) rows) as Hsorted.
  pose proof (order_by_asc_perm (λ x, - key x) rows) as Hperm.
  destruct (order_by_asc _ rows) as [|x rest].
  - by apply Permutation_nil in Hperm.
  - split; [rewrite <-Hperm; by left|]. intros y Hy. rewrite <-Hperm in Hy.
    apply StronglySorted_inv in Hsorted as [_ Hx].
    apply elem_of_cons in Hy as [->|Hy]; [lia|].
    eapply Forall_forall in Hx; [|exact Hy]. simpl in Hx. lia.
Qed.

End OrderDesc.

(** The extraction whose results the review table shows for a document is
    one created last among the records of the document for the template:
    the query never finds more than one row, and it finds none exactly
    when there is no such record. *)
Theorem latest_extraction_is_latest (w : world) (document : Document)
    (template_ref : uuid) :
  match Review.latest_extraction w document template_ref with
  | Db.NoRow =>
      ProjectExtraction.records_for (document_id document) template_ref w = []
  | Db.OneRow extraction =>
      extraction ∈ extracted_records w
      ∧ er_document_id extraction = document_id document
      ∧ er_field_template_id extraction = template_ref
      ∧ ∀ e, e ∈ ProjectExtraction.records_for (document_id document) template_ref w →
             er_created_at e ≤ er_created_at extraction
  | Db.MultipleResultsFound => False
  end.
Proof.
  unfold Review.latest_extraction, Db.limit.
  fold (ProjectExtraction.records_for (document_id document) template_ref w).
  pose proof (order_by_desc_head er_created_at
                (ProjectExtraction.records_for (document_id document) template_ref w))
    as Hhead.
  destruct (Db.order_by_desc _ _) as [|extraction rest]; simpl; [done|].
  destruct Hhead as [Hin Hmax].
  apply where_elem in Hin as [Hin [Hdoc%N.eqb_eq Htemplate%N.eqb_eq]%andb_true_iff].
  by split_and!.
Qed.

Section TableShape.
Import Db Review.

Lemma latest_extraction_never_multiple w document template_ref :
  latest_extraction w document template_ref ≠ MultipleResultsFound.
Proof.
  unfold latest_extraction, limit. by destruct (order_by_desc _ _) as [|e [|e' rest]].
Qed.

Lemma not_extracted_fold_lookup (fields : list field_definition) (acc : gmap pystr cell) fid :
  foldl (λ m field_def, <[field_id field_def := not_extracted_cell field_def]> m)
        acc fields !! fid
  = match last (filter (λ d, field_id d = fid) fields) with
    | Some d => Some (not_extracted_cell d)
    | None => acc !! fid
    end.
Proof.
  revert acc. induction fields as [|d fields IH]; intros acc; [done|].
  cbn [foldl]. rewrite IH, filter_cons.
  destruct (decide (field_id d = fid)) as [<-|Hne].
  - rewrite lookup_insert_eq. destruct (filter _ fields) as [|x l]; [done|].
    simpl. destruct (last (x :: l)) eqn:Hl; [done|]. by apply last_None in Hl.
  - by rewrite lookup_insert_ne.
Qed.

Lemma not_extracted_cells_lookup fields fid :
  not_extracted_cells fields !! fid
  = not_extracted_cell <$> last (filter (λ d, field_id d = fid) fields).
Proof.
  unfold not_extracted_cells. rewrite not_extracted_fold_lookup, lookup_empty.
  by destruct (last _).
Qed.

Lemma last_filter_is_some {A} (P : A → Prop) `{!∀ x, Decision (P x)} (l : list A) :
  is_Some (last (filter P l)) ↔ ∃ x, x ∈ l ∧ P x.
Proof.
  split.
  - intros [x Hx]. exists x. by apply last_filter_some in Hx.
  - intros (x & Hx & HP). destruct (last (filter P l)) eqn:Hlast; [done|].
    by destruct (proj1 (last_filter_none P l) Hlast x Hx).
Qed.

(** A row has a cell for each field identifier of the template, and for
    nothing else. *)
Lemma document_fields_dom w template template_ref document cells fid :
  document_fields w template template_ref document = Some cells →
  is_Some (cells !! fid) ↔ fid ∈ field_id <$> template_fields template.
Proof.
  assert (is_Some (not_extracted_cells (template_fields template) !! fid)
          ↔ fid ∈ field_id <$> template_fields template) as Hnot.
  { rewrite not_extracted_cells_lookup, fmap_is_Some, last_filter_is_some,
      list_elem_of_fmap. naive_solver. }
  unfold document_fields.
  destruct (latest_extraction _ _ _) as [|extraction|]; [by intros [= <-]| |done].
  destruct (bool_decide _); [|by intros [= <-]].
  destruct (extracted_fields extraction) as [fields|].
  - destruct (completed_cells_lookup fields
                (reviews_by_field
                   (where_ (λ r, (rr_extracted_record_id r =? er_id extraction)%N)
                           (review_records w)))
                (template_fields template) ∅) as (cells' & Hrun & Hlookup).
    rewrite Hrun. intros [= <-].
    destruct (Hlookup fid) as [[-> Hnotin]|(d & Hd & <- & ->)].
    + rewrite lookup_empty. split; [by intros []|done].
    + split; [|done]. intros _. apply list_elem_of_fmap. eauto.
  - destruct (template_fields template) as [|d fields]; simpl; [|done].
    intros [= <-]. rewrite lookup_empty. split; [by intros []|by intros ?%elem_of_nil].
Qed.

Lemma document_row_inv w template template_ref document row :
  document_row w template template_ref document = Some row →
  row_document_id row = document_id document
  ∧ row_document_name row = filename document
  ∧ document_fields w template template_ref document = Some (row_fields row).
Proof.
  unfold document_row. destruct (document_fields _ _ _ _); [|done].
  by intros [= <-].
Qed.

Lemma document_row_some w template template_ref document cells :
  document_fields w template template_ref document = Some cells →
  ∃ row, document_row w template template_ref document = Some row
         ∧ row_fields row = cells.
Proof. unfold document_row. intros ->. by eexists. Qed.

(** Building the cells raises for one reason only: a completed
    extraction without extracted fields, under a template with a field. *)
Lemma document_fields_none w template template_ref document :
  document_fields w template template_ref document = None ↔
  ∃ extraction,
    latest_extraction w document template_ref = OneRow extraction
    ∧ extraction_status extraction = ExtractionStatus.COMPLETED
    ∧ extracted_fields extraction = None
    ∧ template_fields template ≠ [].
Proof.
  unfold document_fields.
  pose proof (latest_extraction_never_multiple w document template_ref) as Hnever.
  destruct (latest_extraction w document template_ref) as [|extraction|]; [| |done].
  { split; [done|]. by intros (? & ? & _). }
  destruct (decide (extraction_status extraction = ExtractionStatus.COMPLETED))
    as [Hstatus|Hstatus].
  - rewrite bool_decide_true by done.
    destruct (extracted_fields extraction) as [fields|] eqn:Hfields.
    + destruct (completed_cells_lookup fields
                  (reviews_by_field
                     (where_ (λ r, (rr_extracted_record_id r =? er_id extraction)%N)
                             (review_records w)))
                  (template_fields template) ∅) as (cells & -> & _).
      split; [done|]. intros (e & [= <-] & _ & ? & _). congruence.
    + destruct (template_fields template) as [|d fields]; simpl.
      * split; [done|]. by intros (e & _ & _ & _ & ?).
      * split; [|done]. intros _. by exists extraction.
  - rewrite bool_decide_false by done. split; [done|].
    intros (e & [= <-] & ? & _). done.
Qed.

End TableShape.

(** The row the loop of the review table builds for a document, given
    the template and the identifier that selects the extractions.
    Building it raises exactly when the latest extraction of the document
    is COMPLETED, holds no extracted fields, and the template has a field.
    A row that is built carries the identifier and the file name of the
    document, and has a cell for each field identifier of the template and
    for nothing else, whatever the state of the document's extraction
    is. *)
Theorem document_row_shape (w : world) (template : FieldTemplate) (template_ref : uuid)
    (document : Document) :
  (Review.document_row w template template_ref document = None ↔
     ∃ extraction,
       Review.latest_extraction w document template_ref = Db.OneRow extraction
       ∧ extraction_status extraction = ExtractionStatus.COMPLETED
       ∧ extracted_fields extraction = None
       ∧ template_fields template ≠ [])
  ∧ (∀ row,
       Review.document_row w template template_ref document = Some row →
       Review.row_document_id row = document_id document
       ∧ Review.row_document_name row = filename document
       ∧ ∀ fid, is_Some (Review.row_fields row !! fid)
                ↔ fid ∈ field_id <$> template_fields template).
Proof.
  split.
  - rewrite <-document_fields_none. unfold Review.document_row.
    by destruct (Review.document_fields _ _ _ _).
  - intros row (Hid & Hname & Hcells)%document_row_inv. split_and!; [done..|].
    intros fid. by eapply document_fields_dom.
Qed.

(** For a document that has no extraction for the template, or whose
    latest one is not COMPLETED (pending, in progress or failed), the row
    is built, and every cell of it says NOT_EXTRACTED and has no
    extracted, normalized, manual or final value: what the record holds
    and the reviews stored for it are not shown. *)
Theorem document_row_not_extracted (w : world) (template : FieldTemplate)
    (template_ref : uuid) (document : Document) :
  match Review.latest_extraction w document template_ref with
  | Db.OneRow extraction => extraction_status extraction ≠ ExtractionStatus.COMPLETED
  | _ => True
  end →
  ∃ row,
    Review.document_row w template template_ref document = Some row
    ∧ ∀ field_def, field_def ∈ template_fields template →
        ∃ c, Review.row_fields row !! field_id field_def = Some c
             ∧ Review.cell_review_status c = str "NOT_EXTRACTED"
             ∧ Review.cell_extracted_value c = PNone
             ∧ Review.cell_normalized_value c = None
             ∧ Review.cell_manual_value c = None
             ∧ Review.cell_final_value c = None.
Proof.
  intros Hlatest.
  assert (Review.document_fields w template template_ref document
          = Some (Review.not_extracted_cells (template_fields template))) as Hcells.
  { unfold Review.document_fields.
    pose proof (latest_extraction_never_multiple w document template_ref) as Hnever.
    destruct (Review.latest_extraction _ _ _) as [|extraction|]; [done| |done].
    by rewrite bool_decide_false. }
  destruct (document_row_some _ _ _ _ _ Hcells) as (row & Hrow & Hfields).
  exists row. split; [done|]. intros field_def Hdef.
  rewrite Hfields, not_extracted_cells_lookup.
  destruct (proj2 (last_filter_is_some (λ d, field_id d = field_id field_def)
                     (template_fields template))) as [d Hd]; [by exists field_def|].
  rewrite Hd. by eexists.
Qed.

Lemma document_row_not_extracted_witness :
  let party := plain_field "party" "Party" "TEXT" in
  let template := {| template_id := 2; template_fields := [party] |} in
  let document :=
    {| document_id := 5; document_project_id := 1; filename := str "lease.pdf";
       upload_status := UploadStatus.PARSED; parsed_text := Some (str "Acme leases");
       document_created_at := 10 |} in
  let result :=
    {| fr_field_id := str "party"; fr_raw_value := PStr (str "Acme");
       fr_normalized_value := Some (str "Acme"); fr_confidence_score := (9 # 10)%Q;
       fr_citations := PList [] |} in
  let extraction :=
    {| er_id := 9; er_document_id := 5; er_field_template_id := 2;
       extraction_status := ExtractionStatus.FAILED;
       extracted_fields := Some [result];
       er_error_message := Some (ExtractionFailed NoJsonArray);
       er_created_at := 20 |} in
  let review :=
    {| rr_id := 11; rr_extracted_record_id := 9; rr_field_id := str "party";
       review_status := ReviewStatus.MANUAL_UPDATED;
       manual_value := Some (str "Acme Ltd"); reviewer_notes := None;
       reviewed_by := None |} in
  let w :=
    {| projects := [{| project_id := 1; project_field_template_id := Some 2%N;
                       project_status := ProjectStatus.ACTIVE |}];
       field_templates := [template]; documents := [document];
       extracted_records := [extraction]; review_records := [review];
       queue := []; next_id := 12; now := 30; broker_up := true;
       autoflush := true |} in
  ∃ row c,
    Review.document_row w template 2 document = Some row
    ∧ Review.row_fields row !! str "party" = Some c
    ∧ Review.cell_review_status c = str "NOT_EXTRACTED"
    ∧ Review.cell_final_value c = None.
Proof.
  intros party template document result extraction review w.
  destruct (document_row_not_extracted w template 2%N document) as (row & Hrow & Hcells);
    [by vm_compute|].
  destruct (Hcells party) as (c & Hc & Hstatus & _ & _ & _ & Hfinal); [by left|].
  exists row, c. by split_and!.
Defined.

(** In the row of a document whose latest extraction is COMPLETED, a
    field of the template that the extraction has no result for gets a
    cell that says MISSING_DATA, without extracted and normalized value;
    its manual and its final value are the manual value of the field's
    review, if there is one, also when that value is empty. *)
Theorem document_row_missing_data (w : world) (template : FieldTemplate)
    (template_ref : uuid) (document : Document) (extraction : ExtractedRecord)
    (fields : list field_result) (field_def : field_definition) :
  Review.latest_extraction w document template_ref = Db.OneRow extraction →
  extraction_status extraction = ExtractionStatus.COMPLETED →
  extracted_fields extraction = Some fields →
  field_def ∈ template_fields template →
  find (λ f, Py.str_eqb (fr_field_id f) (field_id field_def)) fields = None →
  let review :=
    last (filter (λ r, rr_field_id r = field_id field_def)
            (Db.where_ (λ r, (rr_extracted_record_id r =? er_id extraction)%N)
                       (review_records w))) in
  ∃ row c,
    Review.document_row w template template_ref document = Some row
    ∧ Review.row_fields row !! field_id field_def = Some c
    ∧ Review.cell_review_status c = str "MISSING_DATA"
    ∧ Review.cell_extracted_value c = PNone
    ∧ Review.cell_normalized_value c = None
    ∧ Review.cell_manual_value c = review ≫= manual_value
    ∧ Review.cell_final_value c = review ≫= manual_value.
Proof.
  intros Hlatest Hstatus Hfields Hdef Hfind review.
  destruct (completed_cells_lookup fields
              (Review.reviews_by_field
                 (Db.where_ (λ r, (rr_extracted_record_id r =? er_id extraction)%N)
                            (review_records w)))
              (template_fields template) ∅) as (cells & Hrun & Hlookup).
  assert (Review.document_fields w template template_ref document = Some cells) as Hcells.
  { unfold Review.document_fields.
    by rewrite Hlatest, bool_decide_true, Hfields by done. }
  destruct (document_row_some _ _ _ _ _ Hcells) as (row & Hrow & Hrf).
  destruct (Hlookup (field_id field_def)) as [[_ Hnot]|(d & Hd & Hdid & Hcell)].
  - destruct Hnot. apply list_elem_of_fmap. eauto.
  - exists row. eexists. split; [done|]. split; [rewrite Hrf; exact Hcell|].
    unfold Review.cell_of. rewrite Hdid, Hfind, reviews_by_field_lookup. by split_and!.
Qed.

Lemma document_row_missing_data_witness :
  let party := plain_field "party" "Party" "TEXT" in
  let template := {| template_id := 2; template_fields := [party] |} in
  let document :=
    {| document_id := 5; document_project_id := 1; filename := str "lease.pdf";
       upload_status := UploadStatus.PARSED; parsed_text := Some (str "Acme leases");
       document_created_at := 10 |} in
  let extraction :=
    {| er_id := 9; er_document_id := 5; er_field_template_id := 2;
       extraction_status := ExtractionStatus.COMPLETED;
       extracted_fields := Some [];
       er_error_message := None; er_created_at := 20 |} in
  let review :=
    {| rr_id := 11; rr_extracted_record_id := 9; rr_field_id := str "party";
       review_status := ReviewStatus.CONFIRMED;
       manual_value := Some []; reviewer_notes := None;
       reviewed_by := None |} in
  let w :=
    {| projects := [{| project_id := 1; project_field_template_id := Some 2%N;
                       project_status := ProjectStatus.ACTIVE |}];
       field_templates := [template]; documents := [document];
       extracted_records := [extraction]; review_records := [review];
       queue := []; next_id := 12; now := 30; broker_up := true;
       autoflush := true |} in
  ∃ row c,
    Review.document_row w template 2 document = Some row
    ∧ Review.row_fields row !! str "party" = Some c
    ∧ Review.cell_review_status c = str "MISSING_DATA"
    ∧ Review.cell_final_value c = Some [].
Proof.
  intros party template document extraction review w.
  destruct (document_row_missing_data w template 2%N document extraction [] party)
    as (row & c & Hrow & Hc & Hstatus & _ & _ & _ & Hfinal);
    [by vm_compute|done|done|by left|done|].
  exists row, c. by split_and!.
Defined.

(** In the row of a document whose latest extraction is COMPLETED, a
    field of the template that the extraction has a result for gets a cell
    whose review is the last stored review of that extraction and field,
    if any.  The cell's final value is the review's manual value when
    there is a review and its manual value is present and not empty, and
    the result's normalized value otherwise; its review status is the
    review's, and PENDING when there is no review. *)
Theorem document_row_final_value (w : world) (template : FieldTemplate)
    (template_ref : uuid) (document : Document) (extraction : ExtractedRecord)
    (fields : list field_result) (field_def : field_definition)
    (extracted_field : field_result) :
  Review.latest_extraction w document template_ref = Db.OneRow extraction →
  extraction_status extraction = ExtractionStatus.COMPLETED →
  extracted_fields extraction = Some fields →
  field_def ∈ template_fields template →
  find (λ f, Py.str_eqb (fr_field_id f) (field_id field_def)) fields
    = Some extracted_field →
  let review :=
    last (filter (λ r, rr_field_id r = field_id field_def)
            (Db.where_ (λ r, (rr_extracted_record_id r =? er_id extraction)%N)
                       (review_records w))) in
  (review = None ↔
     ∀ r, r ∈ review_records w →
          ¬ (rr_extracted_record_id r = er_id extraction
             ∧ rr_field_id r = field_id field_def))
  ∧ (∀ r, review = Some r →
          r ∈ review_records w
          ∧ rr_extracted_record_id r = er_id extraction
          ∧ rr_field_id r = field_id field_def)
  ∧ ∃ row c,
      Review.document_row w template template_ref document = Some row
      ∧ Review.row_fields row !! field_id field_def = Some c
      ∧ Review.cell_extracted_value c = fr_raw_value extracted_field
      ∧ Review.cell_normalized_value c = fr_normalized_value extracted_field
      ∧ Review.cell_manual_value c = review ≫= manual_value
      ∧ Review.cell_final_value c
        = match review with
          | Some r =>
              match manual_value r with
              | Some (_ :: _) => manual_value r
              | _ => fr_normalized_value extracted_field
              end
          | None => fr_normalized_value extracted_field
          end
      ∧ Review.cell_review_status c
        = match review with
          | Some r => ReviewStatus.value (review_status r)
          | None => ReviewStatus.value ReviewStatus.PENDING
          end.
Proof.
  intros Hlatest Hstatus Hfields Hdef Hfind review. split_and!.
  - subst review. rewrite last_filter_none. split.
    + intros Hall r Hr [Hrec Hfid]. apply (Hall r); [|done].
      apply where_elem. split; [done|]. by apply N.eqb_eq.
    + intros Hall r [Hr Hrec%N.eqb_eq]%where_elem Hfid. by apply (Hall r).
  - intros r [[Hr Hrec%N.eqb_eq]%where_elem Hfid]%last_filter_some. done.
  - destruct (Review.document_fields w template template_ref document) as [cells|]
      eqn:Hcells.
    2: { apply document_fields_none in Hcells as (e & He & _ & Hnone & _).
         rewrite Hlatest in He. injection He as <-. congruence. }
    destruct (document_row_some _ _ _ _ _ Hcells) as (row & Hrow & <-).
    apply document_row_inv in Hrow as Hinv. destruct Hinv as (_ & _ & Hcells').
    destruct (completed_cell _ _ _ _ _ _ _ _ _ Hcells' Hlatest Hstatus Hfields Hdef Hfind)
      as (d & c & _ & _ & Hc & ->).
    exists row. eexists. split; [done|]. split; [exact Hc|].
    cbn [Review.extracted_cell Review.cell_final_value Review.cell_review_status
         Review.cell_extracted_value Review.cell_normalized_value
         Review.cell_manual_value].
    split_and!; [done..| |done].
    fold review. destruct review as [r|]; [|done].
    unfold Review.str_truthy. by destruct (manual_value r) as [[|??]|].
Qed.

Lemma document_row_final_value_witness :
  let party := plain_field "party" "Party" "TEXT" in
  let template := {| template_id := 2; template_fields := [party] |} in
  let document :=
    {| document_id := 5; document_project_id := 1; filename := str "lease.pdf";
       upload_status := UploadStatus.PARSED; parsed_text := Some (str "Acme leases");
       document_created_at := 10 |} in
  let result :=
    {| fr_field_id := str "party"; fr_raw_value := PStr (str " Acme");
       fr_normalized_value := Some (str "Acme"); fr_confidence_score := (9 # 10)%Q;
       fr_citations := PList [] |} in
  let extraction :=
    {| er_id := 9; er_document_id := 5; er_field_template_id := 2;
       extraction_status := ExtractionStatus.COMPLETED;
       extracted_fields := Some [result]; er_error_message := None;
       er_created_at := 20 |} in
  let review value :=
    {| rr_id := 11; rr_extracted_record_id := 9; rr_field_id := str "party";
       review_status := ReviewStatus.CONFIRMED;
       manual_value := value; reviewer_notes := None;
       reviewed_by := None |} in
  let w reviews :=
    {| projects := []; field_templates := [template]; documents := [document];
       extracted_records := [extraction]; review_records := reviews;
       queue := []; next_id := 12; now := 30; broker_up := true;
       autoflush := true |} in
  (∃ row c,
     Review.document_row (w [review (Some (str "Acme Ltd"))]) template 2 document
     = Some row
     ∧ Review.row_fields row !! str "party" = Some c
     ∧ Review.cell_final_value c = Some (str "Acme Ltd")
     ∧ Review.cell_review_status c = str "CONFIRMED")
  ∧ (∃ row c,
       Review.document_row (w [review (Some [])]) template 2 document = Some row
       ∧ Review.row_fields row !! str "party" = Some c
       ∧ Review.cell_final_value c = Some (str "Acme")
       ∧ Review.cell_review_status c = str "CONFIRMED")
  ∧ (∃ row c,
       Review.document_row (w []) template 2 document = Some row
       ∧ Review.row_fields row !! str "party" = Some c
       ∧ Review.cell_final_value c = Some (str "Acme")
       ∧ Review.cell_review_status c = str "PENDING").
Proof.
  intros party template document result extraction review w.
  split_and!.
  - destruct (document_row_final_value (w [review (Some (str "Acme Ltd"))]) template 2%N
                document extraction [result] party result)
      as (_ & _ & row & c & Hrow & Hc & _ & _ & _ & Hfinal & Hstatus);
      [by vm_compute|done|done|by left|by vm_compute|].
    exists row, c. by split_and!.
  - destruct (document_row_final_value (w [review (Some [])]) template 2%N
                document extraction [result] party result)
      as (_ & _ & row & c & Hrow & Hc & _ & _ & _ & Hfinal & Hstatus);
      [by vm_compute|done|done|by left|by vm_compute|].
    exists row, c. by split_and!.
  - destruct (document_row_final_value (w []) template 2%N
                document extraction [result] party result)
      as (_ & _ & row & c & Hrow & Hc & _ & _ & _ & Hfinal & Hstatus);
      [by vm_compute|done|done|by left|by vm_compute|].
    exists row, c. by split_and!.
Defined.

(** ** Outcomes of review submissions *)

Section ReviewOutcomes.
Import Db Review.
Implicit Types (d : ReviewRecordCreate) (r : ReviewRecord) (w : world).

Lemma field_missing_spec e fid :
  field_missing e fid = true ↔
  ∃ f fs, extracted_fields e = Some (f :: fs) ∧ fid ∉ fr_field_id <$> f :: fs.
Proof.
  unfold field_missing. destruct (extracted_fields e) as [[|f fs]|].
  - split; [done|]. by intros (? & ? & ? & _).
  - change (existsb _ (f :: fs)) with (Extractor.has_result (f :: fs) fid). split.
    + intros Hneg. exists f, fs. split; [done|].
      intros Hin%has_result_elem. by rewrite Hin in Hneg.
    + intros (f0 & fs0 & [= <- <-] & Hnot).
      destruct (Extractor.has_result (f :: fs) fid) eqn:Hhas; [|done].
      by apply has_result_elem in Hhas.
  - split; [done|]. by intros (? & ? & ? & _).
Qed.

Lemma with_reviews_same w : with_reviews w (review_records w) (next_id w) = w.
Proof. by destruct w. Qed.

End ReviewOutcomes.

(** The answers of a review submission.  It is refused with status 404
    exactly when no extracted record has the identifier, and with status
    400 exactly when the one record that has it holds results, none of
    them for the field: a record without results (null or empty) takes a
    review for any field, and the state of the extraction is not looked
    at.  A submission that is not accepted leaves the store as it is; an
    accepted one changes review records only, and the review it returns is
    stored under the submitted key. *)
Theorem create_review_record_outcomes (d : Review.ReviewRecordCreate) (w : world) :
  let result := Review.create_review_record d w in
  let found :=
    Db.where_ (λ e, (er_id e =? Review.rc_extracted_record_id d)%N) (extracted_records w) in
  (result.1 = HTTPException 404 ↔ found = [])
  ∧ (result.1 = HTTPException 400 ↔
       ∃ e f fs, found = [e] ∧ extracted_fields e = Some (f :: fs)
                 ∧ Review.rc_field_id d ∉ fr_field_id <$> f :: fs)
  ∧ ((∀ r, result.1 ≠ Response r) → result.2 = w)
  ∧ (∀ r, result.1 = Response r →
       r ∈ review_records result.2
       ∧ Review.review_key r = Review.submission_key d
       ∧ review_status r = Review.rc_review_status d
       ∧ result.2 = Review.with_reviews w (review_records result.2) (next_id result.2)).
Proof.
  intros result found. subst result. unfold Review.create_review_record. fold found.
  destruct found as [|e [|e' found']] eqn:Hfound; simpl.
  - split_and!; [done| |done|done].
    split; [done|]. by intros (? & ? & ? & ? & _).
  - destruct (Review.field_missing e (Review.rc_field_id d)) eqn:Hmissing; simpl.
    + apply field_missing_spec in Hmissing as (f & fs & Hfields & Hnot).
      split_and!; [done| |done|done].
      split; [intros _; by exists e, f, fs|done].
    + assert (¬ ∃ e0 f fs, [e] = [e0] ∧ extracted_fields e0 = Some (f :: fs)
                            ∧ Review.rc_field_id d ∉ fr_field_id <$> f :: fs) as Hnot.
      { intros (e0 & f & fs & [= <-] & Hfields & Hnotin).
        assert (Review.field_missing e (Review.rc_field_id d) = true) as Habs
          by (apply field_missing_spec; by exists f, fs).
        congruence. }
      rewrite where_same_key.
      destruct (filter _ (review_records w)) as [|existing [|??]] eqn:Hf; simpl.
      * split_and!; [done|done|by intros H; destruct (H _ eq_refl)|].
        intros r [= <-]. split_and!; [set_solver|done|done|done].
      * assert (existing ∈ filter (λ r, Review.review_key r = Review.submission_key d)
                             (review_records w)) as Hin by (rewrite Hf; by left).
        apply list_elem_of_filter in Hin as [Hkey Hin].
        split_and!; [done|done|by intros H; destruct (H _ eq_refl)|].
        intros r [= <-]. split_and!; [|done|done|done].
        unfold Review.update_rows. apply list_elem_of_fmap. exists existing.
        split; [|done]. by rewrite (proj2 (same_key_spec d existing) Hkey).
      * split_and!; [done|done|done|done].
  - split_and!; [done| |done|done].
    split; [done|]. by intros (? & ? & ? & ? & _).
Qed.

Section BulkCounts.
Import Db Review.

(** The counters of a session. *)
Lemma bulk_step_counts auto s d :
  let s' := bulk_step auto s d in
  (created_count s' + updated_count s' + length (errors s')
   = S (created_count s + updated_count s + length (errors s)))%nat
  ∧ (length (rows s' ++ pending s') + created_count s
     = length (rows s ++ pending s) + created_count s')%nat.
Proof.
  unfold bulk_step.
  assert (length (rows (if auto then flush s else s)
                  ++ pending (if auto then flush s else s))
          = length (rows s ++ pending s)) as Hflush.
  { destruct auto; [|done]. simpl. by rewrite app_nil_r. }
  assert (created_count (if auto then flush s else s) = created_count s
          ∧ updated_count (if auto then flush s else s) = updated_count s
          ∧ errors (if auto then flush s else s) = errors s) as (Hc & Hu & He).
  { by destruct auto. }
  destruct (scalar_one_or_none _); simpl; rewrite ?Hc, ?Hu, ?He.
  - split; [lia|]. rewrite app_assoc, length_app, Hflush. simpl. lia.
  - split; [lia|]. rewrite length_app in *. unfold update_rows.
    rewrite length_fmap. lia.
  - split; [rewrite length_app; simpl; lia|]. lia.
Qed.

Lemma bulk_fold_counts auto data s :
  let s' := foldl (bulk_step auto) s data in
  (created_count s' + updated_count s' + length (errors s')
   = length data + (created_count s + updated_count s + length (errors s)))%nat
  ∧ (length (rows s' ++ pending s') + created_count s
     = length (rows s ++ pending s) + created_count s')%nat.
Proof.
  revert s. induction data as [|d data IH]; intros s; simpl; [lia|].
  destruct (IH (bulk_step auto s d)) as [Hcount Hrows].
  destruct (bulk_step_counts auto s d) as [Hcount1 Hrows1]. simpl in *. lia.
Qed.

(** With a session that flushes, a turn on rows without two reviews under
    one key reports no error. *)
Lemma bulk_fold_no_errors data s :
  session_unique s → errors s = [] →
  errors (foldl (bulk_step true) s data) = [].
Proof.
  revert s. induction data as [|d data IH]; intros s Hinv Herrors; [done|].
  cbn [foldl]. apply IH.
  - by destruct (bulk_step_unique true s d data Hinv) as [? _]; [by left|].
  - unfold session_unique in Hinv.
    assert (unique_reviews (rows (flush s))) as Hinv0 by done.
    pose proof (filter_key_unique d _ Hinv0) as Hlen.
    unfold bulk_step. rewrite where_same_key.
    destruct (filter _ (rows (flush s))) as [|existing [|??]]; simpl in *; [done|done|lia].
Qed.

End BulkCounts.

(** A bulk submission that answers has counted every item once, as
    created, as updated or as an error; the store has as many more reviews
    as it counts as created, and nothing but review records has changed.
    With a session that flushes before its queries, and a store that has
    at most one review per key, there are no errors. *)
Theorem bulk_create_reviews_counts (data : list Review.ReviewRecordCreate)
    (w w' : world) (body : Review.bulk_response) :
  Review.bulk_create_reviews data w = (Response body, w') →
  Review.br_total body = length data
  ∧ (Review.br_created body + Review.br_updated body + length (Review.br_errors body)
     = length data)%nat
  ∧ (length (review_records w') = length (review_records w) + Review.br_created body)%nat
  ∧ w' = Review.with_reviews w (review_records w') (next_id w')
  ∧ (Review.unique_reviews (review_records w) → autoflush w = true →
     Review.br_errors body = []).
Proof.
  unfold Review.bulk_create_reviews.
  set (start := {| Review.rows := review_records w; Review.pending := [];
                   Review.fresh := next_id w; Review.created_count := 0;
                   Review.updated_count := 0; Review.errors := [] |}).
  destruct (bulk_fold_counts (autoflush w) data start) as [Hcount Hrows].
  destruct (forallb _ _); [|done]. intros [= <- <-]. simpl in *.
  rewrite app_nil_r in Hrows. split_and!; [done|lia|lia|done|].
  intros Hinv Hauto. rewrite Hauto. apply bulk_fold_no_errors; [|done].
  unfold Review.session_unique. simpl. by rewrite app_nil_r.
Qed.

Lemma bulk_create_reviews_counts_witness :
  let extraction :=
    {| er_id := 9; er_document_id := 5; er_field_template_id := 2;
       extraction_status := ExtractionStatus.COMPLETED;
       extracted_fields := Some []; er_error_message := None; er_created_at := 20 |} in
  let review :=
    {| rr_id := 11; rr_extracted_record_id := 9; rr_field_id := str "party";
       review_status := ReviewStatus.PENDING;
       manual_value := None; reviewer_notes := None; reviewed_by := None |} in
  let submission fid :=
    {| Review.rc_extracted_record_id := 9; Review.rc_field_id := str fid;
       Review.rc_review_status := ReviewStatus.CONFIRMED;
       Review.rc_manual_value := None; Review.rc_reviewer_notes := None |} in
  let w :=
    {| projects := []; field_templates := []; documents := [];
       extracted_records := [extraction]; review_records := [review];
       queue := []; next_id := 12; now := 30; broker_up := true;
       autoflush := true |} in
  ∃ body w',
    Review.bulk_create_reviews [submission "party"; submission "date"; submission "date"] w
    = (Response body, w')
    ∧ Review.br_total body = 3%nat
    ∧ length (review_records w') = 2%nat.
Proof.
  intros extraction review submission w.
  destruct (Review.bulk_create_reviews
              [submission "party"; submission "date"; submission "date"] w)
    as [[body| |] w'] eqn:Hrun; [|by vm_compute in Hrun..].
  destruct (bulk_create_reviews_counts _ w w' body Hrun) as (Htotal & _ & Hlen & _).
  exists body, w'. split_and!; [done|exact Htotal|].
  rewrite Hlen. vm_compute in Hrun. by injection Hrun as <- _.
Defined.

Section BulkSingle.
Import Db Review.

Lemma references_record_spec w r :
  references_record w r = true ↔
  where_ (λ e, (er_id e =? rr_extracted_record_id r)%N) (extracted_records w) ≠ [].
Proof.
  unfold references_record, where_.
  induction (extracted_records w) as [|e records IH]; simpl; [done|].
  destruct (er_id e =? rr_extracted_record_id r)%N; simpl; [done|]. apply IH.
Qed.

(** The answer of the bulk endpoint for one submission, by what the query
    for the review of its key finds. *)
Lemma bulk_single d w :
  bulk_create_reviews [d] w
  = match scalar_one_or_none (where_ (same_key d) (review_records w)) with
    | NoRow =>
        if forallb (references_record w)
             (review_records w ++ [created (next_id w) d])
        then (Response {| br_created := 1; br_updated := 0; br_total := 1;
                          br_errors := [] |},
              with_reviews w (review_records w ++ [created (next_id w) d])
                (N.succ (next_id w)))
        else (Unhandled, w)
    | OneRow _ =>
        if forallb (references_record w) (update_rows d (review_records w))
        then (Response {| br_created := 0; br_updated := 1; br_total := 1;
                          br_errors := [] |},
              with_reviews w (update_rows d (review_records w)) (next_id w))
        else (Unhandled, w)
    | MultipleResultsFound =>
        if forallb (references_record w) (review_records w)
        then (Response {| br_created := 0; br_updated := 0; br_total := 1;
                          br_errors := [d] |},
              with_reviews w (review_records w) (next_id w))
        else (Unhandled, w)
    end.
Proof.
  unfold bulk_create_reviews. cbn [foldl]. unfold bulk_step.
  assert (rows (if autoflush w
                then flush {| rows := review_records w; pending := [];
                              fresh := next_id w; created_count := 0;
                              updated_count := 0; errors := [] |}
                else {| rows := review_records w; pending := [];
                        fresh := next_id w; created_count := 0;
                        updated_count := 0; errors := [] |})
          = review_records w) as Hrows.
  { destruct (autoflush w); simpl; [apply app_nil_r|done]. }
  destruct (autoflush w); simpl in *; rewrite ?app_nil_r;
    destruct (scalar_one_or_none _); simpl; by rewrite ?app_nil_r.
Qed.

Lemma update_rows_references d w :
  forallb (references_record w) (review_records w) = true →
  forallb (references_record w) (update_rows d (review_records w)) = true.
Proof.
  rewrite !forallb_forall. intros Hall r Hr. unfold update_rows in Hr.
  apply list_elem_of_In, list_elem_of_fmap in Hr as (r0 & -> & Hr0%list_elem_of_In).
  specialize (Hall r0 Hr0). by destruct (same_key d r0).
Qed.

End BulkSingle.

(** The bulk endpoint on one submission against the single endpoint, on a
    store whose reviews all belong to an extracted record.  What the
    single endpoint accepts, the bulk endpoint accepts with the same effect
    on the store.  What the single endpoint refuses with status 400, a
    field the extraction has no result for, the bulk endpoint accepts: it
    does not look at the extracted record.  What the single endpoint
    refuses with status 404, the bulk endpoint cannot commit: it fails
    without an answer of its own, and stores nothing. *)
Theorem bulk_single_vs_create (d : Review.ReviewRecordCreate) (w : world) :
  forallb (Review.references_record w) (review_records w) = true →
  (∀ r w', Review.create_review_record d w = (Response r, w') →
     ∃ body, Review.bulk_create_reviews [d] w = (Response body, w')
             ∧ (Review.br_created body + Review.br_updated body = 1)%nat
             ∧ Review.br_errors body = [])
  ∧ (Review.create_review_record d w = (HTTPException 400, w) →
     ∃ body w', Review.bulk_create_reviews [d] w = (Response body, w')
                ∧ Review.br_total body = 1%nat)
  ∧ (Review.create_review_record d w = (HTTPException 404, w) →
     Review.bulk_create_reviews [d] w = (Unhandled, w)).
Proof.
  intros Hrefs.
  assert (∀ e, Db.where_ (λ e, (er_id e =? Review.rc_extracted_record_id d)%N)
                 (extracted_records w) = [e] →
               forallb (Review.references_record w)
                 (review_records w ++ [Review.created (next_id w) d]) = true) as Hcreated.
  { intros e He. rewrite forallb_app, Hrefs. simpl. rewrite andb_true_r.
    apply references_record_spec. simpl. by rewrite He. }
  rewrite bulk_single. unfold Review.create_review_record. split_and!.
  - intros r w'.
    destruct (Db.scalar_one_or_none (Db.where_ _ (extracted_records w)))
      as [|e|] eqn:Hfound; [done| |done].
    apply scalar_one_elem in Hfound.
    destruct (Review.field_missing _ _); [done|].
    destruct (Db.scalar_one_or_none (Db.where_ _ (review_records w))); [| |done].
    + intros [= <- <-]. rewrite (Hcreated e Hfound). by eexists.
    + intros [= <- <-]. rewrite update_rows_references by done. by eexists.
  - destruct (Db.scalar_one_or_none (Db.where_ _ (extracted_records w)))
      as [|e|] eqn:Hfound; [done| |done].
    apply scalar_one_elem in Hfound. intros _.
    destruct (Db.scalar_one_or_none (Db.where_ _ (review_records w))).
    + rewrite (Hcreated e Hfound). by eexists _, _.
    + rewrite update_rows_references by done. by eexists _, _.
    + rewrite Hrefs. by eexists _, _.
  - destruct (Db.scalar_one_or_none (Db.where_ _ (extracted_records w)))
      as [|e|] eqn:Hfound; [| |done].
    2: { destruct (Review.field_missing _ _); [done|].
         destruct (Db.scalar_one_or_none (Db.where_ (Review.same_key d) _));
           intros ?; by simplify_eq. }
    intros _.
    assert (Db.where_ (λ e, (er_id e =? Review.rc_extracted_record_id d)%N)
              (extracted_records w) = []) as Hnone.
    { by destruct (Db.where_ _ (extracted_records w)) as [|? [|??]]. }
    assert (Db.where_ (Review.same_key d) (review_records w) = []) as Hnoreview.
    { destruct (Db.where_ _ (review_records w)) as [|r rest] eqn:Hr; [done|].
      assert (r ∈ Db.where_ (Review.same_key d) (review_records w)) as Hin
        by (rewrite Hr; by left).
      apply where_elem in Hin as [Hin [Hid%N.eqb_eq _]%andb_true_iff].
      rewrite forallb_forall in Hrefs.
      specialize (Hrefs r (proj1 (list_elem_of_In _ _) Hin)).
      apply references_record_spec in Hrefs. by rewrite Hid, Hnone in Hrefs. }
    rewrite Hnoreview. simpl.
    rewrite forallb_app, Hrefs. simpl. rewrite andb_true_r.
    destruct (Review.references_record w (Review.created (next_id w) d)) eqn:Href; [|done].
    apply references_record_spec in Href. simpl in Href. by rewrite Hnone in Href.
Qed.

Lemma bulk_single_vs_create_witness :
  let result :=
    {| fr_field_id := str "party"; fr_raw_value := PStr (str "Acme");
       fr_normalized_value := Some (str "Acme"); fr_confidence_score := 1%Q;
       fr_citations := PList [] |} in
  let extraction :=
    {| er_id := 9; er_document_id := 5; er_field_template_id := 2;
       extraction_status := ExtractionStatus.COMPLETED;
       extracted_fields := Some [result]; er_error_message := None;
       er_created_at := 20 |} in
  let submission :=
    {| Review.rc_extracted_record_id := 9; Review.rc_field_id := str "fee";
       Review.rc_review_status := ReviewStatus.CONFIRMED;
       Review.rc_manual_value := Some (str "7"); Review.rc_reviewer_notes := None |} in
  let w :=
    {| projects := []; field_templates := []; documents := [];
       extracted_records := [extraction]; review_records := [];
       queue := []; next_id := 12; now := 30; broker_up := true;
       autoflush := true |} in
  Review.create_review_record submission w = (HTTPException 400, w)
  ∧ ∃ body w', Review.bulk_create_reviews [submission] w = (Response body, w')
               ∧ Review.br_total body = 1%nat.
Proof.
  intros result extraction submission w.
  assert (Review.create_review_record submission w = (HTTPException 400, w)) as Hsingle
    by by vm_compute.
  split; [exact Hsingle|].
  destruct (bulk_single_vs_create submission w) as (_ & Hbulk & _); [reflexivity|].
  exact (Hbulk Hsingle).
Defined.

Section ReviewThenTable.
Import Db Review.

Lemma create_review_record_frame d w :
  (create_review_record d w).2
  = with_reviews w (review_records (create_review_record d w).2)
      (next_id (create_review_record d w).2).
Proof.
  unfold create_review_record.
  destruct (scalar_one_or_none (where_ _ (extracted_records w)));
    simpl; [by rewrite with_reviews_same| |by rewrite with_reviews_same].
  destruct (field_missing _ _); simpl; [by rewrite with_reviews_same|].
  destruct (scalar_one_or_none (where_ (same_key d) _)); simpl;
    [done|done|by rewrite with_reviews_same].
Qed.

(** The reviews of a record for a field are the reviews under the key. *)
Lemma filter_field_of_record rid fid (rows : list ReviewRecord) :
  filter (λ r, rr_field_id r = fid)
    (where_ (λ r, (rr_extracted_record_id r =? rid)%N) rows)
  = filter (λ r, review_key r = (rid, fid)) rows.
Proof.
  unfold where_, review_key. induction rows as [|r rows IH]; [done|].
  cbn [List.filter]. destruct (N.eqb_spec (rr_extracted_record_id r) rid) as [Hrid|Hrid].
  - rewrite !filter_cons, IH. destruct (decide (rr_field_id r = fid)) as [Hfid|Hfid].
    + by rewrite decide_True by congruence.
    + by rewrite decide_False by congruence.
  - rewrite filter_cons, IH. by rewrite decide_False by congruence.
Qed.

Lemma latest_extraction_elem w document template_ref extraction :
  latest_extraction w document template_ref = OneRow extraction →
  extraction ∈ extracted_records w.
Proof.
  unfold latest_extraction, limit. intros Hlatest.
  assert (extraction ∈ order_by_desc er_created_at
            (where_ (λ e, (er_document_id e =? document_id document)%N
                          && (er_field_template_id e =? template_ref)%N)
                    (extracted_records w))) as Hin.
  { destruct (order_by_desc _ _) as [|e [|e' rest]]; simpl in Hlatest;
      [done|injection Hlatest as ->; by left|injection Hlatest as ->; by left]. }
  unfold order_by_desc in Hin. by apply elem_of_order_by_asc, where_elem in Hin as [? _].
Qed.

(** A submission is accepted for a record that has no results, or has
    one for the field. *)
Lemma create_review_record_accepts d w r w' e :
  create_review_record d w = (Response r, w') →
  e ∈ extracted_records w → er_id e = rc_extracted_record_id d →
  field_missing e (rc_field_id d) = false.
Proof.
  unfold create_review_record. intros Hsubmit He Hid.
  destruct (scalar_one_or_none _) as [|found|] eqn:Hfound; [done| |done].
  apply scalar_one_elem in Hfound.
  assert (e ∈ where_ (λ e, (er_id e =? rc_extracted_record_id d)%N) (extracted_records w))
    as Hin by (apply where_elem; split; [done|by apply N.eqb_eq]).
  rewrite Hfound in Hin. apply list_elem_of_singleton in Hin as ->.
  by destruct (field_missing found (rc_field_id d)).
Qed.

Lemma find_none_existsb {A} (p : A → bool) (l : list A) :
  find p l = None → existsb p l = false.
Proof. induction l as [|x l IH]; simpl; [done|]. by destruct (p x). Qed.

End ReviewThenTable.

(** What a reviewer submits is what the row then shows.  After an
    accepted submission, on a store with at most one review per key, the
    row of a document whose latest extraction is the reviewed record, is
    COMPLETED and holds extracted fields, has a cell for the submitted
    field, if it is a field of the template, with the submitted manual
    value.  When the extraction has a result for the field, the cell has
    the submitted status, and its final value is the submitted manual
    value when that is not empty and the result's normalized value
    otherwise.  When it has none, which an accepted submission allows only
    for an extraction with an empty list of results, the cell says
    MISSING_DATA and its final value is the submitted manual value. *)
Theorem submitted_review_in_row (d : Review.ReviewRecordCreate) (w w' : world)
    (r : ReviewRecord) (template : FieldTemplate) (template_ref : uuid)
    (document : Document) (extraction : ExtractedRecord)
    (fields : list field_result) (field_def : field_definition) :
  Review.unique_reviews (review_records w) →
  Review.create_review_record d w = (Response r, w') →
  Review.latest_extraction w document template_ref = Db.OneRow extraction →
  er_id extraction = Review.rc_extracted_record_id d →
  extraction_status extraction = ExtractionStatus.COMPLETED →
  extracted_fields extraction = Some fields →
  field_def ∈ template_fields template →
  field_id field_def = Review.rc_field_id d →
  ∃ row c,
    Review.document_row w' template template_ref document = Some row
    ∧ Review.row_fields row !! Review.rc_field_id d = Some c
    ∧ Review.cell_manual_value c = Review.rc_manual_value d
    ∧ match find (λ f, Py.str_eqb (fr_field_id f) (Review.rc_field_id d)) fields with
      | Some f =>
          Review.cell_review_status c = ReviewStatus.value (Review.rc_review_status d)
          ∧ Review.cell_final_value c
            = (if Review.str_truthy (Review.rc_manual_value d)
               then Review.rc_manual_value d
               else fr_normalized_value f)
      | None =>
          fields = []
          ∧ Review.cell_review_status c = ReviewStatus.value ReviewStatus.MISSING_DATA
          ∧ Review.cell_final_value c = Review.rc_manual_value d
      end.
Proof.
  intros Hinv Hsubmit Hlatest Hrid Hcompleted Hfields Hdef Hfid.
  destruct (create_review_record_spec d w r w' Hinv Hsubmit)
    as (_ & Hstored & Hstatus & Hmanual & _).
  pose proof (create_review_record_frame d w) as Hframe.
  rewrite Hsubmit in Hframe. simpl in Hframe.
  assert (extracted_records w' = extracted_records w) as Hsame by (by rewrite Hframe).
  assert (Review.latest_extraction w' document template_ref = Db.OneRow extraction)
    as Hlatest'.
  { unfold Review.latest_extraction in *. by rewrite Hsame. }
  pose proof (create_review_record_accepts d w r w' extraction Hsubmit
                (latest_extraction_elem _ _ _ _ Hlatest) Hrid) as Haccepted.
  destruct (completed_cells_lookup fields
              (Review.reviews_by_field
                 (Db.where_ (λ r, (rr_extracted_record_id r =? er_id extraction)%N)
                            (review_records w')))
              (template_fields template) ∅) as (cells & Hrun & Hlookup).
  assert (Review.document_fields w' template template_ref document = Some cells) as Hcells.
  { unfold Review.document_fields.
    by rewrite Hlatest', bool_decide_true, Hfields by done. }
  destruct (document_row_some _ _ _ _ _ Hcells) as (row & Hrow & Hrf).
  destruct (Hlookup (Review.rc_field_id d)) as [[_ Hnot]|(d' & Hd' & Hdid & Hcell)].
  { destruct Hnot. apply list_elem_of_fmap. eauto. }
  exists row. eexists. split; [done|]. split; [rewrite Hrf; exact Hcell|].
  assert (Review.reviews_by_field
            (Db.where_ (λ r, (rr_extracted_record_id r =? er_id extraction)%N)
                       (review_records w')) !! field_id d' = Some r) as Hreview.
  { rewrite reviews_by_field_lookup, filter_field_of_record, Hdid, Hrid.
    change (Review.rc_extracted_record_id d, Review.rc_field_id d)
      with (Review.submission_key d).
    by rewrite Hstored. }
  unfold Review.cell_of. rewrite Hreview, Hdid.
  destruct (find _ fields) as [f|] eqn:Hfind; simpl; rewrite Hmanual, ?Hstatus.
  - done.
  - split_and!; [done| |done|done].
    unfold Review.field_missing in Haccepted. rewrite Hfields in Haccepted.
    destruct fields as [|f fs]; [done|].
    apply find_none_existsb in Hfind. by rewrite Hfind in Haccepted.
Qed.

Lemma submitted_review_in_row_witness :
  let party := plain_field "party" "Party" "TEXT" in
  let template := {| template_id := 2; template_fields := [party] |} in
  let document :=
    {| document_id := 5; document_project_id := 1; filename := str "lease.pdf";
       upload_status := UploadStatus.PARSED; parsed_text := Some (str "Acme leases");
       document_created_at := 10 |} in
  let result :=
    {| fr_field_id := str "party"; fr_raw_value := PStr (str " Acme");
       fr_normalized_value := Some (str "Acme"); fr_confidence_score := (9 # 10)%Q;
       fr_citations := PList [] |} in
  let extraction fields :=
    {| er_id := 9; er_document_id := 5; er_field_template_id := 2;
       extraction_status := ExtractionStatus.COMPLETED;
       extracted_fields := Some fields; er_error_message := None;
       er_created_at := 20 |} in
  let submission :=
    {| Review.rc_extracted_record_id := 9; Review.rc_field_id := str "party";
       Review.rc_review_status := ReviewStatus.MANUAL_UPDATED;
       Review.rc_manual_value := Some (str "Acme Ltd");
       Review.rc_reviewer_notes := None |} in
  let w fields :=
    {| projects := []; field_templates := [template]; documents := [document];
       extracted_records := [extraction fields]; review_records := [];
       queue := []; next_id := 12; now := 30; broker_up := true;
       autoflush := true |} in
  (∃ r w' row c,
     Review.create_review_record submission (w [result]) = (Response r, w')
     ∧ Review.document_row w' template 2 document = Some row
     ∧ Review.row_fields row !! str "party" = Some c
     ∧ Review.cell_review_status c = str "MANUAL_UPDATED"
     ∧ Review.cell_final_value c = Some (str "Acme Ltd"))
  ∧ (∃ r w' row c,
       Review.create_review_record submission (w []) = (Response r, w')
       ∧ Review.document_row w' template 2 document = Some row
       ∧ Review.row_fields row !! str "party" = Some c
       ∧ Review.cell_review_status c = str "MISSING_DATA"
       ∧ Review.cell_final_value c = Some (str "Acme Ltd")).
Proof.
  intros party template document result extraction submission w.
  assert (∀ fields, Review.unique_reviews (review_records (w fields))) as Hinv
    by (intros; apply NoDup_nil_2).
  split.
  - destruct (Review.create_review_record submission (w [result])) as [[r| |] w'] eqn:Hsubmit;
      [|by vm_compute in Hsubmit..].
    destruct (submitted_review_in_row submission (w [result]) w' r template 2%N document
                (extraction [result]) [result] party (Hinv _) Hsubmit)
      as (row & c & Hrow & Hc & _ & Hcase);
      [by vm_compute|done|done|done|by left|done|].
    destruct Hcase as [Hstatus Hfinal].
    exists r, w', row, c. split_and!; [done|done|exact Hc|exact Hstatus|exact Hfinal].
  - destruct (Review.create_review_record submission (w [])) as [[r| |] w'] eqn:Hsubmit;
      [|by vm_compute in Hsubmit..].
    destruct (submitted_review_in_row submission (w []) w' r template 2%N document
                (extraction []) [] party (Hinv _) Hsubmit)
      as (row & c & Hrow & Hc & _ & Hcase);
      [by vm_compute|done|done|done|by left|done|].
    destruct Hcase as (_ & Hstatus & Hfinal).
    exists r, w', row, c. split_and!; [done|done|exact Hc|exact Hstatus|exact Hfinal].
Defined.

(** ** More on the field normalizer *)

Section StripFacts.

Lemma lstrip_idemp (s : pystr) : Py.lstrip (Py.lstrip s) = Py.lstrip s.
Proof.
  induction s as [|c s IH]; [done|]. simpl.
  destruct (Py.isspace c) eqn:Hc; [done|]. simpl. by rewrite Hc.
Qed.

Lemma lstrip_suffix (s : pystr) : ∃ pre, s = pre ++ Py.lstrip s ∧ Forall (λ c, Py.isspace c = true) pre.
Proof.
  induction s as [|c s IH]; [by exists []|]. simpl.
  destruct (Py.isspace c) eqn:Hc.
  - destruct IH as (pre & Hs & Hpre). exists (c :: pre). split; [by rewrite Hs at 1|].
    by constructor.
  - by exists [].
Qed.

Lemma lstrip_head (s : pystr) :
  match Py.lstrip s with
  | [] => True
  | c :: _ => Py.isspace c = false
  end.
Proof.
  induction s as [|c s IH]; [done|]. simpl.
  destruct (Py.isspace c) eqn:Hc; [done|]. done.
Qed.

Lemma lstrip_fixed (s : pystr) c : Py.isspace c = false → Py.lstrip (c :: s) = c :: s.
Proof. intros Hc. simpl. by rewrite Hc. Qed.

Lemma rstrip_snoc_space (s : pystr) c :
  Py.isspace c = true → Py.rstrip (s ++ [c]) = Py.rstrip s.
Proof.
  intros Hc. unfold Py.rstrip. rewrite reverse_app. simpl. by rewrite Hc.
Qed.

Lemma rstrip_snoc (s : pystr) c :
  Py.isspace c = false → Py.rstrip (s ++ [c]) = s ++ [c].
Proof.
  intros Hc. unfold Py.rstrip. rewrite reverse_app. simpl. rewrite Hc.
  change (c :: reverse s) with ([c] ++ reverse s).
  by rewrite reverse_app, reverse_involutive.
Qed.

(** Right-stripping stops at a character that is not white space. *)
Lemma rstrip_app_cons (a b : pystr) c :
  Py.isspace c = false → Py.rstrip (a ++ c :: b) = a ++ c :: Py.rstrip b.
Proof.
  intros Hc. induction b as [|x b IH] using rev_ind.
  - change (Py.rstrip []) with (@nil ascii). by apply rstrip_snoc.
  - destruct (Py.isspace x) eqn:Hx.
    + rewrite rstrip_snoc_space by done.
      replace (a ++ c :: b ++ [x]) with ((a ++ c :: b) ++ [x]) by by rewrite <-app_assoc.
      by rewrite rstrip_snoc_space.
    + rewrite (rstrip_snoc b) by done.
      replace (a ++ c :: b ++ [x]) with ((a ++ c :: b) ++ [x]) by by rewrite <-app_assoc.
      by rewrite rstrip_snoc.
Qed.

Lemma rstrip_cons (b : pystr) c :
  Py.isspace c = false → Py.rstrip (c :: b) = c :: Py.rstrip b.
Proof. apply (rstrip_app_cons [] b c). Qed.

Lemma rstrip_prefix (s : pystr) :
  ∃ post, s = Py.rstrip s ++ post ∧ Forall (λ c, Py.isspace c = true) post.
Proof.
  induction s as [|x s IH] using rev_ind; [by exists []|].
  destruct (Py.isspace x) eqn:Hx.
  - rewrite rstrip_snoc_space by done. destruct IH as (post & Hs & Hpost).
    exists (post ++ [x]). split; [by rewrite app_assoc, <-Hs|].
    apply Forall_app. split; [done|by constructor].
  - rewrite rstrip_snoc by done. exists []. by rewrite app_nil_r.
Qed.

(** A text that begins and ends with characters that are not white space
    is its own stripped text. *)
Lemma strip_fixed (s : pystr) c c' mid :
  s = c :: mid → (∃ pre, s = pre ++ [c']) →
  Py.isspace c = false → Py.isspace c' = false → Py.strip s = s.
Proof.
  intros -> [pre Hpre] Hc Hc'. unfold Py.strip. rewrite lstrip_fixed by done.
  rewrite Hpre. by apply rstrip_snoc.
Qed.

Lemma rstrip_last (s pre : pystr) c :
  Py.rstrip s = pre ++ [c] → Py.isspace c = false.
Proof.
  unfold Py.rstrip. intros Hs.
  assert (Py.lstrip (reverse s) = c :: reverse pre) as Hl.
  { rewrite <-(reverse_involutive (Py.lstrip (reverse s))), Hs, reverse_app. done. }
  pose proof (lstrip_head (reverse s)) as Hhead. by rewrite Hl in Hhead.
Qed.

(** The stripped text is a part of the text, and, when it is not empty,
    begins and ends with a character that is not white space. *)
Lemma strip_spec (s : pystr) :
  (∃ pre post, s = pre ++ Py.strip s ++ post)
  ∧ (Py.strip s ≠ [] →
     ∃ c c' mid pre, Py.strip s = c :: mid ∧ Py.strip s = pre ++ [c']
                     ∧ Py.isspace c = false ∧ Py.isspace c' = false).
Proof.
  unfold Py.strip. destruct (lstrip_suffix s) as (pre & Hs & _).
  destruct (rstrip_prefix (Py.lstrip s)) as (post & Hl & _).
  split.
  - exists pre, post. by rewrite <-Hl.
  - intros Hne. pose proof (lstrip_head s) as Hhead.
    destruct (Py.lstrip s) as [|c rest] eqn:Hls; [done|].
    rewrite (rstrip_cons rest c) in * by done.
    destruct (exists_last (l := c :: Py.rstrip rest)) as (pre' & c' & Hlast); [done|].
    exists c, c', (Py.rstrip rest), pre'. split_and!; [done|done|done|].
    eapply (rstrip_last (c :: rest) pre' c').
    by rewrite (rstrip_cons rest c).
Qed.

Lemma strip_idemp (s : pystr) : Py.strip (Py.strip s) = Py.strip s.
Proof.
  destruct (strip_spec s) as [_ Hends].
  destruct (Py.strip s) as [|c rest] eqn:Hs; [done|].
  destruct Hends as (c1 & c' & mid & pre & Hhead & Hlast & Hc & Hc'); [done|].
  injection Hhead as <- <-. by eapply strip_fixed; [done|eexists|done..].
Qed.

End StripFacts.

Section ListFacts.
Import Re Extractor.

(** The separators of a LIST value. *)
Abbreviation sep := (one_of (str ",;")).

Lemma sep_spec c : sep c = true ↔ c = ","%char ∨ c = ";"%char.
Proof.
  unfold one_of, Py.ch_eqb. simpl. rewrite !orb_true_iff, !Ascii.eqb_eq. naive_solver.
Qed.

Lemma contains_single (c : ascii) (s : pystr) : Py.contains [c] s = true ↔ c ∈ s.
Proof.
  induction s as [|x s IH]; simpl.
  - split; [done|by intros ?%elem_of_nil].
  - rewrite orb_true_iff, IH, elem_of_cons. unfold Py.ch_eqb.
    rewrite andb_true_r, Ascii.eqb_eq. naive_solver.
Qed.

Lemma has_separator (s : pystr) :
  Py.contains (str ",") s || Py.contains (str ";") s = true ↔ Exists (λ c, sep c = true) s.
Proof.
  change (str ",") with [","%char]. change (str ";") with [";"%char].
  rewrite orb_true_iff, !contains_single, Exists_exists.
  setoid_rewrite sep_spec. naive_solver.
Qed.

Lemma split_class_free (p : ascii → bool) (s : pystr) :
  Forall (λ c, p c = false) s → split_class p s = [s].
Proof.
  induction 1 as [|c s Hc Hs IH]; [done|]. simpl. by rewrite Hc, IH.
Qed.

Lemma split_class_cons_free (p : ascii → bool) c (s : pystr) :
  p c = false →
  ∃ item items, split_class p s = item :: items
                ∧ split_class p (c :: s) = (c :: item) :: items.
Proof.
  intros Hc. simpl. rewrite Hc.
  destruct (split_class p s) as [|item items] eqn:Hs; [|by eexists _, _].
  by destruct s as [|x s]; simpl in Hs; [|destruct (p x), (split_class p s)].
Qed.

Lemma split_class_app (p : ascii → bool) (x rest : pystr) c :
  Forall (λ c, p c = false) x → p c = true →
  split_class p (x ++ c :: rest) = x :: split_class p rest.
Proof.
  intros Hx Hc. induction Hx as [|y x Hy Hx IH]; simpl; [by rewrite Hc|].
  by rewrite Hy, IH.
Qed.

(** Every item of a split is free of separators. *)
Lemma split_class_items (p : ascii → bool) (s : pystr) :
  Forall (Forall (λ c, p c = false)) (split_class p s).
Proof.
  induction s as [|c s IH]; simpl; [by repeat constructor|].
  destruct (p c) eqn:Hc; [by constructor|].
  destruct (split_class p s) as [|item items]; [by repeat constructor|].
  apply Forall_cons in IH as [Hitem Hitems]. by repeat constructor.
Qed.

(** Splitting what [", ".join] made of items without separators. *)
Lemma split_join (x : pystr) (items : list pystr) :
  Forall (Forall (λ c, sep c = false)) (x :: items) →
  split_class sep (Py.join (str ", ") (x :: items))
  = x :: ((λ item, " "%char :: item) <$> items).
Proof.
  revert x. induction items as [|y items IH]; intros x [Hx Hitems]%Forall_cons.
  - by apply split_class_free.
  - change (Py.join (str ", ") (x :: y :: items))
      with (x ++ ","%char :: " "%char :: Py.join (str ", ") (y :: items)).
    rewrite split_class_app by done.
    destruct (split_class_cons_free sep " " (Py.join (str ", ") (y :: items)))
      as (item & rest & Hsplit & ->); [done|].
    rewrite IH in Hsplit by done. by injection Hsplit as <- <-.
Qed.

(** The LIST branch, for a raw value that is a string. *)
Lemma normalize_list_unfold (raw : pystr) strategy :
  _normalize_value (PStr raw) FieldType.LIST strategy
  = if Py.str_eqb raw (str "null") then None
    else if negb (nonempty (Py.strip raw)) then None
    else if Py.contains (str ",") (Py.strip raw) || Py.contains (str ";") (Py.strip raw)
    then Some (Py.join (str ", ")
                 (Py.strip <$> filter (λ item, nonempty (Py.strip item))
                                      (split_class sep (Py.strip raw))))
    else Some (Py.strip raw).
Proof. done. Qed.

Lemma nonempty_true (s : pystr) : nonempty s = true ↔ s ≠ [].
Proof.
  unfold nonempty. rewrite negb_true_iff, bool_decide_eq_false. done.
Qed.

Lemma strip_free (p : ascii → bool) (s : pystr) :
  Forall (λ c, p c = false) s → Forall (λ c, p c = false) (Py.strip s).
Proof.
  intros Hs. destruct (strip_spec s) as [(pre & post & Heq) _].
  rewrite Heq in Hs. by apply Forall_app in Hs as [_ [? _]%Forall_app].
Qed.

Lemma stripped_items (pieces : list pystr) :
  Forall (Forall (λ c, sep c = false)) pieces →
  Forall list_item (Py.strip <$> filter (λ item, nonempty (Py.strip item)) pieces).
Proof.
  intros Hpieces. apply Forall_fmap, Forall_forall.
  intros piece [Hne Hin]%list_elem_of_filter. simpl. split_and!.
  - by apply Is_true_true, nonempty_true in Hne.
  - apply strip_idemp.
  - apply strip_free. by eapply Forall_forall in Hpieces.
Qed.

Lemma list_item_ends (item : pystr) :
  list_item item →
  ∃ c c' mid pre, item = c :: mid ∧ item = pre ++ [c']
                  ∧ Py.isspace c = false ∧ Py.isspace c' = false.
Proof.
  intros (Hne & Hstrip & _). destruct (strip_spec item) as [_ Hends].
  rewrite Hstrip in Hends. by apply Hends.
Qed.

Lemma strip_space_item (item : pystr) :
  list_item item → Py.strip (" "%char :: item) = item.
Proof.
  intros Hitem. destruct Hitem as (_ & Hstrip & _). by rewrite <-Hstrip at 2.
Qed.

(** A joined list of items begins and ends as its first and last item
    do, so it is its own stripped text. *)
Lemma join_items_ends (x : pystr) (items : list pystr) :
  Forall list_item (x :: items) →
  ∃ c c' mid pre, Py.join (str ", ") (x :: items) = c :: mid
                  ∧ Py.join (str ", ") (x :: items) = pre ++ [c']
                  ∧ Py.isspace c = false ∧ Py.isspace c' = false.
Proof.
  revert x. induction items as [|y items IH]; intros x [Hx Hitems]%Forall_cons.
  - by apply list_item_ends.
  - destruct (list_item_ends x Hx) as (c & _ & mid & _ & -> & _ & Hc & _).
    destruct (IH y Hitems) as (_ & c' & _ & pre & _ & Hlast & _ & Hc').
    change (Py.join (str ", ") ((c :: mid) :: y :: items))
      with ((c :: mid) ++ ","%char :: " "%char :: Py.join (str ", ") (y :: items)).
    rewrite Hlast. exists c, c'. eexists _, ((c :: mid) ++ ","%char :: " "%char :: pre).
    split_and!; [done| |done|done]. by rewrite <-!app_assoc.
Qed.

Lemma normalize_joined_items (items : list pystr) strategy :
  Forall list_item items →
  Py.join (str ", ") items ≠ [] → Py.join (str ", ") items ≠ str "null" →
  _normalize_value (PStr (Py.join (str ", ") items)) FieldType.LIST strategy
  = Some (Py.join (str ", ") items).
Proof.
  intros Hitems Hne Hnull. destruct items as [|x items]; [done|].
  rewrite normalize_list_unfold.
  unfold Py.str_eqb. rewrite bool_decide_eq_false_2 by done.
  destruct (join_items_ends x items Hitems) as (c & c' & mid & pre & Hhead & Hlast & Hc & Hc').
  rewrite (strip_fixed _ c c' mid Hhead (ex_intro _ pre Hlast) Hc Hc').
  rewrite (proj2 (nonempty_true _) Hne). simpl negb. cbv iota.
  destruct (Py.contains _ _ || Py.contains _ _) eqn:Hsep; [|done].
  f_equal. f_equal.
  assert (Forall (Forall (λ c, sep c = false)) (x :: items)) as Hfree.
  { eapply Forall_impl; [exact Hitems|]. by intros item (_ & _ & ?). }
  rewrite split_join by done.
  rewrite filter_cons. apply Forall_cons in Hitems as [Hx Hitems].
  destruct Hx as (Hxne & Hxstrip & Hxfree).
  rewrite decide_True by (apply Is_true_true, nonempty_true; by rewrite Hxstrip).
  rewrite fmap_cons, Hxstrip. f_equal.
  clear -Hitems. induction Hitems as [|y items Hy Hitems IH]; [done|].
  rewrite fmap_cons, filter_cons.
  rewrite decide_True
    by (apply Is_true_true, nonempty_true; rewrite (strip_space_item y Hy); apply Hy).
  by rewrite fmap_cons, (strip_space_item y Hy), IH.
Qed.

End ListFacts.

(** A normalized LIST value is made of items joined by a comma and a
    space; every item is not empty, has no white space at its ends and
    holds no comma and no semicolon.  Normalizing such a value again gives
    the same value, unless it is empty or the word null, which normalize
    to null. *)
Theorem normalize_list_idempotent (raw v : pystr) (strategy : option pyval) :
  Extractor._normalize_value (PStr raw) FieldType.LIST strategy = Some v →
  (∃ items, v = Py.join (str ", ") items ∧ Forall list_item items)
  ∧ (v ≠ [] → v ≠ str "null" →
     Extractor._normalize_value (PStr v) FieldType.LIST strategy = Some v).
Proof.
  intros Hv.
  assert (∃ items, v = Py.join (str ", ") items ∧ Forall list_item items)
    as (items & -> & Hitems).
  { rewrite normalize_list_unfold in Hv.
    destruct (Py.str_eqb raw (str "null")); [done|].
    destruct (Extractor.nonempty (Py.strip raw)) eqn:Hne; [|done].
    apply nonempty_true in Hne. simpl in Hv.
    destruct (Py.contains _ _ || Py.contains _ _) eqn:Hsep; injection Hv as <-.
    - eexists. split; [done|]. apply stripped_items, split_class_items.
    - exists [Py.strip raw]. split; [done|]. apply Forall_singleton.
      split_and!; [done|apply strip_idemp|].
      apply Forall_forall. intros c Hc. destruct (Re.one_of _ c) eqn:Hp; [|done].
      assert (Py.contains (str ",") (Py.strip raw)
              || Py.contains (str ";") (Py.strip raw) = true) as Habs; [|congruence].
      apply has_separator, Exists_exists. by exists c. }
  split; [by exists items|]. intros Hne Hnull. by apply normalize_joined_items.
Qed.

Lemma normalize_list_idempotent_witness :
  ∃ v, Extractor._normalize_value (PStr (str " a ;b,, c d ; ")) FieldType.LIST None = Some v
       ∧ v = str "a, b, c d"
       ∧ Extractor._normalize_value (PStr v) FieldType.LIST None = Some v.
Proof.
  destruct (Extractor._normalize_value (PStr (str " a ;b,, c d ; ")) FieldType.LIST None)
    as [v|] eqn:Hv; [|by vm_compute in Hv].
  exists v. split; [done|].
  assert (v = str "a, b, c d") as Heq by (vm_compute in Hv; by injection Hv as <-).
  split; [exact Heq|].
  apply (normalize_list_idempotent (str " a ;b,, c d ; ") v None Hv); by rewrite Heq.
Defined.

(** ** Greedy repetition *)

Section RepFacts.
Import Re.
Context {R : Type}.
Implicit Types (p : ascii → bool) (s : pystr) (k : pystr → option R).

Lemma span_spec {A} (p : A → bool) (l : list A) :
  l = (PyVal.span p l).1 ++ (PyVal.span p l).2
  ∧ Forall (λ c, p c = true) (PyVal.span p l).1
  ∧ match (PyVal.span p l).2 with
    | [] => True
    | c :: _ => p c = false
    end.
Proof.
  induction l as [|x l IH]; simpl; [done|].
  destruct (p x) eqn:Hx; [|done].
  destruct (PyVal.span p l) as [a b]. simpl in *.
  destruct IH as (-> & Ha & Hb). by split_and!; [|constructor|].
Qed.

(** A greedy repetition without upper bound, before a continuation that
    cannot fail, takes the longest run. *)
Lemma rep_greedy_total p s lo k :
  (∀ s', is_Some (k s')) →
  rep_match p true s lo None k
  = if (lo <=? length (PyVal.span p s).1)%nat then k (PyVal.span p s).2 else None.
Proof.
  intros Htotal. revert lo. induction s as [|c s IH]; intros lo.
  - simpl. destruct lo; [|done]. done.
  - cbn [rep_match]. destruct (p c) eqn:Hc; simpl; rewrite Hc.
    + destruct (PyVal.span p s) as [a b] eqn:Hspan. simpl in *.
      destruct lo as [|lo]; simpl.
      * rewrite IH. simpl. by destruct (Htotal b) as [r ->].
      * rewrite IH. done.
    + simpl. by destruct lo.
Qed.

(** An optional character. *)
Lemma rep_optional p s k :
  rep_match p true s 0 (Some 1%nat) k
  = match s with
    | c :: s' =>
        if p c then match k s' with Some r => Some r | None => k s end else k s
    | [] => k []
    end.
Proof.
  destruct s as [|c s]; [done|]. cbn [rep_match]. destruct (p c); simpl; [|done].
  destruct s as [|c' s]; simpl; [done|]. by rewrite andb_false_r.
Qed.

End RepFacts.

Section SearchFacts.
Import Re.

(** What [search] finds is what [match] finds at a position. *)
Lemma search_from_some r pos s m :
  search_from r pos s = Some m →
  ∃ before rest caps, s = before ++ rest ∧ match_here r rest = Some (m_group0 m, caps).
Proof.
  revert pos. induction s as [|c s IH]; intros pos; simpl.
  - destruct (match_here r []) as [[g0 caps]|] eqn:Hm; [|done].
    intros [= <-]. by exists [], [], caps.
  - destruct (match_here r (c :: s)) as [[g0 caps]|] eqn:Hm.
    + intros [= <-]. by exists [], (c :: s), caps.
    + intros (before & rest & caps & -> & Hrest)%IH.
      by exists (c :: before), rest, caps.
Qed.

Lemma search_from_none r pos s :
  search_from r pos s = None →
  ∀ before rest, s = before ++ rest → match_here r rest = None.
Proof.
  revert pos. induction s as [|c s IH]; intros pos; simpl.
  - destruct (match_here r []) as [[g0 caps]|] eqn:Hm; [done|].
    intros _ before rest Hs. symmetry in Hs. by apply app_eq_nil in Hs as [_ ->].
  - destruct (match_here r (c :: s)) as [[g0 caps]|] eqn:Hm; [done|].
    intros Hnone before rest Hs. destruct before as [|b before]; simpl in Hs.
    + by subst.
    + injection Hs as _ ->. by eapply IH.
Qed.

End SearchFacts.

Section NumberFacts.
Import Re Extractor.

(** The characters a number starts with: digits and commas. *)
Abbreviation digit_or_comma := (either Py.isdigit (just ",")).

Lemma take_consumed {A} (pre rest : list A) :
  take (length (pre ++ rest) - length rest) (pre ++ rest) = pre.
Proof.
  rewrite length_app. replace (length pre + length rest - length rest)%nat
    with (length pre) by lia.
  by rewrite take_app_length.
Qed.

(** The match of the number pattern at the head of a text: an optional
    minus sign, the longest run of digits and commas, which is not empty,
    an optional point and the longest run of digits. *)
Lemma match_here_number (s : pystr) :
  (∀ g0 caps,
     match_here number_pattern s = Some (g0, caps) →
     ∃ sign run dot ds rest,
       s = sign ++ run ++ dot ++ ds ++ rest
       ∧ g0 = sign ++ run ++ dot ++ ds
       ∧ (sign = [] ∨ sign = ["-"%char])
       ∧ run ≠ []
       ∧ Forall (λ c, digit_or_comma c = true) run
       ∧ (dot = [] ∨ dot = ["."%char])
       ∧ Forall (λ c, Py.isdigit c = true) ds)
  ∧ (∀ c s', s = c :: s' → digit_or_comma c = true →
       is_Some (match_here number_pattern s)).
Proof.
  unfold match_here, number_pattern. cbn [seq run].
  set (kf := λ s' : pystr, Some (take (length s - length s') s, @nil (nat * pystr))).
  set (k3 := λ s3 : pystr, rep_match Py.isdigit true s3 0 None kf).
  set (k2 := λ s2 : pystr, rep_match (just ".") true s2 0 (Some 1%nat) k3).
  set (k1 := λ s1 : pystr, rep_match digit_or_comma true s1 1 None k2).
  change ((∀ g0 caps,
             rep_match (just "-") true s 0 (Some 1%nat) k1 = Some (g0, caps) →
             ∃ sign run dot ds rest,
               s = sign ++ run ++ dot ++ ds ++ rest
               ∧ g0 = sign ++ run ++ dot ++ ds
               ∧ (sign = [] ∨ sign = ["-"%char])
               ∧ run ≠ []
               ∧ Forall (λ c, digit_or_comma c = true) run
               ∧ (dot = [] ∨ dot = ["."%char])
               ∧ Forall (λ c, Py.isdigit c = true) ds)
          ∧ (∀ c s', s = c :: s' → digit_or_comma c = true →
               is_Some (rep_match (just "-") true s 0 (Some 1%nat) k1))).
  assert (∀ s3, k3 s3 = kf (PyVal.span Py.isdigit s3).2) as Hk3.
  { intros s3. unfold k3.
    rewrite rep_greedy_total; [reflexivity|intros; unfold kf; by eexists]. }
  assert (∀ s2, ∃ dot s3, s2 = dot ++ s3 ∧ (dot = [] ∨ dot = ["."%char])
                          ∧ k2 s2 = k3 s3) as Hk2.
  { intros s2. unfold k2. rewrite rep_optional.
    destruct s2 as [|c s2]; [exists [], []; by split_and!; [|left|]|].
    destruct (just "." c) eqn:Hc.
    - apply Ascii.eqb_eq in Hc as <-. exists ["."%char], s2. split_and!; [done|by right|].
      by rewrite Hk3.
    - exists [], (c :: s2). by split_and!; [|left|]. }
  assert (∀ s1 x, k1 s1 = Some x →
            ∃ run dot ds rest,
              s1 = run ++ dot ++ ds ++ rest ∧ run ≠ []
              ∧ Forall (λ c, digit_or_comma c = true) run
              ∧ (dot = [] ∨ dot = ["."%char])
              ∧ Forall (λ c, Py.isdigit c = true) ds
              ∧ x = (take (length s - length rest) s, [])) as Hk1.
  { intros s1 x. unfold k1. rewrite rep_greedy_total.
    2: { intros s2. destruct (Hk2 s2) as (? & s3 & _ & _ & ->). rewrite Hk3.
         unfold kf. by eexists. }
    destruct (span_spec digit_or_comma s1) as (Hs1 & Hrun & _).
    destruct (PyVal.span digit_or_comma s1) as [run s2]. simpl in *.
    destruct run as [|c run]; [done|]. simpl.
    destruct (Hk2 s2) as (dot & s3 & -> & Hdot & ->). rewrite Hk3.
    destruct (span_spec Py.isdigit s3) as (Hs3 & Hds & _).
    destruct (PyVal.span Py.isdigit s3) as [ds rest]. simpl in *.
    intros [= <-]. exists (c :: run), dot, ds, rest. subst. by split_and!. }
  assert (∀ s2, is_Some (k2 s2)) as Htotal.
  { intros s2. destruct (Hk2 s2) as (? & s3 & _ & _ & ->). rewrite Hk3.
    unfold kf. by eexists. }
  split.
  - intros g0 caps. rewrite rep_optional. intros Hrun.
    assert ((∃ s', s = "-"%char :: s' ∧ k1 s' = Some (g0, caps)) ∨ k1 s = Some (g0, caps))
      as [(s' & Hs & Hk)|Hk].
    { destruct s as [|c s']; [by right|]. destruct (just "-" c) eqn:Hc; [|by right].
      apply Ascii.eqb_eq in Hc as <-. destruct (k1 s') eqn:Hk; [|by right].
      left. exists s'. by simplify_eq. }
    + destruct (Hk1 _ _ Hk) as (run & dot & ds & rest & Hs' & Hne & Hrun' & Hdot & Hds & Hx).
      exists ["-"%char], run, dot, ds, rest. injection Hx as -> ->.
      assert (s = ("-"%char :: run ++ dot ++ ds) ++ rest) as Hsplit.
      { rewrite Hs, Hs'. simpl. by rewrite <-!app_assoc. }
      split_and!; [by rewrite Hs, Hs'| |by right|done..].
      rewrite Hsplit at 1 2. apply take_consumed.
    + destruct (Hk1 _ _ Hk) as (run & dot & ds & rest & Hs' & Hne & Hrun' & Hdot & Hds & Hx).
      exists [], run, dot, ds, rest. injection Hx as -> ->.
      assert (s = (run ++ dot ++ ds) ++ rest) as Hsplit.
      { rewrite Hs'. by rewrite <-!app_assoc. }
      split_and!; [done| |by left|done..].
      rewrite Hsplit at 1 2. apply take_consumed.
  - intros c s' -> Hc. rewrite rep_optional.
    destruct (just "-" c) eqn:Hminus.
    { apply Ascii.eqb_eq in Hminus as <-. by vm_compute in Hc. }
    unfold k1. rewrite rep_greedy_total by done. simpl. rewrite Hc.
    destruct (PyVal.span digit_or_comma s') as [run s2]. simpl. apply Htotal.
Qed.

Lemma normalize_number_unfold (raw : pystr) strategy :
  _normalize_value (PStr raw) FieldType.NUMBER strategy
  = if Py.str_eqb raw (str "null") then None
    else if negb (nonempty (Py.strip raw)) then None
    else match search number_pattern (Py.strip raw) with
         | Some number_match => Some (Py.remove_char "," (m_group0 number_match))
         | None => Some (Py.strip raw)
         end.
Proof. done. Qed.

Lemma remove_comma_digits (ds : pystr) :
  Forall (λ c, Py.isdigit c = true) ds → Py.remove_char "," ds = ds.
Proof.
  unfold Py.remove_char. induction 1 as [|c ds Hc _ IH]; [done|].
  rewrite filter_cons. destruct (decide (c ≠ ","%char)) as [_|Heq]; [by rewrite IH|].
  apply dec_stable in Heq as ->. by vm_compute in Hc.
Qed.

Lemma remove_comma_run (run : pystr) :
  Forall (λ c, digit_or_comma c = true) run →
  Forall (λ c, Py.isdigit c = true) (Py.remove_char "," run).
Proof.
  unfold Py.remove_char. intros Hrun. apply Forall_forall.
  intros c [Hne Hc]%list_elem_of_filter.
  apply (proj1 (Forall_forall _ _) Hrun) in Hc. unfold either in Hc.
  apply orb_true_iff in Hc as [Hc|Hc]; [done|].
  apply Ascii.eqb_eq in Hc. by subst.
Qed.

End NumberFacts.

(** A normalized NUMBER value.  When the stripped raw value holds no digit
    and no comma it is returned as it is.  Otherwise the value is an
    optional minus sign, digits that may be none, and optionally a point
    followed by digits: the commas of the number found are removed, and
    the text around the number is dropped. *)
Theorem normalize_number_shape (raw v : pystr) (strategy : option pyval) :
  Extractor._normalize_value (PStr raw) FieldType.NUMBER strategy = Some v →
  (Forall (λ c, Py.isdigit c = false ∧ c ≠ ","%char) (Py.strip raw) ∧ v = Py.strip raw)
  ∨ (Exists (λ c, Py.isdigit c = true ∨ c = ","%char) (Py.strip raw)
     ∧ ∃ sign int frac,
         v = sign ++ int ++ frac
         ∧ (sign = [] ∨ sign = str "-")
         ∧ Forall (λ c, Py.isdigit c = true) int
         ∧ (frac = [] ∨ ∃ ds, frac = "."%char :: ds ∧ Forall (λ c, Py.isdigit c = true) ds)).
Proof.
  rewrite normalize_number_unfold.
  destruct (Py.str_eqb raw (str "null")); [done|].
  destruct (negb _); [done|].
  destruct (Re.search Extractor.number_pattern (Py.strip raw)) as [m|] eqn:Hsearch.
  - intros [= <-]. right.
    apply search_from_some in Hsearch as (before & rest & caps & Hraw & Hm).
    apply match_here_number in Hm
      as (sign & run & dot & ds & rest' & -> & -> & Hsign & Hne & Hrun & Hdot & Hds).
    split.
    + rewrite Hraw. destruct run as [|c run]; [done|].
      apply Exists_app. right. apply Exists_app. right. apply Exists_cons_hd.
      apply Forall_cons in Hrun as [Hc _]. unfold Re.either in Hc.
      apply orb_true_iff in Hc as [Hc|Hc]; [by left|right].
      apply Ascii.eqb_eq in Hc. by subst.
    + unfold Py.remove_char. rewrite !filter_app.
      fold (Py.remove_char "," sign) (Py.remove_char "," run)
           (Py.remove_char "," dot) (Py.remove_char "," ds).
      rewrite (remove_comma_digits ds) by done.
      apply remove_comma_run in Hrun.
      destruct Hdot as [->| ->].
      * exists (Py.remove_char "," sign), (Py.remove_char "," run ++ ds), [].
        split_and!.
        -- by rewrite app_nil_r, app_nil_l.
        -- by destruct Hsign as [->| ->]; [left|right].
        -- by apply Forall_app.
        -- by left.
      * exists (Py.remove_char "," sign), (Py.remove_char "," run), ("."%char :: ds).
        split_and!.
        -- done.
        -- by destruct Hsign as [->| ->]; [left|right].
        -- done.
        -- right. by exists ds.
  - intros [= <-]. left. split; [|done].
    apply Forall_forall. intros c Hc.
    apply list_elem_of_split in Hc as (l1 & l2 & Hsplit).
    pose proof (search_from_none _ _ _ Hsearch l1 (c :: l2) Hsplit) as Hnone.
    destruct (Re.either Py.isdigit (Re.just ",") c) eqn:Hcls.
    { destruct (proj2 (match_here_number (c :: l2)) c l2 eq_refl Hcls) as [? Hsome].
      congruence. }
    unfold Re.either in Hcls. apply orb_false_iff in Hcls as [Hd Hcomma].
    split; [done|]. intros ->. by vm_compute in Hcomma.
Qed.

Lemma normalize_number_shape_witness :
  Extractor._normalize_value (PStr (str "USD -1,200.50 net")) FieldType.NUMBER None
  = Some (str "-1200.50")
  ∧ ((Forall (λ c, Py.isdigit c = false ∧ c ≠ ","%char) (Py.strip (str "USD -1,200.50 net"))
      ∧ str "-1200.50" = Py.strip (str "USD -1,200.50 net"))
     ∨ (Exists (λ c, Py.isdigit c = true ∨ c = ","%char) (Py.strip (str "USD -1,200.50 net"))
        ∧ ∃ sign int frac,
            str "-1200.50" = sign ++ int ++ frac
            ∧ (sign = [] ∨ sign = str "-")
            ∧ Forall (λ c, Py.isdigit c = true) int
            ∧ (frac = [] ∨ ∃ ds, frac = "."%char :: ds
                               ∧ Forall (λ c, Py.isdigit c = true) ds))).
Proof.
  split; [by vm_compute|].
  apply (normalize_number_shape (str "USD -1,200.50 net") (str "-1200.50") None).
  by vm_compute.
Defined.

(** ** Reading back what a job wrote *)

Section ReadBack.
Import Db Tasks ProjectExtraction.

Lemma sorted_desc {A} (key : A → Z) (rows : list A) :
  StronglySorted (λ a b, key b ≤ key a) (order_by_desc key rows).
Proof.
  unfold order_by_desc.
  pose proof (order_by_asc_sorted (λ x, - key x) rows) as Hsorted.
  induction Hsorted as [|x rest _ IH Hx]; constructor; [done|].
  eapply Forall_impl; [exact Hx|]. simpl. lia.
Qed.

Lemma elem_of_order_by_desc {A} (key : A → Z) (rows : list A) x :
  x ∈ order_by_desc key rows ↔ x ∈ rows.
Proof. unfold order_by_desc. by rewrite order_by_asc_perm. Qed.

(** A row found by its identifier, when identifiers are distinct. *)
Lemma where_id_unique {A} (key : A → uuid) (rows : list A) x :
  NoDup (key <$> rows) → x ∈ rows →
  where_ (λ y, (key y =? key x)%N) rows = [x].
Proof.
  intros Hnodup Hx.
  destruct (where_key_unique key (λ y, (key y =? key x)%N) (key x) rows Hnodup
              (λ y, N.eqb_eq (key y) (key x))) as [Hnone|[y Hy]].
  - assert (x ∈ where_ (λ y, (key y =? key x)%N) rows) as Hin
      by (apply where_elem; split; [done|apply N.eqb_refl]).
    rewrite Hnone in Hin. by apply elem_of_nil in Hin.
  - assert (x ∈ where_ (λ y, (key y =? key x)%N) rows) as Hin
      by (apply where_elem; split; [done|apply N.eqb_refl]).
    rewrite Hy in Hin. apply list_elem_of_singleton in Hin. by subst.
Qed.

(** The results of the engine that the response model accepts: the
    confidence score of a result of the engine is in range. *)
Lemma valid_extracted_field_spec (f : field_result) :
  (0 <= fr_confidence_score f)%Q → (fr_confidence_score f <= 1)%Q →
  valid_extracted_field f = true ↔
  (fr_raw_value f = PNone ∨ ∃ s, fr_raw_value f = PStr s)
  ∧ ∃ citations, fr_citations f = PList citations
                 ∧ forallb valid_citation citations = true.
Proof.
  intros Hlow%Qle_bool_iff Hhigh%Qle_bool_iff. unfold valid_extracted_field.
  rewrite Hlow, Hhigh, !andb_true_r. rewrite andb_true_iff. split.
  - intros [Hraw Hcitations]. split.
    + destruct (fr_raw_value f); try done; [by left|right; by eexists].
    + destruct (fr_citations f) as [| | | | |citations|]; try done. by exists citations.
  - intros [[->|[s ->]] (citations & -> & Hcitations)]; by split.
Qed.

End ReadBack.

(** Reading back the record a successful job reports.  On a consistent
    store where one document has the identifier, the job leaves one record
    for the document and the template, marked COMPLETED, with the fields
    it counted.  The endpoints that return it validate it against their
    response model: [get_extraction_record] answers with the record when
    every result of the engine has a string or null as its raw value and a
    list of well-formed citations, and fails otherwise;
    [get_document_extractions] answers with the records of the document,
    the most recently created first, this record among them, when all of
    them are valid, and fails otherwise. *)
Theorem extraction_read_back (env : Tasks.environment) (doc_id template_ref rid : uuid)
    (w w' : world) (document : Document) (fields_extracted : nat) :
  records_consistent w →
  Db.where_ (λ d, (document_id d =? doc_id)%N) (documents w) = [document] →
  Tasks.extract_document_task env doc_id template_ref w
  = Some (Tasks.TaskSuccess rid fields_extracted, w') →
  ∃ e extracted,
    er_id e = rid
    ∧ er_document_id e = doc_id
    ∧ er_field_template_id e = template_ref
    ∧ extraction_status e = ExtractionStatus.COMPLETED
    ∧ extracted_fields e = Some extracted
    ∧ fields_extracted
      = length (List.filter (λ f, PyVal.truthy (fr_raw_value f)) extracted)
    ∧ (ProjectExtraction.valid_record e = true ↔
         ∀ f, f ∈ extracted →
              (fr_raw_value f = PNone ∨ ∃ s, fr_raw_value f = PStr s)
              ∧ ∃ citations,
                  fr_citations f = PList citations
                  ∧ forallb ProjectExtraction.valid_citation citations = true)
    ∧ ProjectExtraction.get_extraction_record rid w'
      = (if ProjectExtraction.valid_record e then Response e else Unhandled)
    ∧ let records :=
        Db.order_by_desc er_created_at
          (Db.where_ (λ e, (er_document_id e =? doc_id)%N) (extracted_records w')) in
      e ∈ records
      ∧ (∀ e', e' ∈ records ↔ e' ∈ extracted_records w' ∧ er_document_id e' = doc_id)
      ∧ StronglySorted (λ a b, er_created_at b ≤ er_created_at a) records
      ∧ ProjectExtraction.get_document_extractions doc_id w'
        = (if forallb ProjectExtraction.valid_record records
           then Response records else Unhandled).
Proof.
  intros Hw Hdocs Hrun.
  apply extract_document_task_inv in Hrun
    as [(message & Hres & _)
       |(document' & text & template & rid' & w1 & status & fields & message
         & _ & _ & _ & _ & Hrecord & -> & Hend)]; [done|].
  destruct Hend as [(err & Hres & _)|(extracted & Hres & -> & -> & -> & Hextract)]; [done|].
  injection Hres as <- ->.
  destruct (get_or_create_spec _ _ _ _ _ Hw Hrecord)
    as (e1 & He1 & Hrid & _ & _ & Hw1 & Hsame & _).
  destruct (finish_spec w1 doc_id template_ref rid e1 ExtractionStatus.COMPLETED
              (λ _, Some extracted) None Hw1 He1 Hrid)
    as ((e & He & Hid & Hstatus & Hkept & _) & (Hids & _ & _) & _).
  assert (documents w1 = documents w) as Hdocuments by (by rewrite Hsame).
  set (w' := Tasks.with_records w1 _ _) in *.
  assert (e ∈ ProjectExtraction.records_for doc_id template_ref w') as Hin
    by (rewrite He; left).
  apply where_elem in Hin as [Hin [Hd Ht]%andb_true_iff].
  apply N.eqb_eq in Hd, Ht.
  exists e, extracted. split_and!; try done.
  - unfold ProjectExtraction.valid_record. rewrite Hkept.
    rewrite forallb_forall.
    assert (Forall (λ f, (0 <= fr_confidence_score f)%Q ∧ (fr_confidence_score f <= 1)%Q)
              extracted) as Hbounds.
    { eapply extract_results; [| |exact Hextract].
      - intros item x (d & score & _ & _ & ->)%validate_item_result.
        apply clamp_confidence_bounds.
      - by intros d _. }
    rewrite Forall_forall in Hbounds. split.
    + intros Hvalid f Hf. destruct (Hbounds f Hf) as [Hlow Hhigh].
      apply valid_extracted_field_spec; [done..|]. by apply Hvalid, list_elem_of_In.
    + intros Hvalid f Hf%list_elem_of_In. destruct (Hbounds f Hf) as [Hlow Hhigh].
      apply valid_extracted_field_spec; [done..|]. by apply Hvalid.
  - unfold ProjectExtraction.get_extraction_record. rewrite <-Hid.
    by rewrite (where_id_unique er_id (extracted_records w') e Hids Hin).
  - intros records. subst records. split_and!.
    + apply elem_of_order_by_desc, where_elem. split; [done|]. by apply N.eqb_eq.
    + intros e'. rewrite elem_of_order_by_desc, where_elem. by rewrite N.eqb_eq.
    + apply sorted_desc.
    + unfold ProjectExtraction.get_document_extractions.
      change (documents w') with (documents w1). by rewrite Hdocuments, Hdocs.
Qed.

(** One response of the model with a string as the raw value, and one
    with a number: the job succeeds on both, the first record is served and
    the second is not. *)
Lemma extraction_read_back_witness :
  let document :=
    {| document_id := 10; document_project_id := 1; filename := str "a.txt";
       upload_status := UploadStatus.PARSED; parsed_text := Some (str "Acme pays 1500.");
       document_created_at := 0 |} in
  let w :=
    {| projects := [];
       field_templates :=
         [{| template_id := 7; template_fields := [plain_field "fee" "Fee" "NUMBER"] |}];
       documents := [document];
       extracted_records := []; review_records := []; queue := [];
       next_id := 30; now := 5; broker_up := true; autoflush := true |} in
  let env response :=
    {| Tasks.llm := λ _, Some response; Tasks.extractor_available := true |} in
  (∃ w' e,
     Tasks.extract_document_task
       (env (dq "[{'field_id': 'fee', 'raw_value': '1500'}]")) 10 7 w
     = Some (Tasks.TaskSuccess 30 1, w')
     ∧ ProjectExtraction.get_extraction_record 30 w' = Response e
     ∧ ProjectExtraction.get_document_extractions 10 w' = Response [e])
  ∧ (∃ w',
       Tasks.extract_document_task
         (env (dq "[{'field_id': 'fee', 'raw_value': 1500}]")) 10 7 w
       = Some (Tasks.TaskSuccess 30 1, w')
       ∧ ProjectExtraction.get_extraction_record 30 w' = Unhandled
       ∧ ProjectExtraction.get_document_extractions 10 w' = Unhandled).
Proof.
  intros document w env.
  assert (records_consistent w) as Hw.
  { split_and!; [apply NoDup_nil_2|constructor|apply NoDup_nil_2]. }
  split.
  - destruct (Tasks.extract_document_task
                (env (dq "[{'field_id': 'fee', 'raw_value': '1500'}]")) 10 7 w)
      as [[result w']|] eqn:Hrun; [|by vm_compute in Hrun].
    assert (result = Tasks.TaskSuccess 30 1) as ->.
    { vm_compute in Hrun. by injection Hrun as <- _. }
    destruct (extraction_read_back _ 10 7 30 w w' document 1 Hw eq_refl Hrun)
      as (e & extracted & _ & _ & _ & _ & _ & _ & _ & Hget & _).
    vm_compute in Hrun. injection Hrun as <-.
    destruct (ProjectExtraction.valid_record e); [|by vm_compute in Hget].
    eexists. exists e. split; [reflexivity|]. split; [exact Hget|].
    vm_compute in Hget. injection Hget as <-. by vm_compute.
  - destruct (Tasks.extract_document_task
                (env (dq "[{'field_id': 'fee', 'raw_value': 1500}]")) 10 7 w)
      as [[result w']|] eqn:Hrun; [|by vm_compute in Hrun].
    assert (result = Tasks.TaskSuccess 30 1) as ->.
    { vm_compute in Hrun. by injection Hrun as <- _. }
    destruct (extraction_read_back _ 10 7 30 w w' document 1 Hw eq_refl Hrun)
      as (e & extracted & _ & _ & _ & _ & _ & _ & _ & Hget & _).
    vm_compute in Hrun. injection Hrun as <-.
    destruct (ProjectExtraction.valid_record e); [by vm_compute in Hget|].
    eexists. split; [reflexivity|]. split; [exact Hget|by vm_compute].
Defined.
